(** * Tank-Firmware-V2: the motion ramp engine and its telemetry publisher

    A shallow embedding of [Motor], [MotionMotors], [Telemetry] and
    [NonBlockingDelay] (src/RobotController), of the class [TankMotors]
    they replace, and of [Logger] and [ControllerHandler], which drive
    them; followed by the properties the specification states about them
    and by further properties of the code.

    Conventions of the embedding.
    - [uint8_t] values are integers of [Z] in [0, 255]; where the source
      computes a value that can leave that range (an increment, a
      conversion from [float]) the wrap-around is written with [u8].
    - [unsigned long] is the 32-bit type of the ESP32 target; arithmetic on
      it is written with [ulong].
    - [float] is IEEE-754 binary32.  It is modelled with the Standard
      Library's executable specification of floating-point arithmetic
      ([SpecFloat]) at precision 24 and maximal exponent 128.
    - [millis()] is an input: every operation receives the value [now] that
      the clock returns while the operation runs.
    - [analogWrite] is an output: every motor carries the history of its
      [applyPower] calls, newest first.
    - [Logger] output is a passive text sink and is left out; the fields the
      logging code maintains ([_lastReportedDirection], [_lastReportedPower])
      are kept, and [Logger] itself is modelled by the decision whether a
      line is printed.
    - [Serial.print] output of [TankMotors] is left out in the same way.
    - The game controller is an input: [ControllerHandler] receives the axis
      values and button states it reads.  [Preferences] is the list of
      values saved to it. *)

From Stdlib Require Import ZArith List Bool Lia String.
From Stdlib Require Import Floats.SpecFloat.
Import ListNotations.
Open Scope Z_scope.

(** ** Machine integers *)

Definition u8 (z : Z) : Z := z mod 256.

Definition ULONG_BITS : Z := 32.
Definition ulong (z : Z) : Z := z mod 2 ^ ULONG_BITS.

(** [a - b] on [unsigned long]. *)
Definition ulong_sub (a b : Z) : Z := ulong (a - b).

(** ** binary32 *)

Module F32.

Definition prec : Z := 24.
Definition emax : Z := 128.

Definition float : Type := spec_float.

(** Conversion of an integer to [float] (exact for the 8-bit values the
    firmware converts). *)
Definition of_Z (z : Z) : float := binary_normalize prec emax z 0 false.

Definition mul : float -> float -> float := SFmul prec emax.
Definition div : float -> float -> float := SFdiv prec emax.

Definition eqb : float -> float -> bool := SFeqb.
Definition ltb : float -> float -> bool := SFltb.
Definition leb : float -> float -> bool := SFleb.

(** C++ [a != b]. *)
Definition neqb (a b : float) : bool := negb (eqb a b).

Definition zero : float := S754_zero false.
Definition one : float := of_Z 1.
Definition valid : float -> bool := valid_binary prec emax.

(** The integer part of a float, rounding toward zero. *)
Definition trunc (f : float) : Z :=
  match f with
  | S754_finite s m e =>
      let a := if 0 <=? e then Zpos m * 2 ^ e else Zpos m / 2 ^ (- e) in
      if s then - a else a
  | _ => 0
  end.

(** Conversion [float -> uint8_t]: the fractional part is discarded.  C++
    leaves the conversion undefined when the integer part does not fit
    (or the value is infinite or NaN); the model wraps, respectively
    yields 0, there. *)
Definition to_u8 (f : float) : Z := u8 (trunc f).

(** Arduino's [constrain(amt, low, high)] macro:
    [(amt) < (low) ? (low) : ((amt) > (high) ? (high) : (amt))]. *)
Definition constrain (amt low high : float) : float :=
  if ltb amt low then low else if ltb high amt then high else amt.

End F32.

(** ** Motor.h / Motor.cpp *)

Inductive MotorDirection : Type :=
| MOTOR_FORWARD
| MOTOR_BACKWARD
| MOTOR_STOPPED.

Definition MotorDirection_eqb (a b : MotorDirection) : bool :=
  match a, b with
  | MOTOR_FORWARD, MOTOR_FORWARD
  | MOTOR_BACKWARD, MOTOR_BACKWARD
  | MOTOR_STOPPED, MOTOR_STOPPED => true
  | _, _ => false
  end.

(** One call of [Motor::applyPower(forwardPower, backwardPower)], which
    writes [forwardPower] to the forward pin, then [backwardPower] to the
    backward pin; [a_power] is the commanded power the motor holds in
    [_power] when it makes the call. *)
Record Actuation : Type := mkActuation {
  a_power : Z;
  a_forward : Z;
  a_backward : Z
}.

Module Motor.

Record t : Type := mk {
  _forwardPin : Z;
  _backwardPin : Z;
  _direction : MotorDirection;
  _power : Z;
  _calibration : F32.float;
  _lastReportedDirection : MotorDirection;
  _lastReportedPower : Z;
  (** history of [applyPower] calls on this motor's pins, newest first *)
  sink : list Actuation
}.

Definition new (forwardPin backwardPin : Z) (calibration : F32.float) : t :=
  {| _forwardPin := forwardPin;
     _backwardPin := backwardPin;
     _direction := MOTOR_STOPPED;
     _power := 0;
     _calibration := F32.constrain calibration F32.zero F32.one;
     _lastReportedDirection := MOTOR_STOPPED;
     _lastReportedPower := 0;
     sink := [] |}.

(** [_direction = direction; _power = power;] *)
Definition setState (direction : MotorDirection) (power : Z) (m : t) : t :=
  mk (_forwardPin m) (_backwardPin m) direction power (_calibration m)
     (_lastReportedDirection m) (_lastReportedPower m) (sink m).

(** [analogWrite(_forwardPin, forwardPower);
     analogWrite(_backwardPin, backwardPower);] *)
Definition applyPower (forwardPower backwardPower : Z) (m : t) : t :=
  mk (_forwardPin m) (_backwardPin m) (_direction m) (_power m) (_calibration m)
     (_lastReportedDirection m) (_lastReportedPower m)
     (mkActuation (_power m) forwardPower backwardPower :: sink m).

(** The block "log if state changed" of [forward] and [backward]:
    [if (_lastReportedDirection != _direction || _lastReportedPower != _power)]
    the two report fields take the current direction and power. *)
Definition logIfChanged (m : t) : t :=
  let changed :=
    negb (MotorDirection_eqb (_lastReportedDirection m) (_direction m))
    || negb (_lastReportedPower m =? _power m) in
  mk (_forwardPin m) (_backwardPin m) (_direction m) (_power m) (_calibration m)
     (if changed then _direction m else _lastReportedDirection m)
     (if changed then _power m else _lastReportedPower m)
     (sink m).

(** The same block of [stop], which tests the direction only. *)
Definition logIfDirectionChanged (m : t) : t :=
  let changed :=
    negb (MotorDirection_eqb (_lastReportedDirection m) (_direction m)) in
  mk (_forwardPin m) (_backwardPin m) (_direction m) (_power m) (_calibration m)
     (if changed then _direction m else _lastReportedDirection m)
     (if changed then _power m else _lastReportedPower m)
     (sink m).

(** [uint8_t calibratedPower = power * _calibration;] *)
Definition calibratedPower (power : Z) (calibration : F32.float) : Z :=
  F32.to_u8 (F32.mul (F32.of_Z power) calibration).

Definition forward (power : Z) (m : t) : t :=
  let m := setState MOTOR_FORWARD power m in
  let calibrated := calibratedPower power (_calibration m) in
  let m := applyPower calibrated 0 m in
  logIfChanged m.

Definition backward (power : Z) (m : t) : t :=
  let m := setState MOTOR_BACKWARD power m in
  let calibrated := calibratedPower power (_calibration m) in
  let m := applyPower 0 calibrated m in
  logIfChanged m.

Definition stop (m : t) : t :=
  let m := setState MOTOR_STOPPED 0 m in
  let m := applyPower 0 0 m in
  logIfDirectionChanged m.

(** [begin] configures the pins as outputs and stops the motor. *)
Definition begin (m : t) : t := stop m.

Definition getDirection (m : t) : MotorDirection := _direction m.
Definition getPower (m : t) : Z := _power m.
Definition getCalibration (m : t) : F32.float := _calibration m.

Definition setCalibration (calibration : F32.float) (m : t) : t :=
  mk (_forwardPin m) (_backwardPin m) (_direction m) (_power m)
     (F32.constrain calibration F32.zero F32.one)
     (_lastReportedDirection m) (_lastReportedPower m) (sink m).

End Motor.

(** ** Telemetry.h / Telemetry.cpp *)

(** The text [Telemetry::send] prints is one JSON object per record; the
    model keeps its structure and leaves the digits of the numbers to the
    serial port. *)
#[warnings="-register-all"]
Inductive Json : Type :=
| JInt (z : Z)
| JFloat (f : F32.float)
| JBool (b : bool)
| JObject (fields : list (string * Json)).

Module Telemetry.

Record TelemetryData : Type := mkData {
  leftMotorPower : Z;
  rightMotorPower : Z;
  leftMotorForward : bool;
  rightMotorForward : bool;
  leftCalibration : F32.float;
  rightCalibration : F32.float;
  batteryVoltage : F32.float;
  isAccelerating : bool;
  smoothEnabled : bool;
  timestamp : Z
}.

(** The static members of the class. *)
Record t : Type := mk {
  _data : TelemetryData;
  _lastSendTime : Z;
  _interval : Z;
  _enabled : bool;
  _dataChanged : bool
}.

(** The initial values of the static members. *)
Definition initial : t :=
  {| _data := mkData 0 0 false false F32.zero F32.zero F32.zero false false 0;
     _lastSendTime := 0;
     _interval := 1000;
     _enabled := true;
     _dataChanged := false |}.

Definition begin (now : Z) (interval : Z) (_ : t) : t :=
  {| _data := mkData 0 0 true true F32.one F32.one F32.zero false true 0;
     _lastSendTime := now;
     _interval := interval;
     _enabled := true;
     _dataChanged := false |}.

(** The condition of the [if] in [update]: some field differs. *)
Definition differs (d : TelemetryData)
  (leftPower rightPower : Z) (leftForward rightForward : bool)
  (leftCal rightCal : F32.float) (accel smooth : bool) : bool :=
  negb (leftMotorPower d =? leftPower)
  || negb (rightMotorPower d =? rightPower)
  || negb (Bool.eqb (leftMotorForward d) leftForward)
  || negb (Bool.eqb (rightMotorForward d) rightForward)
  || F32.neqb (leftCalibration d) leftCal
  || F32.neqb (rightCalibration d) rightCal
  || negb (Bool.eqb (isAccelerating d) accel)
  || negb (Bool.eqb (smoothEnabled d) smooth).

(** [BATTERY_PIN] is not defined, so the battery voltage is never read. *)
Definition update (now : Z)
  (leftPower rightPower : Z) (leftForward rightForward : bool)
  (leftCal rightCal : F32.float) (accel smooth : bool) (s : t) : t :=
  if differs (_data s) leftPower rightPower leftForward rightForward
             leftCal rightCal accel smooth
  then
    {| _data := {| leftMotorPower := leftPower;
                   rightMotorPower := rightPower;
                   leftMotorForward := leftForward;
                   rightMotorForward := rightForward;
                   leftCalibration := leftCal;
                   rightCalibration := rightCal;
                   batteryVoltage := batteryVoltage (_data s);
                   isAccelerating := accel;
                   smoothEnabled := smooth;
                   timestamp := now |};
       _lastSendTime := _lastSendTime s;
       _interval := _interval s;
       _enabled := _enabled s;
       _dataChanged := true |}
  else s.

(** The record [send] prints for a snapshot. *)
Definition record (d : TelemetryData) : Json :=
  JObject
    [ ("leftMotor", JObject [ ("power", JInt (leftMotorPower d));
                              ("forward", JBool (leftMotorForward d));
                              ("cal", JFloat (leftCalibration d)) ]);
      ("rightMotor", JObject [ ("power", JInt (rightMotorPower d));
                               ("forward", JBool (rightMotorForward d));
                               ("cal", JFloat (rightCalibration d)) ]);
      ("system", JObject
         ((if F32.ltb F32.zero (batteryVoltage d)
           then [ ("battery", JFloat (batteryVoltage d)) ] else [])
          ++ [ ("accel", JBool (isAccelerating d));
               ("smooth", JBool (smoothEnabled d)) ]));
      ("timestamp", JInt (timestamp d)) ]%string.

(** [send] returns the record it printed, if any, and the new state. *)
Definition send (now : Z) (s : t) : option Json * t :=
  if negb (_enabled s) then (None, s)
  else
    let currentTime := now in
    if (_interval s <=? ulong_sub currentTime (_lastSendTime s)) && _dataChanged s
    then (Some (record (_data s)),
          {| _data := _data s;
             _lastSendTime := currentTime;
             _interval := _interval s;
             _enabled := _enabled s;
             _dataChanged := false |})
    else (None, s).

Definition getData (s : t) : TelemetryData := _data s.

Definition setInterval (interval : Z) (s : t) : t :=
  {| _data := _data s;
     _lastSendTime := _lastSendTime s;
     _interval := interval;
     _enabled := _enabled s;
     _dataChanged := _dataChanged s |}.

End Telemetry.

(** ** NonBlockingDelay.h / NonBlockingDelay.cpp *)

Module NonBlockingDelay.

Record t : Type := mk {
  _startTime : Z;
  _delayTime : Z;
  _running : bool
}.

Definition new (delayTime : Z) : t :=
  {| _startTime := 0; _delayTime := delayTime; _running := false |}.

Definition start (now : Z) (delayTime : Z) (d : t) : t :=
  {| _startTime := now;
     _delayTime := if 0 <? delayTime then delayTime else _delayTime d;
     _running := true |}.

Definition elapsed (now : Z) (d : t) : bool * t :=
  if negb (_running d) then (true, d)
  else
    let currentTime := now in
    if _delayTime d <=? ulong_sub currentTime (_startTime d)
    then (true, {| _startTime := _startTime d;
                   _delayTime := _delayTime d;
                   _running := false |})
    else (false, d).

Definition reset (now : Z) (d : t) : t :=
  {| _startTime := now; _delayTime := _delayTime d; _running := true |}.

Definition remaining (now : Z) (d : t) : Z :=
  if negb (_running d) then 0
  else
    let elapsedTime := ulong_sub now (_startTime d) in
    if _delayTime d <=? elapsedTime then 0
    else ulong_sub (_delayTime d) elapsedTime.

Definition elapsedTime (now : Z) (d : t) : Z :=
  if negb (_running d) then _delayTime d
  else ulong_sub now (_startTime d).

End NonBlockingDelay.

(** ** MotionMotors.h / MotionMotors.cpp *)

Module MotionMotors.

Definition DEFAULT_SMOOTH_ENABLED : bool := true.
Definition SMOOTH_ACCEL_STEPS : Z := 10.
Definition SMOOTH_ACCEL_DELAY : Z := 20.

Record AccelParams : Type := mkParams {
  steps : Z;
  delayMs : Z
}.

(** The default argument [{SMOOTH_ACCEL_STEPS, SMOOTH_ACCEL_DELAY}]. *)
Definition defaultParams : AccelParams :=
  {| steps := SMOOTH_ACCEL_STEPS; delayMs := SMOOTH_ACCEL_DELAY |}.

(** Which member a [Motor&] argument refers to; the source tests
    [&motor == &_leftMotor]. *)
Inductive Channel : Type := Left | Right.

Record t : Type := mk {
  _leftMotor : Motor.t;
  _rightMotor : Motor.t;
  _smoothEnabled : bool;
  _lastAccelUpdateTime : Z;
  _currentAccelStep : Z;
  _totalAccelSteps : Z;
  _isAccelerating : bool;
  _leftTargetDirection : MotorDirection;
  _rightTargetDirection : MotorDirection;
  _leftTargetPower : Z;
  _rightTargetPower : Z
}.

(** The [static] locals of [updateTelemetry]. *)
Record Statics : Type := mkStatics {
  lastLeftPower : Z;
  lastRightPower : Z;
  lastLeftDir : MotorDirection;
  lastRightDir : MotorDirection;
  lastLeftCal : F32.float;
  lastRightCal : F32.float;
  lastAccel : bool;
  lastSmooth : bool
}.

(** Everything a member function of [MotionMotors] can read or write: the
    object, the static locals of [updateTelemetry], and the static members
    of [Telemetry]. *)
Record State : Type := mkState {
  self : t;
  statics : Statics;
  telemetry : Telemetry.t
}.

Definition set_leftMotor (v : Motor.t) (s : t) : t :=
  mk v (_rightMotor s) (_smoothEnabled s) (_lastAccelUpdateTime s)
     (_currentAccelStep s) (_totalAccelSteps s) (_isAccelerating s)
     (_leftTargetDirection s) (_rightTargetDirection s)
     (_leftTargetPower s) (_rightTargetPower s).

Definition set_rightMotor (v : Motor.t) (s : t) : t :=
  mk (_leftMotor s) v (_smoothEnabled s) (_lastAccelUpdateTime s)
     (_currentAccelStep s) (_totalAccelSteps s) (_isAccelerating s)
     (_leftTargetDirection s) (_rightTargetDirection s)
     (_leftTargetPower s) (_rightTargetPower s).

Definition set_smoothEnabled (v : bool) (s : t) : t :=
  mk (_leftMotor s) (_rightMotor s) v (_lastAccelUpdateTime s)
     (_currentAccelStep s) (_totalAccelSteps s) (_isAccelerating s)
     (_leftTargetDirection s) (_rightTargetDirection s)
     (_leftTargetPower s) (_rightTargetPower s).

Definition set_lastAccelUpdateTime (v : Z) (s : t) : t :=
  mk (_leftMotor s) (_rightMotor s) (_smoothEnabled s) v
     (_currentAccelStep s) (_totalAccelSteps s) (_isAccelerating s)
     (_leftTargetDirection s) (_rightTargetDirection s)
     (_leftTargetPower s) (_rightTargetPower s).

Definition set_currentAccelStep (v : Z) (s : t) : t :=
  mk (_leftMotor s) (_rightMotor s) (_smoothEnabled s) (_lastAccelUpdateTime s)
     v (_totalAccelSteps s) (_isAccelerating s)
     (_leftTargetDirection s) (_rightTargetDirection s)
     (_leftTargetPower s) (_rightTargetPower s).

Definition set_totalAccelSteps (v : Z) (s : t) : t :=
  mk (_leftMotor s) (_rightMotor s) (_smoothEnabled s) (_lastAccelUpdateTime s)
     (_currentAccelStep s) v (_isAccelerating s)
     (_leftTargetDirection s) (_rightTargetDirection s)
     (_leftTargetPower s) (_rightTargetPower s).

Definition set_isAccelerating (v : bool) (s : t) : t :=
  mk (_leftMotor s) (_rightMotor s) (_smoothEnabled s) (_lastAccelUpdateTime s)
     (_currentAccelStep s) (_totalAccelSteps s) v
     (_leftTargetDirection s) (_rightTargetDirection s)
     (_leftTargetPower s) (_rightTargetPower s).

(** The four assignments to the target fields that open every ramp. *)
Definition set_targets (leftDir : MotorDirection) (leftPower : Z)
  (rightDir : MotorDirection) (rightPower : Z) (s : t) : t :=
  mk (_leftMotor s) (_rightMotor s) (_smoothEnabled s) (_lastAccelUpdateTime s)
     (_currentAccelStep s) (_totalAccelSteps s) (_isAccelerating s)
     leftDir rightDir leftPower rightPower.

Definition motor (ch : Channel) (s : t) : Motor.t :=
  match ch with Left => _leftMotor s | Right => _rightMotor s end.

Definition set_motor (ch : Channel) (v : Motor.t) (s : t) : t :=
  match ch with Left => set_leftMotor v s | Right => set_rightMotor v s end.

Definition with_self (s : t) (st : State) : State :=
  mkState s (statics st) (telemetry st).

Definition new (leftA leftB rightA rightB : Z)
  (leftCalibration rightCalibration : F32.float) : t :=
  {| _leftMotor := Motor.new leftA leftB leftCalibration;
     _rightMotor := Motor.new rightA rightB rightCalibration;
     _smoothEnabled := DEFAULT_SMOOTH_ENABLED;
     _lastAccelUpdateTime := 0;
     _currentAccelStep := 0;
     _totalAccelSteps := 0;
     _isAccelerating := false;
     _leftTargetDirection := MOTOR_STOPPED;
     _rightTargetDirection := MOTOR_STOPPED;
     _leftTargetPower := 0;
     _rightTargetPower := 0 |}.

(** The initial values of the static locals of [updateTelemetry]. *)
Definition initialStatics : Statics :=
  mkStatics 0 0 MOTOR_STOPPED MOTOR_STOPPED F32.zero F32.zero false true.

(** The program state right after the constructor has run. *)
Definition initial (leftA leftB rightA rightB : Z)
  (leftCalibration rightCalibration : F32.float) : State :=
  mkState (new leftA leftB rightA rightB leftCalibration rightCalibration)
          initialStatics Telemetry.initial.

Definition updateTelemetry (now : Z) (st : State) : State :=
  let s := self st in
  let last := statics st in
  let leftPower := Motor.getPower (_leftMotor s) in
  let rightPower := Motor.getPower (_rightMotor s) in
  let leftDir := Motor.getDirection (_leftMotor s) in
  let rightDir := Motor.getDirection (_rightMotor s) in
  let leftCal := Motor.getCalibration (_leftMotor s) in
  let rightCal := Motor.getCalibration (_rightMotor s) in
  if negb (leftPower =? lastLeftPower last)
     || negb (rightPower =? lastRightPower last)
     || negb (MotorDirection_eqb leftDir (lastLeftDir last))
     || negb (MotorDirection_eqb rightDir (lastRightDir last))
     || F32.neqb leftCal (lastLeftCal last)
     || F32.neqb rightCal (lastRightCal last)
     || negb (Bool.eqb (_isAccelerating s) (lastAccel last))
     || negb (Bool.eqb (_smoothEnabled s) (lastSmooth last))
  then
    let leftForward := MotorDirection_eqb leftDir MOTOR_FORWARD in
    let rightForward := MotorDirection_eqb rightDir MOTOR_FORWARD in
    {| self := s;
       statics := mkStatics leftPower rightPower leftDir rightDir
                            leftCal rightCal
                            (_isAccelerating s) (_smoothEnabled s);
       telemetry := Telemetry.update now leftPower rightPower
                                     leftForward rightForward
                                     leftCal rightCal
                                     (_isAccelerating s) (_smoothEnabled s)
                                     (telemetry st) |}
  else st.

(** [float progress = (float)_currentAccelStep / _totalAccelSteps;] *)
Definition progressOf (currentAccelStep totalAccelSteps : Z) : F32.float :=
  F32.div (F32.of_Z currentAccelStep) (F32.of_Z totalAccelSteps).

(** [uint8_t power = targetPower * progress;] *)
Definition rampPower (targetPower : Z) (progress : F32.float) : Z :=
  F32.to_u8 (F32.mul (F32.of_Z targetPower) progress).

(** [if (dir == MOTOR_FORWARD) motor.forward(power); else motor.backward(power);]
    as [updateAcceleration] drives a channel whose target is not stopped. *)
Definition driveTarget (dir : MotorDirection) (power : Z) (m : Motor.t) : Motor.t :=
  if MotorDirection_eqb dir MOTOR_FORWARD
  then Motor.forward power m
  else Motor.backward power m.

Definition updateAcceleration (now : Z) (st : State) : State :=
  let s := self st in
  if negb (_isAccelerating s) || negb (_smoothEnabled s) then st
  else
    let currentTime := now in
    if ulong_sub currentTime (_lastAccelUpdateTime s) <? SMOOTH_ACCEL_DELAY
    then st
    else
      let s := set_lastAccelUpdateTime currentTime s in
      let s := set_currentAccelStep (u8 (_currentAccelStep s + 1)) s in
      if _totalAccelSteps s <=? _currentAccelStep s then
        (* We've reached the target *)
        let s :=
          if negb (MotorDirection_eqb (_leftTargetDirection s) MOTOR_STOPPED)
          then set_leftMotor
                 (driveTarget (_leftTargetDirection s) (_leftTargetPower s)
                              (_leftMotor s)) s
          else s in
        let s :=
          if negb (MotorDirection_eqb (_rightTargetDirection s) MOTOR_STOPPED)
          then set_rightMotor
                 (driveTarget (_rightTargetDirection s) (_rightTargetPower s)
                              (_rightMotor s)) s
          else s in
        let s := set_isAccelerating false s in
        updateTelemetry now (with_self s st)
      else
        (* Calculate intermediate power *)
        let progress := progressOf (_currentAccelStep s) (_totalAccelSteps s) in
        let s :=
          if negb (MotorDirection_eqb (_leftTargetDirection s) MOTOR_STOPPED)
          then
            let power := rampPower (_leftTargetPower s) progress in
            set_leftMotor
              (driveTarget (_leftTargetDirection s) power (_leftMotor s)) s
          else s in
        let s :=
          if negb (MotorDirection_eqb (_rightTargetDirection s) MOTOR_STOPPED)
          then
            let power := rampPower (_rightTargetPower s) progress in
            set_rightMotor
              (driveTarget (_rightTargetDirection s) power (_rightMotor s)) s
          else s in
        if _currentAccelStep s mod 3 =? 0
        then updateTelemetry now (with_self s st)
        else with_self s st.

Definition startAcceleration (now : Z)
  (leftDir : MotorDirection) (leftPower : Z)
  (rightDir : MotorDirection) (rightPower : Z) (steps : Z)
  (st : State) : State :=
  let s := self st in
  let s := set_targets leftDir leftPower rightDir rightPower s in
  let s := set_currentAccelStep 0 s in
  let s := set_totalAccelSteps steps s in
  let s := set_lastAccelUpdateTime now s in
  let s := set_isAccelerating true s in
  updateTelemetry now (with_self s st).

(** The assignments that close [smoothAccelerate], [smoothDecelerate] and
    [smoothTransition]:
    [_currentAccelStep = 0; _totalAccelSteps = params.steps;
     _lastAccelUpdateTime = millis(); _isAccelerating = true;]. *)
Definition openCycle (now : Z) (params : AccelParams) (s : t) : t :=
  let s := set_currentAccelStep 0 s in
  let s := set_totalAccelSteps (steps params) s in
  let s := set_lastAccelUpdateTime now s in
  set_isAccelerating true s.

Definition smoothAccelerate (now : Z) (ch : Channel)
  (direction : MotorDirection) (targetPower : Z) (params : AccelParams)
  (st : State) : State :=
  let s := self st in
  if negb (_smoothEnabled s) then
    (* Apply immediately if smooth acceleration is disabled *)
    let m := motor ch s in
    let m :=
      if MotorDirection_eqb direction MOTOR_FORWARD then Motor.forward targetPower m
      else if MotorDirection_eqb direction MOTOR_BACKWARD then Motor.backward targetPower m
      else m in
    updateTelemetry now (with_self (set_motor ch m s) st)
  else
    (* Set up acceleration for this motor *)
    let s :=
      match ch with
      | Left => set_targets direction targetPower MOTOR_STOPPED 0 s
      | Right => set_targets MOTOR_STOPPED 0 direction targetPower s
      end in
    updateTelemetry now (with_self (openCycle now params s) st).

Definition smoothDecelerate (now : Z) (ch : Channel)
  (direction : MotorDirection) (targetPower : Z) (params : AccelParams)
  (st : State) : State :=
  let s := self st in
  if negb (_smoothEnabled s) then
    (* Apply immediately if smooth deceleration is disabled *)
    let m := motor ch s in
    let m :=
      if targetPower =? 0 then Motor.stop m
      else if MotorDirection_eqb direction MOTOR_FORWARD then Motor.forward targetPower m
      else if MotorDirection_eqb direction MOTOR_BACKWARD then Motor.backward targetPower m
      else m in
    updateTelemetry now (with_self (set_motor ch m s) st)
  else
    (* Set up deceleration for this motor *)
    let dir := if targetPower =? 0 then MOTOR_STOPPED else direction in
    let s :=
      match ch with
      | Left => set_targets dir targetPower MOTOR_STOPPED 0 s
      | Right => set_targets MOTOR_STOPPED 0 dir targetPower s
      end in
    updateTelemetry now (with_self (openCycle now params s) st).

Definition smoothTransition (now : Z) (ch : Channel)
  (newDirection : MotorDirection) (targetPower : Z) (params : AccelParams)
  (st : State) : State :=
  let s := self st in
  if negb (_smoothEnabled s) then
    (* Apply immediately if smooth transition is disabled *)
    let m := motor ch s in
    let m :=
      if MotorDirection_eqb newDirection MOTOR_FORWARD then Motor.forward targetPower m
      else if MotorDirection_eqb newDirection MOTOR_BACKWARD then Motor.backward targetPower m
      else Motor.stop m in
    updateTelemetry now (with_self (set_motor ch m s) st)
  else
    (* If changing direction, stop first *)
    let s :=
      if negb (MotorDirection_eqb (Motor.getDirection (motor ch s)) MOTOR_STOPPED)
         && negb (MotorDirection_eqb (Motor.getDirection (motor ch s)) newDirection)
      then
        let s := set_motor ch (Motor.stop (motor ch s)) s in
        let s := set_currentAccelStep 0 s in
        set_totalAccelSteps (u8 (_totalAccelSteps s + 2)) s
      else s in
    (* Set up transition for this motor *)
    let s :=
      match ch with
      | Left => set_targets newDirection targetPower MOTOR_STOPPED 0 s
      | Right => set_targets MOTOR_STOPPED 0 newDirection targetPower s
      end in
    updateTelemetry now (with_self (openCycle now params s) st).

Definition leftForward (now : Z) (power : Z) (smooth : bool) (st : State) : State :=
  let s := self st in
  let st :=
    if smooth && _smoothEnabled s then
      if MotorDirection_eqb (Motor.getDirection (_leftMotor s)) MOTOR_FORWARD then
        (* Already moving in this direction, adjust speed *)
        if Motor.getPower (_leftMotor s) <? power
        then smoothAccelerate now Left MOTOR_FORWARD power defaultParams st
        else if power <? Motor.getPower (_leftMotor s)
        then smoothDecelerate now Left MOTOR_FORWARD power defaultParams st
        else st
      else
        (* Changing direction or starting from stop *)
        smoothTransition now Left MOTOR_FORWARD power defaultParams st
    else
      (* Immediate change *)
      with_self (set_leftMotor (Motor.forward power (_leftMotor s)) s) st in
  updateTelemetry now st.

Definition leftBackward (now : Z) (power : Z) (smooth : bool) (st : State) : State :=
  let s := self st in
  let st :=
    if smooth && _smoothEnabled s then
      if MotorDirection_eqb (Motor.getDirection (_leftMotor s)) MOTOR_BACKWARD then
        if Motor.getPower (_leftMotor s) <? power
        then smoothAccelerate now Left MOTOR_BACKWARD power defaultParams st
        else if power <? Motor.getPower (_leftMotor s)
        then smoothDecelerate now Left MOTOR_BACKWARD power defaultParams st
        else st
      else
        smoothTransition now Left MOTOR_BACKWARD power defaultParams st
    else
      with_self (set_leftMotor (Motor.backward power (_leftMotor s)) s) st in
  updateTelemetry now st.

Definition rightForward (now : Z) (power : Z) (smooth : bool) (st : State) : State :=
  let s := self st in
  let st :=
    if smooth && _smoothEnabled s then
      if MotorDirection_eqb (Motor.getDirection (_rightMotor s)) MOTOR_FORWARD then
        if Motor.getPower (_rightMotor s) <? power
        then smoothAccelerate now Right MOTOR_FORWARD power defaultParams st
        else if power <? Motor.getPower (_rightMotor s)
        then smoothDecelerate now Right MOTOR_FORWARD power defaultParams st
        else st
      else
        smoothTransition now Right MOTOR_FORWARD power defaultParams st
    else
      with_self (set_rightMotor (Motor.forward power (_rightMotor s)) s) st in
  updateTelemetry now st.

Definition rightBackward (now : Z) (power : Z) (smooth : bool) (st : State) : State :=
  let s := self st in
  let st :=
    if smooth && _smoothEnabled s then
      if MotorDirection_eqb (Motor.getDirection (_rightMotor s)) MOTOR_BACKWARD then
        if Motor.getPower (_rightMotor s) <? power
        then smoothAccelerate now Right MOTOR_BACKWARD power defaultParams st
        else if power <? Motor.getPower (_rightMotor s)
        then smoothDecelerate now Right MOTOR_BACKWARD power defaultParams st
        else st
      else
        smoothTransition now Right MOTOR_BACKWARD power defaultParams st
    else
      with_self (set_rightMotor (Motor.backward power (_rightMotor s)) s) st in
  updateTelemetry now st.

Definition leftStop (now : Z) (st : State) : State :=
  let s := self st in
  let st :=
    if _smoothEnabled s && (0 <? Motor.getPower (_leftMotor s)) then
      (* Gradually slow down *)
      smoothDecelerate now Left (Motor.getDirection (_leftMotor s)) 0
                       defaultParams st
    else
      (* Immediate stop *)
      with_self (set_leftMotor (Motor.stop (_leftMotor s)) s) st in
  updateTelemetry now st.

Definition rightStop (now : Z) (st : State) : State :=
  let s := self st in
  let st :=
    if _smoothEnabled s && (0 <? Motor.getPower (_rightMotor s)) then
      smoothDecelerate now Right (Motor.getDirection (_rightMotor s)) 0
                       defaultParams st
    else
      with_self (set_rightMotor (Motor.stop (_rightMotor s)) s) st in
  updateTelemetry now st.

Definition stop (now : Z) (st : State) : State :=
  let st := leftStop now st in
  let st := rightStop now st in
  let st := with_self (set_isAccelerating false (self st)) st in
  updateTelemetry now st.

Definition setSmoothEnabled (now : Z) (enable : bool) (st : State) : State :=
  updateTelemetry now (with_self (set_smoothEnabled enable (self st)) st).

Definition isSmoothEnabled (st : State) : bool := _smoothEnabled (self st).

Definition setLeftCalibration (now : Z) (calibration : F32.float) (st : State) : State :=
  let s := self st in
  updateTelemetry now
    (with_self (set_leftMotor (Motor.setCalibration calibration (_leftMotor s)) s) st).

Definition setRightCalibration (now : Z) (calibration : F32.float) (st : State) : State :=
  let s := self st in
  updateTelemetry now
    (with_self (set_rightMotor (Motor.setCalibration calibration (_rightMotor s)) s) st).

Definition getLeftCalibration (st : State) : F32.float :=
  Motor.getCalibration (_leftMotor (self st)).

Definition getRightCalibration (st : State) : F32.float :=
  Motor.getCalibration (_rightMotor (self st)).

Definition begin (now : Z) (st : State) : State :=
  let s := self st in
  let s := set_leftMotor (Motor.begin (_leftMotor s)) s in
  let s := set_rightMotor (Motor.begin (_rightMotor s)) s in
  updateTelemetry now
    (mkState s (statics st) (Telemetry.begin now 1000 (telemetry st))).

End MotionMotors.

(** ** Call sequences

    The surrounding loop drives the engine through its public member
    functions; a script lists the calls together with the clock value each
    of them observes. *)

Inductive Call : Type :=
| Begin
| LeftForward (power : Z) (smooth : bool)
| LeftBackward (power : Z) (smooth : bool)
| RightForward (power : Z) (smooth : bool)
| RightBackward (power : Z) (smooth : bool)
| LeftStop
| RightStop
| Stop
| SetSmoothEnabled (enable : bool)
| SetLeftCalibration (calibration : F32.float)
| SetRightCalibration (calibration : F32.float)
| UpdateAcceleration.

Definition call (now : Z) (c : Call) (st : MotionMotors.State) : MotionMotors.State :=
  match c with
  | Begin => MotionMotors.begin now st
  | LeftForward power smooth => MotionMotors.leftForward now power smooth st
  | LeftBackward power smooth => MotionMotors.leftBackward now power smooth st
  | RightForward power smooth => MotionMotors.rightForward now power smooth st
  | RightBackward power smooth => MotionMotors.rightBackward now power smooth st
  | LeftStop => MotionMotors.leftStop now st
  | RightStop => MotionMotors.rightStop now st
  | Stop => MotionMotors.stop now st
  | SetSmoothEnabled enable => MotionMotors.setSmoothEnabled now enable st
  | SetLeftCalibration c => MotionMotors.setLeftCalibration now c st
  | SetRightCalibration c => MotionMotors.setRightCalibration now c st
  | UpdateAcceleration => MotionMotors.updateAcceleration now st
  end.

Fixpoint run (script : list (Z * Call)) (st : MotionMotors.State) : MotionMotors.State :=
  match script with
  | [] => st
  | (now, c) :: rest => run rest (call now c st)
  end.

(** Successive polls of [updateAcceleration] at the given clock values. *)
Definition polls (times : list Z) : list (Z * Call) :=
  map (fun now => (now, UpdateAcceleration)) times.

(** ** Vocabulary of the properties *)

(** *** Calibration *)

(** A calibration the data model allows: a binary32 number in [0, 1]. *)
Definition in_unit_interval (c : F32.float) : bool :=
  F32.valid c && F32.leb F32.zero c && F32.leb c F32.one.

(** The floor of the exact (real) product of the integer [p] and the number
    the float [c] denotes. *)
Definition floor_mul (p : Z) (c : F32.float) : Z :=
  match c with
  | S754_finite s m e =>
      let n := p * (if s then Zneg m else Zpos m) in
      if 0 <=? e then n * 2 ^ e else n / 2 ^ (- e)
  | _ => 0
  end.

(** The calibration [7.0f / 11.0f], and the calibration [0.5f]. *)
Definition seven_elevenths : F32.float := F32.div (F32.of_Z 7) (F32.of_Z 11).
Definition one_half : F32.float := F32.div F32.one (F32.of_Z 2).

(** All values of [uint8_t]. *)
Definition u8_values : list Z := map Z.of_nat (seq 0 256).

(** What [F32.of_Z] returns on an 8-bit value: [+0] for 0, otherwise the
    positive float whose mantissa is [p] shifted left by [- ep] bits. *)
Definition of_Z_normal (p : Z) : bool :=
  match F32.of_Z p with
  | S754_finite false mp ep =>
      (-23 <=? ep) && (ep <=? 0) && (Zpos mp =? p * 2 ^ (- ep))
  | S754_zero false => p =? 0
  | _ => false
  end.

(** Nothing but zeros has been shifted out of a rounding record. *)
Definition clean (mrs : shr_record) : Prop :=
  shr_r mrs = false /\ shr_s mrs = false.

(** *** Actuation histories (newest entry first) *)

Definition is_stop (a : Actuation) : bool :=
  (a_forward a =? 0) && (a_backward a =? 0).

Definition drives_forward (a : Actuation) : bool := negb (a_forward a =? 0).
Definition drives_backward (a : Actuation) : bool := negb (a_backward a =? 0).


(** Looking back from the newest entry, a stop (or the beginning of the
    history) comes before any actuation that drives forward. *)
Fixpoint stopped_since_forward (h : list Actuation) : bool :=
  match h with
  | [] => true
  | a :: older =>
      if is_stop a then true
      else if drives_forward a then false
      else stopped_since_forward older
  end.

(** Every actuation that drives backward is separated by a stop from the
    last actuation before it that drove forward. *)
Fixpoint reversal_safe (h : list Actuation) : bool :=
  match h with
  | [] => true
  | a :: older =>
      (if drives_backward a then stopped_since_forward older else true)
      && reversal_safe older
  end.

(** The history of a motor is reversal-safe, and when the motor is not
    moving forward a stop has been actuated since it last drove forward. *)
Definition motor_ok (m : Motor.t) : Prop :=
  reversal_safe (Motor.sink m) = true
  /\ (Motor._direction m <> MOTOR_FORWARD ->
      stopped_since_forward (Motor.sink m) = true).

(** A property of motors holds of both motors. *)
Definition both (P : Motor.t -> Prop) (s : MotionMotors.t) : Prop :=
  P (MotionMotors._leftMotor s) /\ P (MotionMotors._rightMotor s).

(** A call that takes the smooth path: a drive call with [smooth = true],
    and no call that switches smoothing off. *)
Definition smooth_call (c : Call) : bool :=
  match c with
  | LeftForward _ smooth | LeftBackward _ smooth
  | RightForward _ smooth | RightBackward _ smooth => smooth
  | SetSmoothEnabled enable => enable
  | _ => true
  end.

Definition smooth_script (script : list (Z * Call)) : bool :=
  forallb (fun nc => smooth_call (snd nc)) script.

(** *** Ramp cycles *)

Definition other (ch : MotionMotors.Channel) : MotionMotors.Channel :=
  match ch with
  | MotionMotors.Left => MotionMotors.Right
  | MotionMotors.Right => MotionMotors.Left
  end.

(** The ramp target of a channel. *)
Definition targetDirection (ch : MotionMotors.Channel) (s : MotionMotors.t)
  : MotorDirection :=
  match ch with
  | MotionMotors.Left => MotionMotors._leftTargetDirection s
  | MotionMotors.Right => MotionMotors._rightTargetDirection s
  end.

Definition targetPower (ch : MotionMotors.Channel) (s : MotionMotors.t) : Z :=
  match ch with
  | MotionMotors.Left => MotionMotors._leftTargetPower s
  | MotionMotors.Right => MotionMotors._rightTargetPower s
  end.

(** The power [updateAcceleration] commands at step [step] of a cycle of
    [total] steps toward [target]: the target itself once the step count is
    reached, the interpolated power before. *)
Definition stepPower (total step target : Z) : Z :=
  if total <=? step then target
  else MotionMotors.rampPower target (MotionMotors.progressOf step total).

(** The motor of a channel after a step that commands [power], given the
    channel's target direction. *)
Definition stepMotor (dir : MotorDirection) (power : Z) (m : Motor.t) : Motor.t :=
  if MotorDirection_eqb dir MOTOR_STOPPED then m
  else MotionMotors.driveTarget dir power m.

(** [updateAcceleration] performs a step at clock value [now]. *)
Definition step_due (now : Z) (s : MotionMotors.t) : bool :=
  MotionMotors._isAccelerating s && MotionMotors._smoothEnabled s
  && (MotionMotors.SMOOTH_ACCEL_DELAY
        <=? ulong_sub now (MotionMotors._lastAccelUpdateTime s)).

(** The powers commanded by the next [n] steps of a cycle of [total] steps
    toward [target] in which [k] steps are done. *)
Fixpoint schedule_from (total k : Z) (n : nat) (target : Z) : list Z :=
  match n with
  | O => []
  | S n' => stepPower total (k + 1) target :: schedule_from total (k + 1) n' target
  end.

(** The commanded powers of a complete cycle of [SMOOTH_ACCEL_STEPS] steps
    toward [target]: nine interpolated powers and the target itself. *)
Definition ramp_schedule (target : Z) : list Z :=
  schedule_from MotionMotors.SMOOTH_ACCEL_STEPS 0 10 target.

(** A cycle of [SMOOTH_ACCEL_STEPS] steps is in progress, [k] steps done,
    with channel [ch] ramping toward ([dir], [target]). *)
Definition in_cycle (ch : MotionMotors.Channel) (dir : MotorDirection)
  (target k : Z) (s : MotionMotors.t) : Prop :=
  MotionMotors._isAccelerating s = true
  /\ MotionMotors._smoothEnabled s = true
  /\ MotionMotors._totalAccelSteps s = MotionMotors.SMOOTH_ACCEL_STEPS
  /\ MotionMotors._currentAccelStep s = k
  /\ targetDirection ch s = dir
  /\ targetPower ch s = target.

(** Every power of the list is at most [bound]. *)
Definition all_le (bound : Z) (l : list Z) : bool :=
  forallb (fun p => p <=? bound) l.

Fixpoint non_decreasing (l : list Z) : bool :=
  match l with
  | a :: (b :: _) as rest => (a <=? b) && non_decreasing rest
  | _ => true
  end.

Fixpoint non_increasing (l : list Z) : bool :=
  match l with
  | a :: (b :: _) as rest => (b <=? a) && non_increasing rest
  | _ => true
  end.

(** The commanded powers of the actuations that took motor [m] to [m'],
    oldest first. *)
Definition new_powers (m m' : Motor.t) : list Z :=
  map a_power
      (rev (firstn (List.length (Motor.sink m') - List.length (Motor.sink m))
                   (Motor.sink m'))).

(** The commanded powers that successive polls of [updateAcceleration], at
    the clock values [times], actuate on channel [ch]. *)
Fixpoint polled_powers (ch : MotionMotors.Channel) (times : list Z)
  (st : MotionMotors.State) : list Z :=
  match times with
  | [] => []
  | now :: rest =>
      let st' := MotionMotors.updateAcceleration now st in
      new_powers (MotionMotors.motor ch (MotionMotors.self st))
                 (MotionMotors.motor ch (MotionMotors.self st'))
      ++ polled_powers ch rest st'
  end.

(** Each clock value is at least [SMOOTH_ACCEL_DELAY] ms after the one
    before it (the first one after [last]), on the wrapping clock. *)
Fixpoint spaced (last : Z) (times : list Z) : bool :=
  match times with
  | [] => true
  | now :: rest =>
      (MotionMotors.SMOOTH_ACCEL_DELAY <=? ulong_sub now last) && spaced now rest
  end.

(** What smooth-only scripts maintain: smoothing is on, a channel whose
    ramp target is backward is not moving forward, and both histories are
    as [motor_ok] says. *)
Definition smooth_invariant (s : MotionMotors.t) : Prop :=
  MotionMotors._smoothEnabled s = true
  /\ forall ch : MotionMotors.Channel,
       (targetDirection ch s = MOTOR_BACKWARD ->
        Motor._direction (MotionMotors.motor ch s) <> MOTOR_FORWARD)
       /\ motor_ok (MotionMotors.motor ch s).

(** The program state right after the constructor has run with pins 25, 26
    (left) and 32, 33 (right) and both calibrations 1.0. *)
Definition example_state : MotionMotors.State :=
  MotionMotors.initial 25 26 32 33 F32.one F32.one.

(** [example_state] after [begin()] and an immediate [leftForward(200)]: the
    left motor runs forward at power 200. *)
Definition running_200 : MotionMotors.State :=
  run [ (0, Begin); (0, LeftForward 200 false) ] example_state.

(** Ten polls, 20 ms apart, the first one 20 ms after time 5. *)
Definition ten_polls : list Z := [25; 45; 65; 85; 105; 125; 145; 165; 185; 205].



(** The pairs of magnitudes a motor has written, oldest first. *)
Definition magnitudes (m : Motor.t) : list (Z * Z) :=
  map (fun a => (a_forward a, a_backward a)) (rev (Motor.sink m)).

(** [example_state] after [begin()], a smooth [leftForward(200)] at time 0
    and three polls 20 ms apart: the left motor runs forward at power 60 in
    a ramp toward 200. *)
Definition ramping_left : MotionMotors.State :=
  run [ (0, Begin); (0, LeftForward 200 true);
        (20, UpdateAcceleration); (40, UpdateAcceleration);
        (60, UpdateAcceleration) ]
      example_state.

(** ** TankMotors.h / TankMotors.cpp

    The class [MotionMotors] replaces: two motors driven directly, with no
    ramp.  Each side carries the history of its [applyLeftPower] /
    [applyRightPower] calls, as [Motor] does. *)

Module TankMotors.

(** [DEFAULT_LEFT_CALIBRATION] and [DEFAULT_RIGHT_CALIBRATION], both [1.0]. *)
Definition DEFAULT_LEFT_CALIBRATION : F32.float := F32.one.
Definition DEFAULT_RIGHT_CALIBRATION : F32.float := F32.one.

Record t : Type := mk {
  _leftForwardPin : Z;
  _leftBackwardPin : Z;
  _rightForwardPin : Z;
  _rightBackwardPin : Z;
  _leftDirection : MotorDirection;
  _rightDirection : MotorDirection;
  _leftPower : Z;
  _rightPower : Z;
  _leftCalibration : F32.float;
  _rightCalibration : F32.float;
  (** histories of [applyLeftPower] and [applyRightPower], newest first *)
  leftSink : list Actuation;
  rightSink : list Actuation
}.

Definition new (leftForwardPin leftBackwardPin rightForwardPin rightBackwardPin : Z) : t :=
  {| _leftForwardPin := leftForwardPin;
     _leftBackwardPin := leftBackwardPin;
     _rightForwardPin := rightForwardPin;
     _rightBackwardPin := rightBackwardPin;
     _leftDirection := MOTOR_STOPPED;
     _rightDirection := MOTOR_STOPPED;
     _leftPower := 0;
     _rightPower := 0;
     _leftCalibration := DEFAULT_LEFT_CALIBRATION;
     _rightCalibration := DEFAULT_RIGHT_CALIBRATION;
     leftSink := [];
     rightSink := [] |}.

(** [_leftDirection = direction; _leftPower = power;] *)
Definition setLeft (direction : MotorDirection) (power : Z) (s : t) : t :=
  mk (_leftForwardPin s) (_leftBackwardPin s) (_rightForwardPin s) (_rightBackwardPin s)
     direction (_rightDirection s) power (_rightPower s)
     (_leftCalibration s) (_rightCalibration s) (leftSink s) (rightSink s).

(** [_rightDirection = direction; _rightPower = power;] *)
Definition setRight (direction : MotorDirection) (power : Z) (s : t) : t :=
  mk (_leftForwardPin s) (_leftBackwardPin s) (_rightForwardPin s) (_rightBackwardPin s)
     (_leftDirection s) direction (_leftPower s) power
     (_leftCalibration s) (_rightCalibration s) (leftSink s) (rightSink s).

Definition applyLeftPower (forwardPower backwardPower : Z) (s : t) : t :=
  mk (_leftForwardPin s) (_leftBackwardPin s) (_rightForwardPin s) (_rightBackwardPin s)
     (_leftDirection s) (_rightDirection s) (_leftPower s) (_rightPower s)
     (_leftCalibration s) (_rightCalibration s)
     (mkActuation (_leftPower s) forwardPower backwardPower :: leftSink s)
     (rightSink s).

Definition applyRightPower (forwardPower backwardPower : Z) (s : t) : t :=
  mk (_leftForwardPin s) (_leftBackwardPin s) (_rightForwardPin s) (_rightBackwardPin s)
     (_leftDirection s) (_rightDirection s) (_leftPower s) (_rightPower s)
     (_leftCalibration s) (_rightCalibration s)
     (leftSink s)
     (mkActuation (_rightPower s) forwardPower backwardPower :: rightSink s).

Definition leftForward (power : Z) (s : t) : t :=
  let s := setLeft MOTOR_FORWARD power s in
  let calibratedPower := F32.to_u8 (F32.mul (F32.of_Z power) (_leftCalibration s)) in
  applyLeftPower calibratedPower 0 s.

Definition leftBackward (power : Z) (s : t) : t :=
  let s := setLeft MOTOR_BACKWARD power s in
  let calibratedPower := F32.to_u8 (F32.mul (F32.of_Z power) (_leftCalibration s)) in
  applyLeftPower 0 calibratedPower s.

Definition rightForward (power : Z) (s : t) : t :=
  let s := setRight MOTOR_FORWARD power s in
  let calibratedPower := F32.to_u8 (F32.mul (F32.of_Z power) (_rightCalibration s)) in
  applyRightPower calibratedPower 0 s.

Definition rightBackward (power : Z) (s : t) : t :=
  let s := setRight MOTOR_BACKWARD power s in
  let calibratedPower := F32.to_u8 (F32.mul (F32.of_Z power) (_rightCalibration s)) in
  applyRightPower 0 calibratedPower s.

Definition leftStop (s : t) : t :=
  applyLeftPower 0 0 (setLeft MOTOR_STOPPED 0 s).

Definition rightStop (s : t) : t :=
  applyRightPower 0 0 (setRight MOTOR_STOPPED 0 s).

Definition stop (s : t) : t := rightStop (leftStop s).

(** [begin] configures the four pins as outputs and stops all motors. *)
Definition begin (s : t) : t := stop s.

Definition setLeftCalibration (calibration : F32.float) (s : t) : t :=
  mk (_leftForwardPin s) (_leftBackwardPin s) (_rightForwardPin s) (_rightBackwardPin s)
     (_leftDirection s) (_rightDirection s) (_leftPower s) (_rightPower s)
     (F32.constrain calibration F32.zero F32.one) (_rightCalibration s)
     (leftSink s) (rightSink s).

Definition setRightCalibration (calibration : F32.float) (s : t) : t :=
  mk (_leftForwardPin s) (_leftBackwardPin s) (_rightForwardPin s) (_rightBackwardPin s)
     (_leftDirection s) (_rightDirection s) (_leftPower s) (_rightPower s)
     (_leftCalibration s) (F32.constrain calibration F32.zero F32.one)
     (leftSink s) (rightSink s).

Definition getLeftCalibration (s : t) : F32.float := _leftCalibration s.
Definition getRightCalibration (s : t) : F32.float := _rightCalibration s.
Definition getLeftDirection (s : t) : MotorDirection := _leftDirection s.
Definition getRightDirection (s : t) : MotorDirection := _rightDirection s.
Definition getLeftPower (s : t) : Z := _leftPower s.
Definition getRightPower (s : t) : Z := _rightPower s.

End TankMotors.

(** ** Logger.h / Logger.cpp

    The static members of [Logger] and the decision each printing function
    takes; the text of a line is left to the serial port. *)

Module Logger.

Definition DEBUG_NONE : Z := 0.
Definition DEBUG_BASIC : Z := 1.
Definition DEBUG_DETAILED : Z := 2.
Definition DEBUG_VERBOSE : Z := 3.

Record t : Type := mk {
  _level : Z;
  _enabled : bool
}.

(** The initial values of the static members. *)
Definition initial : t := {| _level := DEBUG_BASIC; _enabled := true |}.

(** [begin] has nothing to initialise. *)
Definition begin (s : t) : t := s.

Definition setLevel (level : Z) (s : t) : t :=
  {| _level := level; _enabled := _enabled s |}.

Definition getLevel (s : t) : Z := _level s.

Definition setEnabled (enabled : bool) (s : t) : t :=
  {| _level := if negb enabled then DEBUG_NONE else _level s;
     _enabled := enabled |}.

Definition isEnabled (s : t) : bool := _enabled s.

(** [log(level, format, ...)]: whether the line is printed. *)
Definition log (level : Z) (s : t) : bool :=
  _enabled s && (level <=? _level s).

(** What [logMotor] prints: nothing, the line, or the line with the
    calibrated power appended. *)
Inductive MotorLine : Type :=
| NoLine
| Line
| LineWithCalibrated.

Definition logMotor (s : t) : MotorLine :=
  if _enabled s && (DEBUG_BASIC <=? _level s) then
    if DEBUG_DETAILED <=? _level s then LineWithCalibrated else Line
  else NoLine.

End Logger.

(** ** ControllerHandler.h / ControllerHandler.cpp *)

(** Conversion to [int16_t]. *)
Definition s16 (z : Z) : Z := (z + 32768) mod 65536 - 32768.

Module Arduino.

(** [map(x, in_min, in_max, out_min, out_max)]:
    [(x - in_min) * (out_max - out_min) / (in_max - in_min) + out_min] on
    [long], with the division of C. *)
Definition map (x in_min in_max out_min out_max : Z) : Z :=
  Z.quot ((x - in_min) * (out_max - out_min)) (in_max - in_min) + out_min.

End Arduino.

(** The [Preferences] store, as far as the firmware uses it: the list of
    [putFloat] calls, newest first; a key reads as its newest value. *)
Module Preferences.

Definition t : Type := list (string * F32.float).

Definition putFloat (key : string) (value : F32.float) (p : t) : t :=
  (key, value) :: p.

Fixpoint getFloat (key : string) (p : t) : option F32.float :=
  match p with
  | [] => None
  | (k, v) :: older => if String.eqb k key then Some v else getFloat key older
  end.

End Preferences.

Module ControllerHandler.

Definition DEBOUNCE_DELAY : Z := 300.
Definition JOYSTICK_DEAD_ZONE : Z := 5000.

(** [CALIBRATION_STEP], the literal [0.05f]: the binary32 number nearest to
    0.05, which is 13421773 * 2^-28. *)
Definition CALIBRATION_STEP : F32.float := S754_finite false 13421773 (-28).

(** The values of [DPAD_UP] and [DPAD_DOWN] in Bluepad32. *)
Definition DPAD_UP : Z := 1.
Definition DPAD_DOWN : Z := 2.

(** [float - float] and [float + float]. *)
Definition fsub : F32.float -> F32.float -> F32.float := SFsub F32.prec F32.emax.
Definition fadd : F32.float -> F32.float -> F32.float := SFadd F32.prec F32.emax.

(** What the handler reads from the game controller. *)
Record Controller : Type := mkController {
  axisY : Z;
  axisRY : Z;
  a : bool;
  y : bool;
  dpad : Z;
  l1 : bool;
  r1 : bool;
  l2 : bool;
  r2 : bool;
  x : bool;
  b : bool
}.

(** Everything the handler can read or write: the motors [_motors] points
    to, the store [_prefs] points to, its own static member, the static
    members of [Logger] and the three global debug flags. *)
Record t : Type := mk {
  motors : MotionMotors.State;
  prefs : Preferences.t;
  _lastButtonPressTime : Z;
  logger : Logger.t;
  enableAccelerometerDebug : bool;
  enableGyroscopeDebug : bool;
  enableControllerDebug : bool
}.

(** The state after static initialisation and [begin(motors, prefs)]. *)
Definition begin (m : MotionMotors.State) (p : Preferences.t) : t :=
  {| motors := m;
     prefs := p;
     _lastButtonPressTime := 0;
     logger := Logger.initial;
     enableAccelerometerDebug := false;
     enableGyroscopeDebug := false;
     enableControllerDebug := false |}.

Definition set_motors (m : MotionMotors.State) (w : t) : t :=
  mk m (prefs w) (_lastButtonPressTime w) (logger w)
     (enableAccelerometerDebug w) (enableGyroscopeDebug w) (enableControllerDebug w).

(** [return (millis() - _lastButtonPressTime > DEBOUNCE_DELAY);] *)
Definition canProcessButton (now : Z) (w : t) : bool :=
  DEBOUNCE_DELAY <? ulong_sub now (_lastButtonPressTime w).

(** The joystick value after the dead zone has been applied. *)
Definition deadZone (joystickY : Z) : Z :=
  if Z.abs joystickY <? JOYSTICK_DEAD_ZONE then 0 else joystickY.

(** [map(abs(joystickY), 0, 32767, 0, 255)] *)
Definition motorPower (joystickY : Z) : Z :=
  Arduino.map (Z.abs joystickY) 0 32767 0 255.

Definition handleMovement (now : Z) (c : Controller) (w : t) : t :=
  let leftJoystickY := deadZone (s16 (axisY c)) in
  let rightJoystickY := deadZone (s16 (axisRY c)) in
  let leftMotorPower := motorPower leftJoystickY in
  let rightMotorPower := motorPower rightJoystickY in
  let m := motors w in
  let m :=
    if 0 <? leftJoystickY then MotionMotors.leftForward now (u8 leftMotorPower) true m
    else if leftJoystickY <? 0 then MotionMotors.leftBackward now (u8 leftMotorPower) true m
    else MotionMotors.leftStop now m in
  let m :=
    if 0 <? rightJoystickY then MotionMotors.rightForward now (u8 rightMotorPower) true m
    else if rightJoystickY <? 0 then MotionMotors.rightBackward now (u8 rightMotorPower) true m
    else MotionMotors.rightStop now m in
  set_motors m w.

(** The body of each branch of [handleCalibrationButtons] for the right
    motor: the new calibration is set, saved and the press time recorded. *)
Definition calibrateRight (now : Z) (newCalibration : F32.float) (w : t) : t :=
  mk (MotionMotors.setRightCalibration now newCalibration (motors w))
     (Preferences.putFloat "rightCal" newCalibration (prefs w))
     now (logger w)
     (enableAccelerometerDebug w) (enableGyroscopeDebug w) (enableControllerDebug w).

(** The same for the left motor. *)
Definition calibrateLeft (now : Z) (newCalibration : F32.float) (w : t) : t :=
  mk (MotionMotors.setLeftCalibration now newCalibration (motors w))
     (Preferences.putFloat "leftCal" newCalibration (prefs w))
     now (logger w)
     (enableAccelerometerDebug w) (enableGyroscopeDebug w) (enableControllerDebug w).

Definition handleCalibrationButtons (now : Z) (c : Controller) (w : t) : t :=
  if negb (canProcessButton now w) then w
  else if a c then
    calibrateRight now
      (F32.constrain (fsub (MotionMotors.getRightCalibration (motors w)) CALIBRATION_STEP)
                     F32.zero F32.one) w
  else if y c then
    calibrateRight now
      (F32.constrain (fadd (MotionMotors.getRightCalibration (motors w)) CALIBRATION_STEP)
                     F32.zero F32.one) w
  else if dpad c =? DPAD_UP then
    calibrateLeft now
      (F32.constrain (fadd (MotionMotors.getLeftCalibration (motors w)) CALIBRATION_STEP)
                     F32.zero F32.one) w
  else if dpad c =? DPAD_DOWN then
    calibrateLeft now
      (F32.constrain (fsub (MotionMotors.getLeftCalibration (motors w)) CALIBRATION_STEP)
                     F32.zero F32.one) w
  else w.

(** The lines the branches print ([Logger::log], [Serial.printf]) are
    left out. *)
Definition handleDebugButtons (now : Z) (c : Controller) (w : t) : t :=
  if negb (canProcessButton now w) then w
  else if l1 c && r1 c then
    let newLevel := u8 (Z.rem (Logger.getLevel (logger w) + 1) 4) in
    mk (motors w) (prefs w) now (Logger.setLevel newLevel (logger w))
       (enableAccelerometerDebug w) (enableGyroscopeDebug w) (enableControllerDebug w)
  else if l2 c && r2 c then
    let enabled := negb (Logger.isEnabled (logger w)) in
    mk (motors w) (prefs w) now (Logger.setEnabled enabled (logger w))
       (enableAccelerometerDebug w) (enableGyroscopeDebug w) (enableControllerDebug w)
  else if x c then
    mk (motors w) (prefs w) now (logger w)
       (enableAccelerometerDebug w) (enableGyroscopeDebug w)
       (negb (enableControllerDebug w))
  else if b c then
    mk (motors w) (prefs w) now (logger w)
       (negb (enableAccelerometerDebug w)) (negb (enableGyroscopeDebug w))
       (enableControllerDebug w)
  else w.

(** [controller] is a pointer; [None] is the null pointer. *)
Definition processController (now : Z) (controller : option Controller) (w : t) : t :=
  match controller with
  | None => w
  | Some c =>
      let w := handleMovement now c w in
      let w := handleCalibrationButtons now c w in
      handleDebugButtons now c w
  end.

End ControllerHandler.

(** ** The control loop

    The surrounding loop alternates between handing the controller to
    [ControllerHandler::processController] and polling
    [MotionMotors::updateAcceleration]; a loop script lists these events
    with the clock value each of them observes. *)

Inductive LoopEvent : Type :=
| Process (controller : option ControllerHandler.Controller)
| Poll.

Definition loop_step (now : Z) (e : LoopEvent) (w : ControllerHandler.t)
  : ControllerHandler.t :=
  match e with
  | Process controller => ControllerHandler.processController now controller w
  | Poll =>
      ControllerHandler.set_motors
        (MotionMotors.updateAcceleration now (ControllerHandler.motors w)) w
  end.

Fixpoint loop_run (script : list (Z * LoopEvent)) (w : ControllerHandler.t)
  : ControllerHandler.t :=
  match script with
  | [] => w
  | (now, e) :: rest => loop_run rest (loop_step now e w)
  end.

(** ** Vocabulary of the further properties *)

(** *** Calibration and pulse widths *)

(** A float that is not NaN. *)
Definition is_number (c : F32.float) : bool :=
  match c with
  | S754_nan => false
  | _ => true
  end.

(** A calibration argument the callers can pass: a binary32 value that is
    not NaN. *)
Definition calibration_arg (c : F32.float) : Prop :=
  F32.valid c = true /\ is_number c = true.

(** A value of [uint8_t]. *)
Definition is_u8 (p : Z) : Prop := 0 <= p <= 255.

(** An actuation whose two magnitudes lie between 0 and the commanded
    power, itself an 8-bit value. *)
Definition bounded_actuation (a : Actuation) : bool :=
  (0 <=? a_forward a) && (a_forward a <=? a_power a)
  && (0 <=? a_backward a) && (a_backward a <=? a_power a)
  && (a_power a <=? 255).

(** The calibration of a motor is a number in [0, 1], its commanded power
    is an 8-bit value and every actuation of its history is bounded. *)
Definition pwm_ok (m : Motor.t) : Prop :=
  in_unit_interval (Motor._calibration m) = true
  /\ is_u8 (Motor._power m)
  /\ forallb bounded_actuation (Motor.sink m) = true.

(** The arguments of a call are admissible: powers satisfy [okp],
    calibrations satisfy [okc]. *)
Definition call_ok (okp : Z -> Prop) (okc : F32.float -> Prop) (c : Call) : Prop :=
  match c with
  | LeftForward p _ | LeftBackward p _
  | RightForward p _ | RightBackward p _ => okp p
  | SetLeftCalibration c | SetRightCalibration c => okc c
  | _ => True
  end.

Definition script_ok (okp : Z -> Prop) (okc : F32.float -> Prop)
  (script : list (Z * Call)) : Prop :=
  Forall (fun nc => call_ok okp okc (snd nc)) script.

(** A property of each channel's motor holds, and both ramp targets are
    admissible powers. *)
Definition guarded (P : MotionMotors.Channel -> Motor.t -> Prop) (okp : Z -> Prop)
  (s : MotionMotors.t) : Prop :=
  okp (MotionMotors._leftTargetPower s)
  /\ okp (MotionMotors._rightTargetPower s)
  /\ P MotionMotors.Left (MotionMotors._leftMotor s)
  /\ P MotionMotors.Right (MotionMotors._rightMotor s).

(** The direction and power a motor reports describe the newest actuation
    of its pins: a motor that reports stopped has both pins at 0 and power
    0, a motor that reports forward has its backward pin at 0, and a motor
    that reports backward has its forward pin at 0. *)
Definition describes_pins (m : Motor.t) : Prop :=
  match Motor.sink m with
  | [] => Motor._direction m = MOTOR_STOPPED /\ Motor._power m = 0
  | a :: _ =>
      a_power a = Motor._power m
      /\ match Motor._direction m with
         | MOTOR_FORWARD => a_backward a = 0
         | MOTOR_BACKWARD => a_forward a = 0
         | MOTOR_STOPPED =>
             a_forward a = 0 /\ a_backward a = 0 /\ Motor._power m = 0
         end
  end.

(** *** Telemetry scripts *)

(** The calls a client makes on [Telemetry] after [begin]. *)
Inductive TelemetryCall : Type :=
| TUpdate (leftPower rightPower : Z) (leftForward rightForward : bool)
          (leftCal rightCal : F32.float) (accel smooth : bool)
| TSend
| TSetInterval (interval : Z).

(** A record that went out: the clock value of the [send] that printed it,
    the interval in force at that moment, and the record. *)
Record Emission : Type := mkEmission {
  e_time : Z;
  e_interval : Z;
  e_record : Json
}.

Definition telemetry_call (now : Z) (c : TelemetryCall) (s : Telemetry.t)
  : option Emission * Telemetry.t :=
  match c with
  | TUpdate lp rp lf rf lc rc accel smooth =>
      (None, Telemetry.update now lp rp lf rf lc rc accel smooth s)
  | TSend =>
      (option_map (mkEmission now (Telemetry._interval s)) (fst (Telemetry.send now s)),
       snd (Telemetry.send now s))
  | TSetInterval interval => (None, Telemetry.setInterval interval s)
  end.

(** The records a script of calls sends, oldest first, and the final state. *)
Fixpoint telemetry_run (script : list (Z * TelemetryCall)) (s : Telemetry.t)
  : list Emission * Telemetry.t :=
  match script with
  | [] => ([], s)
  | (now, c) :: rest =>
      let r := telemetry_call now c s in
      let rs := telemetry_run rest (snd r) in
      (match fst r with Some e => e :: fst rs | None => fst rs end, snd rs)
  end.

(** Each emission comes at least the interval in force after the one
    before it (the first one after [last]), on the wrapping clock. *)
Fixpoint rate_limited (last : Z) (l : list Emission) : bool :=
  match l with
  | [] => true
  | e :: rest =>
      (e_interval e <=? ulong_sub (e_time e) last) && rate_limited (e_time e) rest
  end.

(** A call that changes no field of the snapshot [d]: any call but an
    [update] with a value that differs. *)
Definition quiet (d : Telemetry.TelemetryData) (c : TelemetryCall) : bool :=
  match c with
  | TUpdate lp rp lf rf lc rc accel smooth =>
      negb (Telemetry.differs d lp rp lf rf lc rc accel smooth)
  | _ => true
  end.

(** Equality of two floats as C++ [==] sees it, or identity (which also
    relates a NaN to itself). *)
Definition same_float (a b : F32.float) : Prop :=
  a = b \/ F32.eqb a b = true.

(** *** TankMotors and MotionMotors side by side *)

(** The call of [TankMotors] that corresponds to a call of [MotionMotors];
    [setSmoothEnabled] and [updateAcceleration] have no counterpart. *)
Definition tank_call (c : Call) (tk : TankMotors.t) : TankMotors.t :=
  match c with
  | Begin => TankMotors.begin tk
  | LeftForward power _ => TankMotors.leftForward power tk
  | LeftBackward power _ => TankMotors.leftBackward power tk
  | RightForward power _ => TankMotors.rightForward power tk
  | RightBackward power _ => TankMotors.rightBackward power tk
  | LeftStop => TankMotors.leftStop tk
  | RightStop => TankMotors.rightStop tk
  | Stop => TankMotors.stop tk
  | SetLeftCalibration c => TankMotors.setLeftCalibration c tk
  | SetRightCalibration c => TankMotors.setRightCalibration c tk
  | SetSmoothEnabled _ | UpdateAcceleration => tk
  end.

Fixpoint tank_run (script : list (Z * Call)) (tk : TankMotors.t) : TankMotors.t :=
  match script with
  | [] => tk
  | (_, c) :: rest => tank_run rest (tank_call c tk)
  end.

(** A call that does not switch smoothing on. *)
Definition keeps_smoothing_off (c : Call) : bool :=
  match c with
  | SetSmoothEnabled enable => negb enable
  | _ => true
  end.

(** What a client and the pins see of one motor: the reported direction and
    power, the calibration, and the history of actuations. *)
Definition MotorView : Type :=
  (MotorDirection * Z * F32.float * list Actuation)%type.

Definition motor_view (m : Motor.t) : MotorView :=
  (Motor.getDirection m, Motor.getPower m, Motor.getCalibration m, Motor.sink m).

Definition tank_view (ch : MotionMotors.Channel) (tk : TankMotors.t) : MotorView :=
  match ch with
  | MotionMotors.Left =>
      (TankMotors.getLeftDirection tk, TankMotors.getLeftPower tk,
       TankMotors.getLeftCalibration tk, TankMotors.leftSink tk)
  | MotionMotors.Right =>
      (TankMotors.getRightDirection tk, TankMotors.getRightPower tk,
       TankMotors.getRightCalibration tk, TankMotors.rightSink tk)
  end.

(** The two classes show the same on both sides. *)
Definition same_views (s : MotionMotors.t) (tk : TankMotors.t) : Prop :=
  forall ch : MotionMotors.Channel,
    motor_view (MotionMotors.motor ch s) = tank_view ch tk.

(** *** Calls and the ramp cycle *)

(** A drive call that asks for a smooth change. *)
Definition smooth_drive (c : Call) : bool :=
  match c with
  | LeftForward _ smooth | LeftBackward _ smooth
  | RightForward _ smooth | RightBackward _ smooth => smooth
  | _ => false
  end.

(** A script of smooth drive calls and polls in which every poll comes
    less than [SMOOTH_ACCEL_DELAY] ms after the drive call before it (the
    first polls: after [last]), on the wrapping clock. *)
Fixpoint starved (last : Z) (script : list (Z * Call)) : bool :=
  match script with
  | [] => true
  | (now, UpdateAcceleration) :: rest =>
      (ulong_sub now last <? MotionMotors.SMOOTH_ACCEL_DELAY) && starved last rest
  | (now, c) :: rest => smooth_drive c && starved now rest
  end.

(** Both motors report stopped. *)
Definition at_rest (s : MotionMotors.t) : Prop :=
  Motor._direction (MotionMotors._leftMotor s) = MOTOR_STOPPED
  /\ Motor._direction (MotionMotors._rightMotor s) = MOTOR_STOPPED.

(** The fields of the ramp cycle: last step time, step count, total steps,
    the flag, and the four targets. *)
Definition cycle_of (s : MotionMotors.t)
  : Z * Z * Z * bool * (MotorDirection * Z) * (MotorDirection * Z) :=
  (MotionMotors._lastAccelUpdateTime s, MotionMotors._currentAccelStep s,
   MotionMotors._totalAccelSteps s, MotionMotors._isAccelerating s,
   (MotionMotors._leftTargetDirection s, MotionMotors._leftTargetPower s),
   (MotionMotors._rightTargetDirection s, MotionMotors._rightTargetPower s)).

(** Any call but [stop()]. *)
Definition not_stop (c : Call) : bool :=
  match c with
  | Stop => false
  | _ => true
  end.

(** *** The controller *)

(** The call [handleMovement] makes for the left joystick, given its value
    after the dead zone, and the one it makes for the right joystick. *)
Definition left_call (joystickY : Z) : Call :=
  if 0 <? joystickY then LeftForward (u8 (ControllerHandler.motorPower joystickY)) true
  else if joystickY <? 0 then LeftBackward (u8 (ControllerHandler.motorPower joystickY)) true
  else LeftStop.

Definition right_call (joystickY : Z) : Call :=
  if 0 <? joystickY then RightForward (u8 (ControllerHandler.motorPower joystickY)) true
  else if joystickY <? 0 then RightBackward (u8 (ControllerHandler.motorPower joystickY)) true
  else RightStop.

(** One of the four calibration buttons is pressed; one of the four debug
    buttons or button pairs is pressed. *)
Definition calibration_button (c : ControllerHandler.Controller) : bool :=
  ControllerHandler.a c || ControllerHandler.y c
  || (ControllerHandler.dpad c =? ControllerHandler.DPAD_UP)
  || (ControllerHandler.dpad c =? ControllerHandler.DPAD_DOWN).

Definition debug_button (c : ControllerHandler.Controller) : bool :=
  (ControllerHandler.l1 c && ControllerHandler.r1 c)
  || (ControllerHandler.l2 c && ControllerHandler.r2 c)
  || ControllerHandler.x c || ControllerHandler.b c.

(** What the debug buttons act on. *)
Definition debug_state (w : ControllerHandler.t)
  : Logger.t * bool * bool * bool :=
  (ControllerHandler.logger w,
   ControllerHandler.enableAccelerometerDebug w,
   ControllerHandler.enableGyroscopeDebug w,
   ControllerHandler.enableControllerDebug w).

(** What the calibration buttons act on. *)
Definition calibration_state (w : ControllerHandler.t)
  : F32.float * F32.float * Preferences.t :=
  (MotionMotors.getLeftCalibration (ControllerHandler.motors w),
   MotionMotors.getRightCalibration (ControllerHandler.motors w),
   ControllerHandler.prefs w).

(** Every calibration that has been saved is the calibration its motor
    has. *)
Definition prefs_in_sync (w : ControllerHandler.t) : Prop :=
  (forall v, Preferences.getFloat "leftCal" (ControllerHandler.prefs w) = Some v ->
             v = MotionMotors.getLeftCalibration (ControllerHandler.motors w))
  /\ (forall v, Preferences.getFloat "rightCal" (ControllerHandler.prefs w) = Some v ->
                v = MotionMotors.getRightCalibration (ControllerHandler.motors w)).

(** The joystick axis that drives a channel. *)
Definition axis (ch : MotionMotors.Channel) (c : ControllerHandler.Controller) : Z :=
  match ch with
  | MotionMotors.Left => ControllerHandler.axisY c
  | MotionMotors.Right => ControllerHandler.axisRY c
  end.

(** During a loop event the joystick of channel [ch] is released (inside
    the dead zone); polls and calls without a controller count. *)
Definition stick_released (ch : MotionMotors.Channel) (e : LoopEvent) : bool :=
  match e with
  | Process (Some c) => Z.abs (s16 (axis ch c)) <? ControllerHandler.JOYSTICK_DEAD_ZONE
  | _ => true
  end.

(** What the pins and the getters show of a motor's motion: direction,
    power and the history of actuations. *)
Definition motion_view (m : Motor.t) : MotorDirection * Z * list Actuation :=
  (Motor._direction m, Motor._power m, Motor.sink m).

(** A controller with both joysticks centred and no button pressed, and
    the same with given joystick values. *)
Definition idle_controller : ControllerHandler.Controller :=
  ControllerHandler.mkController 0 0 false false 0 false false false false false false.

Definition sticks (leftY rightY : Z) : ControllerHandler.Controller :=
  ControllerHandler.mkController leftY rightY false false 0
                                 false false false false false false.

(** The call [handleMovement] makes for the joystick of a channel. *)
Definition channel_call (ch : MotionMotors.Channel) (joystickY : Z) : Call :=
  match ch with
  | MotionMotors.Left => left_call joystickY
  | MotionMotors.Right => right_call joystickY
  end.

(** Smoothing is enabled, the ramp target of channel [ch] is stopped, and
    the motor of [ch] shows [v]. *)
Definition coasting (ch : MotionMotors.Channel)
  (v : MotorDirection * Z * list Actuation) (s : MotionMotors.t) : Prop :=
  MotionMotors._smoothEnabled s = true
  /\ targetDirection ch s = MOTOR_STOPPED
  /\ motion_view (MotionMotors.motor ch s) = v.

(** The direction a joystick value outside the dead zone asks for. *)
Definition stick_direction (joystickY : Z) : MotorDirection :=
  if 0 <? joystickY then MOTOR_FORWARD else MOTOR_BACKWARD.

(** *** What telemetry reports *)

(** The eight values [updateTelemetry] passes on: the two powers, the two
    directions, the two calibrations, and the two flags. *)
Definition Observed : Type :=
  (Z * Z * MotorDirection * MotorDirection * F32.float * F32.float * bool * bool)%type.

(** Their current values in the engine. *)
Definition engine_observed (s : MotionMotors.t) : Observed :=
  (Motor.getPower (MotionMotors._leftMotor s),
   Motor.getPower (MotionMotors._rightMotor s),
   Motor.getDirection (MotionMotors._leftMotor s),
   Motor.getDirection (MotionMotors._rightMotor s),
   Motor.getCalibration (MotionMotors._leftMotor s),
   Motor.getCalibration (MotionMotors._rightMotor s),
   MotionMotors._isAccelerating s,
   MotionMotors._smoothEnabled s).

(** The values [updateTelemetry] remembers in its static locals. *)
Definition cache_observed (c : MotionMotors.Statics) : Observed :=
  (MotionMotors.lastLeftPower c, MotionMotors.lastRightPower c,
   MotionMotors.lastLeftDir c, MotionMotors.lastRightDir c,
   MotionMotors.lastLeftCal c, MotionMotors.lastRightCal c,
   MotionMotors.lastAccel c, MotionMotors.lastSmooth c).

(** A telemetry snapshot shows the given values: powers and flags as they
    are, each direction as "forward or not", each calibration as a number
    equal to the given one. *)
Definition shows (d : Telemetry.TelemetryData) (o : Observed) : Prop :=
  let '(lp, rp, ld, rd, lc, rc, accel, smooth) := o in
  Telemetry.leftMotorPower d = lp
  /\ Telemetry.rightMotorPower d = rp
  /\ Telemetry.leftMotorForward d = MotorDirection_eqb ld MOTOR_FORWARD
  /\ Telemetry.rightMotorForward d = MotorDirection_eqb rd MOTOR_FORWARD
  /\ same_float (Telemetry.leftCalibration d) lc
  /\ same_float (Telemetry.rightCalibration d) rc
  /\ Telemetry.isAccelerating d = accel
  /\ Telemetry.smoothEnabled d = smooth.

(** The snapshot shows what [updateTelemetry] remembers having passed on. *)
Definition cache_matches (st : MotionMotors.State) : Prop :=
  shows (Telemetry._data (MotionMotors.telemetry st))
        (cache_observed (MotionMotors.statics st)).

(** The snapshot shows the engine as it is now. *)
Definition snapshot_current (st : MotionMotors.State) : Prop :=
  shows (Telemetry.getData (MotionMotors.telemetry st))
        (engine_observed (MotionMotors.self st)).

(** A call that ends with [updateTelemetry()] and does not restart
    telemetry: every call but [begin()] and the ramp poll. *)
Definition reporting_call (c : Call) : bool :=
  match c with
  | Begin | UpdateAcceleration => false
  | _ => true
  end.

Definition not_begin (c : Call) : bool :=
  match c with
  | Begin => false
  | _ => true
  end.

(** *** Calibrations as numbers *)

(** A number in [0, 1], by the comparisons of C++. *)
Definition unit_number (c : F32.float) : Prop :=
  is_number c = true /\ F32.leb F32.zero c = true /\ F32.leb c F32.one = true.

(** Both calibrations of the engine the handler drives are numbers in
    [0, 1]. *)
Definition calibrations_in_range (w : ControllerHandler.t) : Prop :=
  unit_number (MotionMotors.getLeftCalibration (ControllerHandler.motors w))
  /\ unit_number (MotionMotors.getRightCalibration (ControllerHandler.motors w)).

(** *** Pin levels

    [Motor::applyPower] makes two [analogWrite] calls, the forward pin
    first.  Between the two the backward pin still has the level the
    previous actuation gave it (0 before the first actuation, when the pins
    are not driven). *)

(** The level of the backward pin after a history (newest first). *)
Definition backward_level (h : list Actuation) : Z :=
  match h with
  | [] => 0
  | a :: _ => a_backward a
  end.

(** The levels (forward pin, backward pin) after each [analogWrite] of a
    history, newest first. *)
Fixpoint pin_levels (h : list Actuation) : list (Z * Z) :=
  match h with
  | [] => []
  | a :: older =>
      (a_forward a, a_backward a)
        :: (a_forward a, backward_level older)
        :: pin_levels older
  end.

(** At most one of the two pins is driven. *)
Definition one_pin_driven (levels : Z * Z) : bool :=
  (fst levels =? 0) || (snd levels =? 0).

(** At no moment were both pins of the motor driven, and the backward pin
    is at 0 unless the motor reports moving backward. *)
Definition pins_ok (m : Motor.t) : Prop :=
  forallb one_pin_driven (pin_levels (Motor.sink m)) = true
  /\ (Motor._direction m <> MOTOR_BACKWARD -> backward_level (Motor.sink m) = 0).

(** What smooth-only scripts maintain at the level of the pins: smoothing
    is on, a channel whose ramp target is forward is not moving backward,
    and both motors are as [pins_ok] says. *)
Definition pins_invariant (s : MotionMotors.t) : Prop :=
  MotionMotors._smoothEnabled s = true
  /\ forall ch : MotionMotors.Channel,
       (targetDirection ch s = MOTOR_FORWARD ->
        Motor._direction (MotionMotors.motor ch s) <> MOTOR_BACKWARD)
       /\ pins_ok (MotionMotors.motor ch s).

(** [begin()], an immediate [leftBackward(200)] and, 5 ms later, an
    immediate [leftForward(200)]. *)
Definition immediate_reversal_to_forward : list (Z * Call) :=
  [ (0, Begin); (0, LeftBackward 200 false); (5, LeftForward 200 false) ].

(** [begin()], a smooth [leftBackward(200)] ramped to its end by ten polls,
    then a smooth [leftForward(200)] ramped to its end by ten polls. *)
Definition smooth_reversal_to_forward : list (Z * Call) :=
  [ (0, Begin); (0, LeftBackward 200 true) ]
  ++ polls [20; 40; 60; 80; 100; 120; 140; 160; 180; 200]
  ++ [ (210, LeftForward 200 true) ]
  ++ polls [230; 250; 270; 290; 310; 330; 350; 370; 390; 410].

(** ** Reading a telemetry record *)

(** The value of the first field named [key] in the field list of a JSON
    object. *)
Fixpoint json_field (key : string) (fields : list (string * Json))
  : option Json :=
  match fields with
  | [] => None
  | (k, v) :: rest => if String.eqb k key then Some v else json_field key rest
  end.

(** The value found in [j] by following the keys of [path]. *)
Fixpoint json_at (path : list string) (j : Json) : option Json :=
  match path with
  | [] => Some j
  | key :: rest =>
      match j with
      | JObject fields =>
          match json_field key fields with
          | Some v => json_at rest v
          | None => None
          end
      | _ => None
      end
  end.

(** The record [r] shows the snapshot [d]: every field of [d] is read back
    from [r] under the keys [Telemetry::send] prints it with; the battery
    voltage is there exactly when it is above 0. *)
Definition record_shows (r : Json) (d : Telemetry.TelemetryData) : Prop :=
  (json_at ["leftMotor"; "power"] r = Some (JInt (Telemetry.leftMotorPower d))
   /\ json_at ["leftMotor"; "forward"] r
      = Some (JBool (Telemetry.leftMotorForward d))
   /\ json_at ["leftMotor"; "cal"] r
      = Some (JFloat (Telemetry.leftCalibration d))
   /\ json_at ["rightMotor"; "power"] r
      = Some (JInt (Telemetry.rightMotorPower d))
   /\ json_at ["rightMotor"; "forward"] r
      = Some (JBool (Telemetry.rightMotorForward d))
   /\ json_at ["rightMotor"; "cal"] r
      = Some (JFloat (Telemetry.rightCalibration d))
   /\ json_at ["system"; "battery"] r
      = (if F32.ltb F32.zero (Telemetry.batteryVoltage d)
         then Some (JFloat (Telemetry.batteryVoltage d)) else None)
   /\ json_at ["system"; "accel"] r = Some (JBool (Telemetry.isAccelerating d))
   /\ json_at ["system"; "smooth"] r = Some (JBool (Telemetry.smoothEnabled d))
   /\ json_at ["timestamp"] r = Some (JInt (Telemetry.timestamp d)))%string.

(** ** Drive calls *)

(** The drive call with [smooth = false] on channel [ch], forward or
    backward, at power [p]. *)
Definition immediate_drive (ch : MotionMotors.Channel) (forward : bool) (p : Z)
  : Call :=
  match ch, forward with
  | MotionMotors.Left, true => LeftForward p false
  | MotionMotors.Left, false => LeftBackward p false
  | MotionMotors.Right, true => RightForward p false
  | MotionMotors.Right, false => RightBackward p false
  end.

(** The [applyPower] call of [Motor::forward] ([forward = true]) or
    [Motor::backward] on a motor of calibration [calibration] at power
    [p]. *)
Definition drive_actuation (forward : bool) (p : Z) (calibration : F32.float)
  : Actuation :=
  let calibrated := Motor.calibratedPower p calibration in
  if forward then mkActuation p calibrated 0 else mkActuation p 0 calibrated.

(** * Properties *)

(** ** Rounding of binary32 products

    [SFmul] rounds the exact product to nearest-even by shifting the
    mantissa right; the lemmas below bound the integer part of the result
    when the product is below 256. *)

Lemma digits2_pos_bounds (m : positive) :
  2 ^ (Zpos (digits2_pos m) - 1) <= Zpos m < 2 ^ Zpos (digits2_pos m).
Proof.
  induction m as [m IH | m IH | ]; cbn [digits2_pos].
  - rewrite Pos2Z.inj_succ.
    replace (Z.succ (Zpos (digits2_pos m)) - 1) with (Z.succ (Zpos (digits2_pos m) - 1)) by lia.
    rewrite !Z.pow_succ_r by lia. lia.
  - rewrite Pos2Z.inj_succ.
    replace (Z.succ (Zpos (digits2_pos m)) - 1) with (Z.succ (Zpos (digits2_pos m) - 1)) by lia.
    rewrite !Z.pow_succ_r by lia. lia.
  - cbn. lia.
Qed.

Lemma shr_1_spec (mrs : shr_record) :
  0 <= shr_m mrs ->
  shr_m (shr_1 mrs) = shr_m mrs / 2
  /\ (clean mrs -> shr_m mrs mod 2 = 0 -> clean (shr_1 mrs)).
Proof.
  destruct mrs as [m r s]; cbn [shr_m]. intros Hm.
  destruct m as [ | [p | p | ] | p ]; try lia; cbn [shr_1 shr_m];
    unfold clean; cbn [shr_r shr_s].
  - split; [reflexivity | intros [-> ->] _; auto].
  - split; [ rewrite Pos2Z.inj_xI; apply Z.div_unique with 1; lia | ].
    intros _ H. rewrite Pos2Z.inj_xI in H.
    rewrite Z.add_comm, Z.mul_comm, Z.mod_add in H by lia. discriminate.
  - split; [ rewrite Pos2Z.inj_xO; apply Z.div_unique with 0; lia | ].
    intros [-> ->] _; auto.
  - split; [reflexivity | intros _ H; discriminate].
Qed.

Lemma mod_mul_zero (m a b : Z) :
  0 < a -> 0 < b -> m mod (a * b) = 0 -> m mod a = 0 /\ (m / a) mod b = 0.
Proof.
  intros Ha Hb H.
  assert (E : m = (b * (m / (a * b))) * a).
  { pose proof (Z.div_mod m (a * b) ltac:(lia)) as D. rewrite H in D. lia. }
  split.
  - rewrite E. apply Z.mod_mul. lia.
  - rewrite E at 1. rewrite Z.div_mul by lia. rewrite Z.mul_comm. apply Z.mod_mul. lia.
Qed.

Lemma iter_shr_1_spec (p : positive) :
  forall mrs, 0 <= shr_m mrs ->
  shr_m (iter_pos shr_1 p mrs) = shr_m mrs / 2 ^ Zpos p
  /\ (clean mrs -> shr_m mrs mod 2 ^ Zpos p = 0 -> clean (iter_pos shr_1 p mrs)).
Proof.
  induction p as [p IH | p IH | ]; intros mrs Hm; cbn [iter_pos].
  - destruct (shr_1_spec mrs Hm) as [E1 C1].
    assert (H1 : 0 <= shr_m (shr_1 mrs)) by (rewrite E1; apply Z.div_pos; lia).
    destruct (IH _ H1) as [E2 C2].
    assert (H2 : 0 <= shr_m (iter_pos shr_1 p (shr_1 mrs)))
      by (rewrite E2; apply Z.div_pos; [lia | apply Z.pow_pos_nonneg; lia]).
    destruct (IH _ H2) as [E3 C3].
    assert (P : 0 < 2 ^ Zpos p) by (apply Z.pow_pos_nonneg; lia).
    assert (PP : 0 < 2 ^ Zpos p * 2 ^ Zpos p) by (apply Z.mul_pos_pos; assumption).
    assert (EP : 2 ^ Zpos p~1 = 2 * (2 ^ Zpos p * 2 ^ Zpos p)).
    { rewrite <- Z.pow_add_r, <- (Z.pow_succ_r 2) by lia. f_equal. lia. }
    split.
    + rewrite E3, E2, E1, EP. rewrite Z.div_div by lia.
      rewrite Z.div_div by lia. reflexivity.
    + intros Hc Hz. rewrite EP in Hz.
      destruct (mod_mul_zero _ 2 _ ltac:(lia) PP Hz) as [Z1 Z2].
      destruct (mod_mul_zero _ _ _ P P Z2) as [Z3 Z4].
      apply C3; [apply C2; [apply C1; assumption | rewrite E1; assumption]
                | rewrite E2, E1; assumption].
  - destruct (IH _ Hm) as [E2 C2].
    assert (P : 0 < 2 ^ Zpos p) by (apply Z.pow_pos_nonneg; lia).
    assert (H2 : 0 <= shr_m (iter_pos shr_1 p mrs))
      by (rewrite E2; apply Z.div_pos; lia).
    destruct (IH _ H2) as [E3 C3].
    assert (EP : 2 ^ Zpos p~0 = 2 ^ Zpos p * 2 ^ Zpos p).
    { rewrite <- Z.pow_add_r by lia. f_equal. lia. }
    split.
    + rewrite E3, E2, EP. rewrite Z.div_div by lia. reflexivity.
    + intros Hc Hz. rewrite EP in Hz.
      destruct (mod_mul_zero _ _ _ P P Hz) as [Z3 Z4].
      apply C3; [apply C2; assumption | rewrite E2; assumption].
  - rewrite Z.pow_1_r. apply shr_1_spec; assumption.
Qed.

Lemma shr_spec (mrs : shr_record) (e n : Z) :
  0 <= shr_m mrs ->
  snd (shr mrs e n) = e + Z.max n 0
  /\ shr_m (fst (shr mrs e n)) = shr_m mrs / 2 ^ Z.max n 0
  /\ (clean mrs -> shr_m mrs mod 2 ^ Z.max n 0 = 0 -> clean (fst (shr mrs e n))).
Proof.
  intros Hm. destruct n as [ | p | p ]; cbn [shr fst snd].
  - rewrite Z.max_id, Z.pow_0_r, Z.div_1_r.
    split; [lia | split; [reflexivity | intros H _; exact H]].
  - replace (Z.max (Zpos p) 0) with (Zpos p) by lia.
    destruct (iter_shr_1_spec p mrs Hm) as [E C].
    split; [reflexivity | split; assumption].
  - replace (Z.max (Zneg p) 0) with 0 by lia.
    rewrite Z.pow_0_r, Z.div_1_r.
    split; [lia | split; [reflexivity | intros H _; exact H]].
Qed.


Lemma round_nearest_even_bounds (q : Z) (l : location) :
  q <= round_nearest_even q l <= q + 1.
Proof.
  destruct l as [ | [ | | ] ]; cbn [round_nearest_even];
    try destruct (Z.even q); lia.
Qed.

Lemma round_nearest_even_clean (mrs : shr_record) :
  clean mrs ->
  round_nearest_even (shr_m mrs) (loc_of_shr_record mrs) = shr_m mrs.
Proof.
  destruct mrs as [m r s]. intros [Hr Hs]. cbn in Hr, Hs. subst. reflexivity.
Qed.

Lemma Zdigits2_le (m k : Z) :
  0 <= m -> 0 <= k -> m <= 2 ^ k -> Zdigits2 m <= k + 1.
Proof.
  intros Hm Hk H. destruct m as [ | p | p ]; cbn [Zdigits2]; try lia.
  pose proof (digits2_pos_bounds p) as [L _].
  assert (2 ^ (Zpos (digits2_pos p) - 1) <= 2 ^ k) by lia.
  apply Z.pow_le_mono_r_iff in H0; lia.
Qed.

Lemma Zdigits2_lt (m k : Z) :
  0 <= m -> 0 <= k -> m < 2 ^ k -> Zdigits2 m <= k.
Proof.
  intros Hm Hk H. destruct m as [ | p | p ]; cbn [Zdigits2]; try lia.
  pose proof (digits2_pos_bounds p) as [L _].
  assert (2 ^ (Zpos (digits2_pos p) - 1) < 2 ^ k) by lia.
  apply Z.pow_lt_mono_r_iff in H0; lia.
Qed.

Lemma trunc_round_result (m e : Z) :
  0 <= m -> e <= 0 ->
  F32.trunc
    match m with
    | Z0 => S754_zero false
    | Zpos p => if e <=? F32.emax - F32.prec
                then S754_finite false p e else S754_infinity false
    | Zneg _ => S754_nan
    end = m / 2 ^ (- e).
Proof.
  intros Hm He. destruct m as [ | p | p ]; try lia.
  - reflexivity.
  - replace (e <=? F32.emax - F32.prec) with true
      by (symmetry; apply Z.leb_le; unfold F32.emax, F32.prec; lia).
    cbn [F32.trunc]. destruct (Z.leb_spec 0 e).
    + replace e with 0 by lia. cbn. rewrite Z.div_1_r. lia.
    + reflexivity.
Qed.

Lemma binary_round_aux_trunc (mx : positive) (ex : Z) :
  ex <= 0 -> Zpos mx < 2 ^ (8 - ex) ->
  let r := binary_round_aux F32.prec F32.emax false (Zpos mx) ex loc_Exact in
  let fl := Zpos mx / 2 ^ (- ex) in
  fl <= F32.trunc r <= fl + 1
  /\ (Zpos mx mod 2 ^ (- ex) = 0 -> F32.trunc r = fl).
Proof.
  intros Hex Hmx. unfold binary_round_aux, shr_fexp. cbn [shr_record_of_loc].
  set (n1 := fexp F32.prec F32.emax (Zdigits2 (Zpos mx) + ex) - ex).
  set (r0 := {| shr_m := Zpos mx; shr_r := false; shr_s := false |}).
  destruct (shr_spec r0 ex n1 ltac:(cbn; lia)) as (E1 & M1 & C1).
  destruct (shr r0 ex n1) as [mrs1 e1]. cbn [fst snd shr_m r0] in E1, M1, C1.
  set (m1 := round_nearest_even (shr_m mrs1) (loc_of_shr_record mrs1)).
  pose proof (round_nearest_even_bounds (shr_m mrs1) (loc_of_shr_record mrs1)) as B1.
  fold m1 in B1.
  set (k1 := Z.max n1 0) in *.
  assert (Hd : Zdigits2 (Zpos mx) <= 8 - ex)
    by (apply Zdigits2_lt; lia).
  assert (He1 : e1 <= 0).
  { subst e1 k1 n1. unfold fexp, emin, F32.prec, F32.emax. lia. }
  assert (Hk1 : 0 <= k1) by (subst k1; lia).
  assert (P1 : 0 < 2 ^ k1) by (apply Z.pow_pos_nonneg; lia).
  assert (Pt : 0 < 2 ^ (- e1)) by (apply Z.pow_pos_nonneg; lia).
  assert (Ex : 2 ^ (- ex) = 2 ^ k1 * 2 ^ (- e1)).
  { rewrite <- Z.pow_add_r by lia. f_equal. lia. }
  assert (Hq : 0 <= shr_m mrs1 < 2 ^ (8 - e1)).
  { rewrite M1. split; [apply Z.div_pos; lia | ].
    apply Z.div_lt_upper_bound; [lia | ].
    rewrite <- Z.pow_add_r by lia.
    replace (k1 + (8 - e1)) with (8 - ex) by lia. exact Hmx. }
  assert (Hm1 : 0 <= m1) by lia.
  set (n2 := fexp F32.prec F32.emax (Zdigits2 m1 + e1) - e1).
  set (r1 := {| shr_m := m1; shr_r := false; shr_s := false |}).
  destruct (shr_spec r1 e1 n2 ltac:(cbn; lia)) as (E2 & M2 & _).
  destruct (shr r1 e1 n2) as [mrs2 e2]. cbn [fst snd shr_m r1] in E2, M2.
  set (k2 := Z.max n2 0) in *.
  assert (Hd1 : Zdigits2 m1 <= 8 - e1 + 1)
    by (apply Zdigits2_le; lia).
  assert (He2 : e2 <= 0).
  { subst e2 k2 n2. unfold fexp, emin, F32.prec, F32.emax. lia. }
  assert (Hk2 : 0 <= k2) by (subst k2; lia).
  assert (P2 : 0 < 2 ^ k2) by (apply Z.pow_pos_nonneg; lia).
  assert (Pt2 : 0 < 2 ^ (- e2)) by (apply Z.pow_pos_nonneg; lia).
  assert (Hm2 : 0 <= shr_m mrs2) by (rewrite M2; apply Z.div_pos; lia).
  cbv zeta. set (res := F32.trunc _).
  assert (TR : res = shr_m mrs2 / 2 ^ (- e2))
    by (apply trunc_round_result; assumption).
  rewrite TR. clear TR res.
  assert (T2 : shr_m mrs2 / 2 ^ (- e2) = m1 / 2 ^ (- e1)).
  { rewrite M2, Z.div_div by lia. rewrite <- Z.pow_add_r by lia.
    f_equal. f_equal. lia. }
  assert (T1 : Zpos mx / 2 ^ (- ex) = shr_m mrs1 / 2 ^ (- e1)).
  { rewrite M1, Z.div_div by lia. rewrite Ex. reflexivity. }
  rewrite T2, T1. split; [split | ].
  - apply Z.div_le_mono; lia.
  - transitivity ((shr_m mrs1 + 1 * 2 ^ (- e1)) / 2 ^ (- e1)).
    + apply Z.div_le_mono; lia.
    + rewrite Z.div_add by lia. lia.
  - intros Hz. rewrite Ex in Hz.
    destruct (mod_mul_zero _ _ _ P1 Pt Hz) as [Z1 _].
    subst m1. rewrite round_nearest_even_clean; [reflexivity | ].
    apply C1; [split; reflexivity | exact Z1].
Qed.


Lemma u8_values_complete (p : Z) : 0 <= p <= 255 -> In p u8_values.
Proof.
  intros H. unfold u8_values. rewrite <- (Z2Nat.id p) by lia.
  apply in_map, in_seq. lia.
Qed.

Lemma forall_u8 (P : Z -> bool) :
  forallb P u8_values = true -> forall p, 0 <= p <= 255 -> P p = true.
Proof.
  intros H p Hp. rewrite forallb_forall in H. apply H, u8_values_complete, Hp.
Qed.

Lemma of_Z_normal_u8 (p : Z) : 0 <= p <= 255 -> of_Z_normal p = true.
Proof. apply forall_u8. vm_compute. reflexivity. Qed.

Lemma of_Z_positive (p : Z) :
  1 <= p <= 255 ->
  exists mp ep, F32.of_Z p = S754_finite false mp ep
                /\ -23 <= ep <= 0 /\ Zpos mp = p * 2 ^ (- ep).
Proof.
  intros Hp. pose proof (of_Z_normal_u8 p ltac:(lia)) as H.
  unfold of_Z_normal in H.
  destruct (F32.of_Z p) as [ [ | ] | | | [ | ] mp ep ]; try discriminate.
  - apply Z.eqb_eq in H. lia.
  - exists mp, ep. rewrite !andb_true_iff in H. destruct H as [[A B] C].
    apply Z.leb_le in A, B. apply Z.eqb_eq in C. auto.
Qed.

Lemma compare_cont_Eq_le (p q : positive) :
  Pos.compare_cont Eq p q <> Gt -> Zpos p <= Zpos q.
Proof. intros H. apply Pos2Z.pos_le_pos. exact H. Qed.

Lemma one_eq : F32.one = S754_finite false 8388608 (-23).
Proof. vm_compute. reflexivity. Qed.

Lemma in_unit_interval_finite (s : bool) (m : positive) (e : Z) :
  in_unit_interval (S754_finite s m e) = true ->
  s = false /\ e <= -23 /\ Zpos m <= 2 ^ (- e).
Proof.
  unfold in_unit_interval. rewrite !andb_true_iff. intros [[V L0] L1].
  destruct s; [discriminate | ]. split; [reflexivity | ].
  unfold F32.valid, valid_binary, bounded, canonical_mantissa in V.
  apply andb_true_iff in V. destruct V as [V _]. apply Z.eqb_eq in V.
  unfold fexp, emin, F32.prec, F32.emax in V.
  pose proof (digits2_pos_bounds m) as [_ D].
  assert (D24 : Zpos m < 2 ^ 24).
  { eapply Z.lt_le_trans; [exact D | apply Z.pow_le_mono_r; lia]. }
  rewrite one_eq in L1.
  unfold F32.leb, SFleb, SFcompare in L1.
  destruct (Z.compare_spec e (-23)) as [E | E | E]; try discriminate.
  - subst e. split; [lia | ].
    replace (2 ^ (- -23)) with 8388608 by (vm_compute; reflexivity).
    apply compare_cont_Eq_le. intros G. rewrite G in L1. discriminate.
  - split; [lia | ].
    apply Z.lt_le_incl, Z.lt_le_trans with (2 ^ 24); [exact D24 | ].
    apply Z.pow_le_mono_r; lia.
Qed.

Lemma mul_of_Z_trunc (p : Z) (c : F32.float) :
  0 <= p <= 255 -> in_unit_interval c = true ->
  let t := F32.trunc (F32.mul (F32.of_Z p) c) in
  floor_mul p c <= t <= floor_mul p c + 1
  /\ 0 <= t <= p
  /\ (floor_mul p c = p -> t = p).
Proof.
  intros Hp Hc.
  destruct c as [s | s | | s m e].
  - (* zero *)
    pose proof (of_Z_normal_u8 p Hp) as N. unfold of_Z_normal in N.
    unfold F32.mul. destruct (F32.of_Z p) as [ [ | ] | | | [ | ] mp ep ];
      try discriminate; cbn; lia.
  - destruct s; discriminate.
  - discriminate.
  - destruct (in_unit_interval_finite _ _ _ Hc) as (-> & He & Hm).
    assert (P2 : 0 < 2 ^ (- e)) by (apply Z.pow_pos_nonneg; lia).
    assert (F : floor_mul p (S754_finite false m e) = p * Zpos m / 2 ^ (- e)).
    { unfold floor_mul. destruct (Z.leb_spec 0 e); [lia | reflexivity]. }
    rewrite F. clear F.
    destruct (Z.eq_dec p 0) as [-> | Hp0].
    { cbn. lia. }
    destruct (of_Z_positive p ltac:(lia)) as (mp & ep & E & Hep & Hmp).
    rewrite E. unfold F32.mul, SFmul. cbn [xorb].
    assert (P1 : 0 < 2 ^ (- ep)) by (apply Z.pow_pos_nonneg; lia).
    assert (EX : 2 ^ (- (ep + e)) = 2 ^ (- ep) * 2 ^ (- e)).
    { rewrite <- Z.pow_add_r by lia. f_equal. lia. }
    assert (MX : Zpos (mp * m) = 2 ^ (- ep) * (p * Zpos m)).
    { rewrite Pos2Z.inj_mul, Hmp. ring. }
    destruct (binary_round_aux_trunc (mp * m) (ep + e)) as [B X].
    + lia.
    + rewrite MX. replace (8 - (ep + e)) with (- ep + (8 + - e)) by lia.
      rewrite Z.pow_add_r by lia. apply Z.mul_lt_mono_pos_l; [exact P1 | ].
      rewrite Z.pow_add_r by lia. change (2 ^ 8) with 256.
      apply Z.lt_le_trans with (256 * Zpos m).
      * apply Z.mul_lt_mono_pos_r; lia.
      * apply Z.mul_le_mono_nonneg_l; lia.
    + cbv zeta in B, X. set (t := F32.trunc _) in *.
      rewrite EX, MX in B, X.
      rewrite Z.div_mul_cancel_l in B, X by lia.
      set (fl := p * Zpos m / 2 ^ (- e)) in *.
      assert (Hfl : 0 <= fl) by (apply Z.div_pos; lia).
      cbv zeta. split; [exact B | ].
      destruct (Z.eq_dec (Zpos m) (2 ^ (- e))) as [Em | Nm].
      * assert (Efl : fl = p) by (subst fl; rewrite Em; apply Z.div_mul; lia).
        assert (Et : t = fl).
        { apply X. rewrite Em.
          replace (2 ^ (- ep) * (p * 2 ^ (- e)))
            with (p * (2 ^ (- ep) * 2 ^ (- e))) by ring.
          apply Z.mod_mul. apply Z.neq_mul_0; lia. }
        lia.
      * assert (fl < p).
        { apply Z.div_lt_upper_bound; [lia | ].
          rewrite (Z.mul_comm (2 ^ (- e))).
          apply Z.mul_lt_mono_pos_l; lia. }
        lia.
Qed.


(** ** Motor: the magnitude sent to the pins *)

Ltac motor_simpl :=
  unfold Motor.forward, Motor.backward, Motor.stop, Motor.setCalibration,
         Motor.logIfChanged, Motor.logIfDirectionChanged,
         Motor.applyPower, Motor.setState in *;
  cbn [Motor._forwardPin Motor._backwardPin Motor._direction Motor._power
       Motor._calibration Motor._lastReportedDirection
       Motor._lastReportedPower Motor.sink] in *.

Lemma calibratedPower_trunc (p : Z) (c : F32.float) :
  0 <= p <= 255 -> in_unit_interval c = true ->
  Motor.calibratedPower p c = F32.trunc (F32.mul (F32.of_Z p) c).
Proof.
  intros Hp Hc. unfold Motor.calibratedPower, F32.to_u8, u8.
  destruct (mul_of_Z_trunc p c Hp Hc) as (_ & B & _).
  apply Z.mod_small. lia.
Qed.

(** C6, as stated, does not hold: with calibration [7.0f / 11.0f] (the
    binary32 number 10676410 / 2^24, slightly below 7/11) and power 11 the
    exact product is below 7, so its floor is 6, but the single-precision
    product rounds to 7.0 and the motor writes 7. *)
Lemma C6_floor_counterexample :
  seven_elevenths = S754_finite false 10676410 (-24)
  /\ in_unit_interval seven_elevenths = true
  /\ Motor.sink (Motor.forward 11 (Motor.new 25 26 seven_elevenths))
     = [mkActuation 11 7 0]
  /\ floor_mul 11 seven_elevenths = 6
  /\ Motor.calibratedPower 11 seven_elevenths <> floor_mul 11 seven_elevenths.
Proof.
  repeat split; try (vm_compute; reflexivity).
  vm_compute. discriminate.
Qed.

(** C6 (amended): for every power [p] in [0, 255] and every binary32
    calibration in [0, 1], the magnitude [forward] and [backward] write is
    the integer part of the single-precision product [p * calibration]; it
    lies in [0, p], and it is the floor of the exact product or that floor
    plus one.  Calibration 0.5 with power 201 yields 100. *)
Theorem C6_calibrated_magnitude (m : Motor.t) (p : Z) :
  0 <= p <= 255 ->
  in_unit_interval (Motor._calibration m) = true ->
  let c := Motor._calibration m in
  let mag := F32.trunc (F32.mul (F32.of_Z p) c) in
  Motor.sink (Motor.forward p m) = mkActuation p mag 0 :: Motor.sink m
  /\ Motor.sink (Motor.backward p m) = mkActuation p 0 mag :: Motor.sink m
  /\ 0 <= mag <= p
  /\ floor_mul p c <= mag <= floor_mul p c + 1
  /\ Motor.calibratedPower 201 one_half = 100.
Proof.
  intros Hp Hc c mag.
  destruct (mul_of_Z_trunc p c Hp Hc) as (F & B & _).
  motor_simpl. rewrite (calibratedPower_trunc p _ Hp Hc).
  repeat split; try reflexivity; try apply F; try apply B.
Qed.

Lemma C6_calibrated_magnitude_witness :
  0 <= 201 <= 255
  /\ in_unit_interval (Motor._calibration (Motor.new 25 26 one_half)) = true
  /\ Motor.sink (Motor.forward 201 (Motor.new 25 26 one_half))
     = [mkActuation 201 100 0]
  /\ 0 <= F32.trunc (F32.mul (F32.of_Z 201) one_half) <= 201.
Proof.
  split; [lia | ]. split; [vm_compute; reflexivity | ].
  destruct (C6_calibrated_magnitude (Motor.new 25 26 one_half) 201)
    as (S & _ & B & _); [lia | vm_compute; reflexivity | ].
  split; [ rewrite S; vm_compute; reflexivity | exact B ].
Defined.

(** ** Telemetry *)


Lemma record_shows_record (d : Telemetry.TelemetryData) :
  record_shows (Telemetry.record d) d.
Proof.
  unfold record_shows, Telemetry.record.
  repeat split; try reflexivity;
    cbn [json_at json_field String.eqb Ascii.eqb Bool.eqb app];
    destruct (F32.ltb F32.zero (Telemetry.batteryVoltage d)); reflexivity.
Qed.

(** C7: [send] emits a record exactly when telemetry is enabled, the
    interval has elapsed since the last send, and the dirty flag is set.
    The record is the one of the stored snapshot; emitting clears the dirty
    flag and records the send time and changes nothing else.  In every other
    case nothing is emitted and the state is unchanged.  Whatever record is
    emitted shows the stored snapshot: each of its fields (powers,
    directions, calibrations, the two flags and the timestamp) is read back
    from the record under the key [send] prints it with, and the battery
    voltage is there exactly when it is above 0. *)
Theorem C7_send_gating (now : Z) (s : Telemetry.t) :
  let due :=
    Telemetry._enabled s = true
    /\ Telemetry._interval s <= ulong_sub now (Telemetry._lastSendTime s)
    /\ Telemetry._dataChanged s = true in
  (fst (Telemetry.send now s) <> None <-> due)
  /\ (due ->
      Telemetry.send now s
      = (Some (Telemetry.record (Telemetry._data s)),
         Telemetry.mk (Telemetry._data s) now (Telemetry._interval s)
                      (Telemetry._enabled s) false))
  /\ (~ due -> Telemetry.send now s = (None, s))
  /\ (forall r : Json,
        fst (Telemetry.send now s) = Some r ->
        record_shows r (Telemetry.getData s)).
Proof.
  assert (Shows : forall r : Json,
             fst (Telemetry.send now s) = Some r ->
             record_shows r (Telemetry.getData s)).
  { intros r. unfold Telemetry.send, Telemetry.getData.
    destruct (negb (Telemetry._enabled s)); [ discriminate | ].
    destruct (_ && _); [ | discriminate ].
    cbn [fst]. intros [= <-]. apply record_shows_record. }
  unfold Telemetry.send in *.
  destruct (Telemetry._enabled s) eqn:En; cbn [negb] in *.
  - destruct (Z.leb_spec (Telemetry._interval s)
                         (ulong_sub now (Telemetry._lastSendTime s))) as [L | L];
      cbn [andb] in *.
    + destruct (Telemetry._dataChanged s) eqn:D; cbn [fst] in *.
      * split; [ | split; [ | split ] ].
        -- split; [ intros _; auto | discriminate ].
        -- intros _. reflexivity.
        -- intros N. exfalso. apply N. auto.
        -- exact Shows.
      * split; [ | split; [ | split ] ].
        -- split; [ congruence | intros (_ & _ & F); discriminate ].
        -- intros (_ & _ & F). discriminate.
        -- reflexivity.
        -- exact Shows.
    + cbn [fst] in *. split; [ | split; [ | split ] ].
      * split; [ congruence | intros (_ & F & _); lia ].
      * intros (_ & F & _). lia.
      * reflexivity.
      * exact Shows.
  - cbn [fst] in *. split; [ | split; [ | split ] ].
    + split; [ congruence | intros (F & _); discriminate ].
    + intros (F & _). discriminate.
    + reflexivity.
    + exact Shows.
Qed.

Lemma C7_send_gating_witness :
  let s := Telemetry.mk (Telemetry.mkData 60 0 true false F32.one F32.one
                                          F32.zero true true 40)
                        0 1000 true true in
  Telemetry.send 1000 s
  = (Some (Telemetry.record (Telemetry._data s)),
     Telemetry.mk (Telemetry._data s) 1000 1000 true false)
  /\ Telemetry.send 999 s = (None, s)
  /\ (json_at ["leftMotor"; "power"] (Telemetry.record (Telemetry._data s))
      = Some (JInt 60)
      /\ json_at ["system"; "battery"] (Telemetry.record (Telemetry._data s))
         = None
      /\ json_at ["timestamp"] (Telemetry.record (Telemetry._data s))
         = Some (JInt 40))%string.
Proof.
  intros s.
  destruct (C7_send_gating 1000 s) as (_ & Due & _ & Shows).
  destruct (C7_send_gating 999 s) as (_ & _ & Not & _).
  assert (E : Telemetry.send 1000 s
              = (Some (Telemetry.record (Telemetry._data s)),
                 Telemetry.mk (Telemetry._data s) 1000 1000 true false)).
  { apply Due. repeat split; try reflexivity; vm_compute; discriminate. }
  split; [exact E | ]. split.
  - apply Not. cbn. intros (_ & F & _). vm_compute in F. apply F. reflexivity.
  - destruct (Shows (Telemetry.record (Telemetry._data s)))
      as (P & _ & _ & _ & _ & _ & B & _ & _ & T);
      [ rewrite E; reflexivity | ].
    split; [exact P | ]. split; [exact B | exact T].
Defined.

(** The record [send] emits after an [update] that changed the snapshot
    carries the fields of that [update] and the time it was made. *)
Lemma send_after_update (now now' : Z) (s : Telemetry.t)
  (leftPower rightPower : Z) (leftForward rightForward : bool)
  (leftCal rightCal : F32.float) (accel smooth : bool) :
  Telemetry._enabled s = true ->
  Telemetry.differs (Telemetry._data s) leftPower rightPower leftForward
                    rightForward leftCal rightCal accel smooth = true ->
  Telemetry._interval s <= ulong_sub now' (Telemetry._lastSendTime s) ->
  fst (Telemetry.send now'
         (Telemetry.update now leftPower rightPower leftForward rightForward
                           leftCal rightCal accel smooth s))
  = Some (Telemetry.record
            (Telemetry.mkData leftPower rightPower leftForward rightForward
               leftCal rightCal
               (Telemetry.batteryVoltage (Telemetry._data s))
               accel smooth now)).
Proof.
  intros E D I. unfold Telemetry.update. rewrite D.
  unfold Telemetry.send.
  cbn [Telemetry._enabled Telemetry._interval Telemetry._lastSendTime
       Telemetry._dataChanged Telemetry._data].
  rewrite E. cbn [negb]. apply Z.leb_le in I. rewrite I. reflexivity.
Qed.





(** ** MotionMotors: what each member function does to the object *)

Import MotionMotors.

Lemma self_updateTelemetry (now : Z) (st : State) :
  self (updateTelemetry now st) = self st.
Proof.
  unfold updateTelemetry.
  match goal with |- context [if ?c then _ else _] => destruct c end;
    reflexivity.
Qed.

Lemma self_if_updateTelemetry (c : bool) (now : Z) (st : State) :
  self (if c then updateTelemetry now st else st) = self st.
Proof. destruct c; [apply self_updateTelemetry | reflexivity]. Qed.

Lemma self_with_self (s : t) (st : State) : self (with_self s st) = s.
Proof. reflexivity. Qed.

Ltac break_if :=
  match goal with
  | |- context [if ?c then _ else _] => destruct c eqn:?
  end.

Ltac expand_mm :=
  unfold openCycle, set_motor, set_targets,
         set_leftMotor, set_rightMotor, set_smoothEnabled,
         set_lastAccelUpdateTime, set_currentAccelStep, set_totalAccelSteps,
         set_isAccelerating, with_self, defaultParams,
         Motor.getDirection, Motor.getPower, Motor.getCalibration in *;
  cbn [negb andb orb fst snd motor
       self statics telemetry steps delayMs
       _leftMotor _rightMotor _smoothEnabled _lastAccelUpdateTime
       _currentAccelStep _totalAccelSteps _isAccelerating
       _leftTargetDirection _rightTargetDirection
       _leftTargetPower _rightTargetPower] in *.

Ltac simpl_mm :=
  cbn [negb andb orb fst snd motor targetDirection targetPower other
       openCycle set_motor set_targets
       set_leftMotor set_rightMotor set_smoothEnabled
       set_lastAccelUpdateTime set_currentAccelStep set_totalAccelSteps
       set_isAccelerating with_self defaultParams
       Motor.getDirection Motor.getPower Motor.getCalibration
       self statics telemetry steps delayMs
       _leftMotor _rightMotor _smoothEnabled _lastAccelUpdateTime
       _currentAccelStep _totalAccelSteps _isAccelerating
       _leftTargetDirection _rightTargetDirection
       _leftTargetPower _rightTargetPower] in *.

Lemma updateAcceleration_not_due (now : Z) (st : State) :
  step_due now (self st) = false -> updateAcceleration now st = st.
Proof.
  unfold step_due, updateAcceleration. intros H.
  destruct (_isAccelerating (self st)); [ | reflexivity ].
  destruct (_smoothEnabled (self st)); [ | reflexivity ].
  cbn [negb orb andb] in *.
  destruct (Z.leb_spec SMOOTH_ACCEL_DELAY
              (ulong_sub now (_lastAccelUpdateTime (self st)))); [discriminate | ].
  destruct (Z.ltb_spec (ulong_sub now (_lastAccelUpdateTime (self st)))
              SMOOTH_ACCEL_DELAY); [reflexivity | lia].
Qed.

Lemma updateAcceleration_due (now : Z) (st : State) :
  step_due now (self st) = true ->
  let s := self st in
  let k := u8 (_currentAccelStep s + 1) in
  self (updateAcceleration now st)
  = {| _leftMotor :=
         stepMotor (_leftTargetDirection s)
                   (stepPower (_totalAccelSteps s) k (_leftTargetPower s))
                   (_leftMotor s);
       _rightMotor :=
         stepMotor (_rightTargetDirection s)
                   (stepPower (_totalAccelSteps s) k (_rightTargetPower s))
                   (_rightMotor s);
       _smoothEnabled := _smoothEnabled s;
       _lastAccelUpdateTime := now;
       _currentAccelStep := k;
       _totalAccelSteps := _totalAccelSteps s;
       _isAccelerating := negb (_totalAccelSteps s <=? k);
       _leftTargetDirection := _leftTargetDirection s;
       _rightTargetDirection := _rightTargetDirection s;
       _leftTargetPower := _leftTargetPower s;
       _rightTargetPower := _rightTargetPower s |}.
Proof.
  unfold step_due, updateAcceleration. intros H.
  apply andb_true_iff in H. destruct H as [H D].
  apply andb_true_iff in H. destruct H as [A S].
  rewrite A, S. cbn [negb orb].
  apply Z.leb_le in D.
  destruct (Z.ltb_spec (ulong_sub now (_lastAccelUpdateTime (self st)))
              SMOOTH_ACCEL_DELAY); [lia | ].
  cbv zeta. unfold stepMotor, stepPower.
  cbn [set_currentAccelStep set_lastAccelUpdateTime
       _currentAccelStep _totalAccelSteps].
  destruct (_totalAccelSteps (self st) <=? u8 (_currentAccelStep (self st) + 1)).
  - rewrite self_updateTelemetry.
    destruct (MotorDirection_eqb (_leftTargetDirection (self st)) MOTOR_STOPPED) eqn:L;
      expand_mm; rewrite ?L; expand_mm;
      destruct (MotorDirection_eqb (_rightTargetDirection (self st)) MOTOR_STOPPED);
      expand_mm; rewrite ?S, ?A; reflexivity.
  - rewrite self_if_updateTelemetry.
    destruct (MotorDirection_eqb (_leftTargetDirection (self st)) MOTOR_STOPPED) eqn:L;
      expand_mm; rewrite ?L; expand_mm;
      destruct (MotorDirection_eqb (_rightTargetDirection (self st)) MOTOR_STOPPED);
      expand_mm; rewrite ?S, ?A; reflexivity.
Qed.

Lemma self_smoothAccelerate (now : Z) (ch : Channel) (direction : MotorDirection)
  (targetPower : Z) (params : AccelParams) (st : State) :
  _smoothEnabled (self st) = true ->
  self (smoothAccelerate now ch direction targetPower params st)
  = openCycle now params
      match ch with
      | Left => set_targets direction targetPower MOTOR_STOPPED 0 (self st)
      | Right => set_targets MOTOR_STOPPED 0 direction targetPower (self st)
      end.
Proof.
  intros S. unfold smoothAccelerate. rewrite S. cbn [negb].
  rewrite self_updateTelemetry. reflexivity.
Qed.

Lemma self_smoothDecelerate (now : Z) (ch : Channel) (direction : MotorDirection)
  (targetPower : Z) (params : AccelParams) (st : State) :
  _smoothEnabled (self st) = true ->
  self (smoothDecelerate now ch direction targetPower params st)
  = let dir := if targetPower =? 0 then MOTOR_STOPPED else direction in
    openCycle now params
      match ch with
      | Left => set_targets dir targetPower MOTOR_STOPPED 0 (self st)
      | Right => set_targets MOTOR_STOPPED 0 dir targetPower (self st)
      end.
Proof.
  intros S. unfold smoothDecelerate. rewrite S. cbn [negb].
  rewrite self_updateTelemetry. reflexivity.
Qed.

Lemma self_smoothTransition (now : Z) (ch : Channel) (newDirection : MotorDirection)
  (targetPower : Z) (params : AccelParams) (st : State) :
  _smoothEnabled (self st) = true ->
  self (smoothTransition now ch newDirection targetPower params st)
  = let s := self st in
    let reversing :=
      negb (MotorDirection_eqb (Motor._direction (motor ch s)) MOTOR_STOPPED)
      && negb (MotorDirection_eqb (Motor._direction (motor ch s)) newDirection) in
    let s1 := if reversing then set_motor ch (Motor.stop (motor ch s)) s else s in
    openCycle now params
      match ch with
      | Left => set_targets newDirection targetPower MOTOR_STOPPED 0 s1
      | Right => set_targets MOTOR_STOPPED 0 newDirection targetPower s1
      end.
Proof.
  intros S. unfold smoothTransition. rewrite S. cbn [negb].
  rewrite self_updateTelemetry. cbv zeta. unfold Motor.getDirection.
  destruct (negb (MotorDirection_eqb (Motor._direction (motor ch (self st))) MOTOR_STOPPED)
            && negb (MotorDirection_eqb (Motor._direction (motor ch (self st))) newDirection));
    destruct ch; reflexivity.
Qed.

(** A poll leaves a channel whose target is stopped as it is. *)
Lemma updateAcceleration_stopped_target (ch : Channel) (now : Z) (st : State) :
  targetDirection ch (self st) = MOTOR_STOPPED ->
  motor ch (self (updateAcceleration now st)) = motor ch (self st)
  /\ targetDirection ch (self (updateAcceleration now st)) = MOTOR_STOPPED.
Proof.
  intros T. destruct (step_due now (self st)) eqn:D.
  - rewrite (updateAcceleration_due now st D).
    destruct ch; cbn in T |- *; rewrite T; auto.
  - rewrite (updateAcceleration_not_due now st D). auto.
Qed.

Lemma polls_stopped_target (ch : Channel) (times : list Z) :
  forall st : State,
  targetDirection ch (self st) = MOTOR_STOPPED ->
  motor ch (self (run (polls times) st)) = motor ch (self st)
  /\ targetDirection ch (self (run (polls times) st)) = MOTOR_STOPPED.
Proof.
  induction times as [ | now times IH ]; intros st T; cbn [polls map run call].
  - auto.
  - destruct (updateAcceleration_stopped_target ch now st T) as [M T'].
    destruct (IH _ T') as [M' T'']. fold (polls times).
    rewrite M', M. auto.
Qed.

(** ** The other channel of a smooth operation *)

(** C10: with smoothing enabled, each of [smoothAccelerate],
    [smoothDecelerate] and [smoothTransition] on one channel sets the other
    channel's ramp target to (stopped, 0) and does not touch the other
    motor; no later poll of the shared ramp cycle steps the other channel,
    whose motor stays as it was last actuated, whatever ramp it was in. *)
Theorem C10_other_channel_abandoned
  (op : Z -> Channel -> MotorDirection -> Z -> AccelParams -> State -> State)
  (now : Z) (ch : Channel) (direction : MotorDirection) (power : Z)
  (params : AccelParams) (st : State) :
  In op [smoothAccelerate; smoothDecelerate; smoothTransition] ->
  _smoothEnabled (self st) = true ->
  let st' := op now ch direction power params st in
  targetDirection (other ch) (self st') = MOTOR_STOPPED
  /\ targetPower (other ch) (self st') = 0
  /\ motor (other ch) (self st') = motor (other ch) (self st)
  /\ forall times : list Z,
       motor (other ch) (self (run (polls times) st'))
       = motor (other ch) (self st)
       /\ targetDirection (other ch) (self (run (polls times) st'))
          = MOTOR_STOPPED.
Proof.
  intros Hop S st'.
  assert (H : targetDirection (other ch) (self st') = MOTOR_STOPPED
              /\ targetPower (other ch) (self st') = 0
              /\ motor (other ch) (self st') = motor (other ch) (self st)).
  { subst st'. destruct Hop as [<- | [<- | [<- | []]]].
    - rewrite self_smoothAccelerate by exact S. destruct ch; auto.
    - rewrite self_smoothDecelerate by exact S. destruct ch; auto.
    - rewrite self_smoothTransition by exact S. cbv zeta.
      destruct (negb _ && negb _); destruct ch; auto. }
  destruct H as (T & P & M). repeat split; try assumption.
  - rewrite <- M. apply polls_stopped_target, T.
  - apply polls_stopped_target, T.
Qed.

Lemma C10_other_channel_abandoned_witness :
  let st' := smoothTransition 70 Right MOTOR_FORWARD 150 defaultParams ramping_left in
  In smoothTransition [smoothAccelerate; smoothDecelerate; smoothTransition]
  /\ _smoothEnabled (self ramping_left) = true
  /\ targetDirection Left (self ramping_left) = MOTOR_FORWARD
  /\ targetDirection Left (self st') = MOTOR_STOPPED
  /\ Motor._power (motor Left (self (run (polls [90; 110; 130]) st'))) = 60.
Proof.
  intros st'.
  assert (I : In smoothTransition
                 [smoothAccelerate; smoothDecelerate; smoothTransition])
    by (cbn; auto).
  assert (S : _smoothEnabled (self ramping_left) = true)
    by (vm_compute; reflexivity).
  destruct (C10_other_channel_abandoned smoothTransition 70 Right MOTOR_FORWARD
              150 defaultParams ramping_left I S) as (T & _ & _ & P).
  destruct (P [90; 110; 130]) as [M _].
  split; [exact I | ]. split; [exact S | ].
  split; [vm_compute; reflexivity | ].
  split; [exact T | ].
  cbn [other] in M. fold st' in M. rewrite M. vm_compute. reflexivity.
Defined.

(** ** The last step of a ramp cycle *)

Lemma step_due_intro (now : Z) (s : t) :
  _isAccelerating s = true -> _smoothEnabled s = true ->
  SMOOTH_ACCEL_DELAY <= ulong_sub now (_lastAccelUpdateTime s) ->
  step_due now s = true.
Proof.
  intros A S D. unfold step_due. rewrite A, S. apply Z.leb_le. exact D.
Qed.

(** C4: on the poll whose incremented step counter reaches or exceeds
    [_totalAccelSteps], every channel whose target direction is not stopped
    is driven in its target direction with exactly its target power, the
    other channels are left alone, and [_isAccelerating] becomes false. *)
Theorem C4_final_step (now : Z) (st : State) :
  let s := self st in
  _isAccelerating s = true ->
  _smoothEnabled s = true ->
  SMOOTH_ACCEL_DELAY <= ulong_sub now (_lastAccelUpdateTime s) ->
  _totalAccelSteps s <= u8 (_currentAccelStep s + 1) ->
  let s' := self (updateAcceleration now st) in
  _isAccelerating s' = false
  /\ forall ch : Channel,
       (targetDirection ch s <> MOTOR_STOPPED ->
        let power := targetPower ch s in
        let magnitude :=
          Motor.calibratedPower power (Motor._calibration (motor ch s)) in
        Motor._direction (motor ch s') = targetDirection ch s
        /\ Motor._power (motor ch s') = power
        /\ Motor.sink (motor ch s')
           = match targetDirection ch s with
             | MOTOR_FORWARD => mkActuation power magnitude 0
             | _ => mkActuation power 0 magnitude
             end :: Motor.sink (motor ch s))
       /\ (targetDirection ch s = MOTOR_STOPPED -> motor ch s' = motor ch s).
Proof.
  intros s A S D K s'. subst s'.
  rewrite (updateAcceleration_due now st (step_due_intro now s A S D)).
  fold s. apply Z.leb_le in K. unfold stepPower. rewrite K.
  split; [reflexivity | ].
  intros ch. destruct ch; cbn [motor targetDirection targetPower _leftMotor _rightMotor];
    unfold stepMotor, driveTarget.
  - destruct (_leftTargetDirection s); split; intros H; try congruence;
      repeat split; reflexivity.
  - destruct (_rightTargetDirection s); split; intros H; try congruence;
      repeat split; reflexivity.
Qed.

Lemma C4_final_step_witness :
  let st := run (polls [80; 100; 120; 140; 160; 180]) ramping_left in
  let s' := self (updateAcceleration 200 st) in
  (_currentAccelStep (self st) = 9 /\ _totalAccelSteps (self st) = 10)
  /\ (targetDirection Left (self st) = MOTOR_FORWARD
      /\ targetPower Left (self st) = 200)
  /\ _isAccelerating s' = false
  /\ Motor._direction (motor Left s') = targetDirection Left (self st)
  /\ Motor._power (motor Left s') = targetPower Left (self st).
Proof.
  intros st s'.
  assert (A1 : _isAccelerating (self st) = true) by (vm_compute; reflexivity).
  assert (A2 : _smoothEnabled (self st) = true) by (vm_compute; reflexivity).
  assert (A3 : SMOOTH_ACCEL_DELAY <= ulong_sub 200 (_lastAccelUpdateTime (self st)))
    by (vm_compute; discriminate).
  assert (A4 : _totalAccelSteps (self st) <= u8 (_currentAccelStep (self st) + 1))
    by (vm_compute; discriminate).
  destruct (C4_final_step 200 st A1 A2 A3 A4) as [A H].
  destruct (H Left) as [[Dir [Pow _]] _]; [vm_compute; discriminate | ].
  split; [split; vm_compute; reflexivity | ].
  split; [split; vm_compute; reflexivity | ].
  split; [exact A | ]. split; [exact Dir | exact Pow].
Defined.

(** ** Elapsed time on the wrapping clock *)

Lemma ulong_sub_wrap (last d : Z) :
  0 <= d < 2 ^ ULONG_BITS -> ulong_sub (ulong (last + d)) last = d.
Proof.
  intros H. unfold ulong_sub, ulong. rewrite Zminus_mod_idemp_l.
  replace (last + d - last) with d by lia. apply Z.mod_small. exact H.
Qed.

(** C9: the ramp stepper, the telemetry publisher and [NonBlockingDelay]
    compare [now - recorded timestamp], computed modulo 2^32, with their
    delay.  When [d] ms have passed since the recorded timestamp [last], the
    clock reads [(last + d) mod 2^32]; the computed difference is then
    exactly [d], also when the clock has wrapped in between, so each check
    fires exactly when [d] has reached the delay. *)
Theorem C9_elapsed_wraparound (last d : Z) :
  0 <= last < 2 ^ ULONG_BITS ->
  0 <= d < 2 ^ ULONG_BITS ->
  let now := ulong (last + d) in
  ulong_sub now last = d
  /\ (forall st : State,
        _isAccelerating (self st) = true ->
        _smoothEnabled (self st) = true ->
        _lastAccelUpdateTime (self st) = last ->
        (d < SMOOTH_ACCEL_DELAY -> updateAcceleration now st = st)
        /\ (SMOOTH_ACCEL_DELAY <= d ->
            _currentAccelStep (self (updateAcceleration now st))
            = u8 (_currentAccelStep (self st) + 1)
            /\ _lastAccelUpdateTime (self (updateAcceleration now st)) = now))
  /\ (forall s : Telemetry.t,
        Telemetry._enabled s = true ->
        Telemetry._dataChanged s = true ->
        Telemetry._lastSendTime s = last ->
        (fst (Telemetry.send now s) <> None <-> Telemetry._interval s <= d))
  /\ (forall t : NonBlockingDelay.t,
        NonBlockingDelay._running t = true ->
        NonBlockingDelay._startTime t = last ->
        fst (NonBlockingDelay.elapsed now t)
        = (NonBlockingDelay._delayTime t <=? d)).
Proof.
  intros Hl Hd now. pose proof (ulong_sub_wrap last d Hd) as W. fold now in W.
  split; [exact W | ]. split; [ | split ].
  - intros st A S L. split.
    + intros Lt. apply updateAcceleration_not_due. unfold step_due.
      rewrite A, S, L, W. apply Z.leb_gt. exact Lt.
    + intros Le.
      assert (D : step_due now (self st) = true).
      { apply step_due_intro; try assumption. rewrite L, W. exact Le. }
      rewrite (updateAcceleration_due now st D). split; reflexivity.
  - intros s E C L. unfold Telemetry.send. rewrite E, C, L, W.
    cbn [negb]. rewrite andb_true_r.
    destruct (Z.leb_spec (Telemetry._interval s) d); cbn [fst];
      split; intros X; try assumption; try discriminate; try congruence; lia.
  - intros t R St. unfold NonBlockingDelay.elapsed.
    rewrite R, St, W. cbn [negb].
    destruct (NonBlockingDelay._delayTime t <=? d); reflexivity.
Qed.

Lemma C9_elapsed_wraparound_witness :
  let last := 4294967291 in
  let now := ulong (last + 25) in
  (0 <= last < 2 ^ ULONG_BITS /\ 0 <= 25 < 2 ^ ULONG_BITS)
  /\ now = 20
  /\ ulong_sub now last = 25.
Proof.
  intros last now.
  assert (Hl : 0 <= last < 2 ^ ULONG_BITS) by (vm_compute; split; congruence).
  assert (Hd : 0 <= 25 < 2 ^ ULONG_BITS) by (vm_compute; split; congruence).
  destruct (C9_elapsed_wraparound last 25 Hl Hd) as [W _].
  split; [split; assumption | ]. split; [vm_compute; reflexivity | exact W].
Defined.

(** ** Ramp cycles *)

Lemma new_powers_same (m : Motor.t) : new_powers m m = [].
Proof. unfold new_powers. rewrite Nat.sub_diag. reflexivity. Qed.

Lemma new_powers_cons (m m' : Motor.t) (a : Actuation) :
  Motor.sink m' = a :: Motor.sink m -> new_powers m m' = [a_power a].
Proof.
  intros E. unfold new_powers. rewrite E. cbn [List.length].
  replace (S (List.length (Motor.sink m)) - List.length (Motor.sink m))%nat
    with 1%nat by lia.
  reflexivity.
Qed.

Lemma stepMotor_drives (dir : MotorDirection) (p : Z) (m : Motor.t) :
  dir <> MOTOR_STOPPED ->
  new_powers m (stepMotor dir p m) = [p]
  /\ Motor._direction (stepMotor dir p m) = dir
  /\ Motor._power (stepMotor dir p m) = p.
Proof.
  intros H. destruct dir; try congruence.
  - split; [ | split; reflexivity ].
    apply (new_powers_cons m _
             (mkActuation p (Motor.calibratedPower p (Motor._calibration m)) 0)).
    reflexivity.
  - split; [ | split; reflexivity ].
    apply (new_powers_cons m _
             (mkActuation p 0 (Motor.calibratedPower p (Motor._calibration m)))).
    reflexivity.
Qed.

Lemma polls_idle (ch : Channel) (times : list Z) (st : State) :
  _isAccelerating (self st) = false ->
  run (polls times) st = st /\ polled_powers ch times st = [].
Proof.
  intros A.
  assert (D : forall now, updateAcceleration now st = st).
  { intros now. apply updateAcceleration_not_due. unfold step_due.
    rewrite A. reflexivity. }
  induction times as [ | now times [IH1 IH2] ];
    cbn [polls map run call polled_powers]; [auto | ].
  fold (polls times). rewrite D, new_powers_same. auto.
Qed.

Lemma motor_after_step (ch : Channel) (now : Z) (st : State) :
  step_due now (self st) = true ->
  let s := self st in
  motor ch (self (updateAcceleration now st))
  = stepMotor (targetDirection ch s)
              (stepPower (_totalAccelSteps s) (u8 (_currentAccelStep s + 1))
                         (targetPower ch s))
              (motor ch s).
Proof.
  intros D. rewrite (updateAcceleration_due now st D). destruct ch; reflexivity.
Qed.

Lemma u8_small (z : Z) : 0 <= z < 256 -> u8 z = z.
Proof. apply Z.mod_small. Qed.

Lemma cycle_polls (ch : Channel) (dir : MotorDirection) (target : Z) :
  dir <> MOTOR_STOPPED ->
  forall (times : list Z) (n : nat) (k : Z) (st : State),
  0 <= k -> k + Z.of_nat n = SMOOTH_ACCEL_STEPS -> (0 < n)%nat ->
  in_cycle ch dir target k (self st) ->
  exists j : nat,
    (j <= n)%nat
    /\ polled_powers ch times st
       = firstn j (schedule_from SMOOTH_ACCEL_STEPS k n target)
    /\ (spaced (_lastAccelUpdateTime (self st)) times = true ->
        j = Nat.min (List.length times) n)
    /\ ((j < n)%nat ->
        in_cycle ch dir target (k + Z.of_nat j) (self (run (polls times) st)))
    /\ (j = n ->
        _isAccelerating (self (run (polls times) st)) = false
        /\ Motor._direction (motor ch (self (run (polls times) st))) = dir
        /\ Motor._power (motor ch (self (run (polls times) st))) = target).
Proof.
  intros Hdir. induction times as [ | now times IH ]; intros n k st Hk Hn Hpos C.
  - exists 0%nat. cbn [polled_powers polls map run firstn List.length].
    split; [lia | ]. split; [reflexivity | ]. split; [reflexivity | ].
    split; [ intros _; rewrite Z.add_0_r; exact C | lia ].
  - cbn [polled_powers polls map run call]. fold (polls times).
    destruct C as (A & Sm & Tot & Cur & TD & TP).
    destruct (step_due now (self st)) eqn:D.
    + (* the poll performs a step *)
      pose proof (motor_after_step ch now st D) as M. cbv zeta in M.
      rewrite Tot, Cur, TD, TP, u8_small in M by (unfold SMOOTH_ACCEL_STEPS in *; lia).
      destruct (stepMotor_drives dir (stepPower SMOOTH_ACCEL_STEPS (k + 1) target)
                  (motor ch (self st)) Hdir) as (NP & MD & MP).
      rewrite <- M in NP, MD, MP.
      pose proof (updateAcceleration_due now st D) as E. cbv zeta in E.
      rewrite Tot, Cur, u8_small in E by (unfold SMOOTH_ACCEL_STEPS in *; lia).
      set (st' := updateAcceleration now st) in *.
      destruct n as [ | n' ]; [lia | ]. cbn [schedule_from].
      destruct n' as [ | n'' ].
      * (* the last step of the cycle *)
        assert (K : k + 1 = SMOOTH_ACCEL_STEPS) by lia.
        assert (A' : _isAccelerating (self st') = false).
        { rewrite E. cbn [_isAccelerating]. rewrite K, Z.leb_refl. reflexivity. }
        destruct (polls_idle ch times st' A') as [R P].
        exists 1%nat. rewrite R, P, NP. cbn [schedule_from firstn app].
        split; [lia | ]. split; [reflexivity | ].
        split; [ intros _; cbn [List.length]; lia | ].
        split; [lia | ]. intros _.
        split; [exact A' | ]. split; [exact MD | ].
        rewrite MP. unfold stepPower. rewrite K, Z.leb_refl. reflexivity.
      * (* an intermediate step *)
        assert (C' : in_cycle ch dir target (k + 1) (self st')).
        { rewrite E. unfold in_cycle.
          cbn [_isAccelerating _smoothEnabled _totalAccelSteps _currentAccelStep].
          repeat split; try assumption.
          apply negb_true_iff, Z.leb_gt. lia. }
        destruct (IH (S n'') (k + 1) st' ltac:(lia) ltac:(lia) ltac:(lia) C')
          as (j & Hj & P & Sp & In & Fin).
        exists (S j). rewrite NP, P. cbn [firstn app schedule_from].
        split; [lia | ]. split; [reflexivity | ]. split; [ | split ].
        -- intros Hs. cbn [spaced] in Hs. apply andb_true_iff in Hs.
           destruct Hs as [_ Hs].
           assert (L : _lastAccelUpdateTime (self st') = now)
             by (rewrite E; reflexivity).
           rewrite L in Sp. specialize (Sp Hs). cbn [List.length]. lia.
        -- intros Lt.
           replace (k + Z.of_nat (S j)) with (k + 1 + Z.of_nat j) by lia.
           apply In. lia.
        -- intros Eq. apply Fin. lia.
    + (* the poll is not due *)
      rewrite (updateAcceleration_not_due now st D), new_powers_same.
      destruct (IH n k st Hk Hn Hpos (conj A (conj Sm (conj Tot (conj Cur (conj TD TP))))))
        as (j & Hj & P & Sp & In & Fin).
      exists j. cbn [app].
      split; [exact Hj | ]. split; [exact P | ].
      split; [ | split; assumption ].
      intros Hs. cbn [spaced] in Hs. apply andb_true_iff in Hs.
      destruct Hs as [Hs _]. unfold step_due in D. rewrite A, Sm, Hs in D.
      discriminate.
Qed.

Lemma non_decreasing_firstn (j : nat) :
  forall l : list Z, non_decreasing l = true -> non_decreasing (firstn j l) = true.
Proof.
  induction j as [ | j IH ]; intros l H; [reflexivity | ].
  destruct l as [ | a [ | b l ] ]; try reflexivity.
  - destruct j; reflexivity.
  - cbn [non_decreasing] in H. apply andb_true_iff in H. destruct H as [Hab H].
    specialize (IH (b :: l) H). cbn [firstn] in IH |- *.
    destruct j as [ | j ]; [reflexivity | ].
    cbn [firstn non_decreasing] in IH |- *. rewrite Hab. exact IH.
Qed.

Lemma all_le_firstn (bound : Z) (j : nat) :
  forall l : list Z, all_le bound l = true -> all_le bound (firstn j l) = true.
Proof.
  unfold all_le. induction j as [ | j IH ]; intros l H; [reflexivity | ].
  destruct l as [ | a l ]; [reflexivity | ].
  cbn [firstn forallb] in H |- *. apply andb_true_iff in H.
  destruct H as [Ha H]. rewrite Ha. apply IH, H.
Qed.

Lemma ramp_schedule_monotone (target : Z) :
  0 <= target <= 255 ->
  non_decreasing (ramp_schedule target) = true
  /\ all_le target (ramp_schedule target) = true.
Proof.
  intros H. apply andb_true_iff.
  apply (forall_u8 (fun T => non_decreasing (ramp_schedule T)
                             && all_le T (ramp_schedule T)));
    [ vm_compute; reflexivity | exact H ].
Qed.

Lemma ramp_schedule_last (target : Z) : last (ramp_schedule target) 0 = target.
Proof. reflexivity. Qed.

(** What every ramp cycle commands, whichever path opened it: in a cycle
    that [smoothAccelerate], [smoothDecelerate] or [smoothTransition] opens
    toward a non-stopped direction and a target power in [1, 255], and that
    no control call interrupts, the polls command a prefix of the cycle's
    schedule (step k commands the integer part of target * (k / 10) in
    single precision, step 10 the target).  The commanded powers are
    non-decreasing and never exceed the target, the power the motor had
    when the cycle was opened plays no part; ten polls that are each due
    command the whole schedule, whose last power is the target, and end
    the cycle. *)
Lemma ramp_commands_schedule
  (op : Z -> Channel -> MotorDirection -> Z -> AccelParams -> State -> State)
  (now : Z) (ch : Channel) (dir : MotorDirection) (power : Z)
  (st : State) (times : list Z) :
  In op [smoothAccelerate; smoothDecelerate; smoothTransition] ->
  _smoothEnabled (self st) = true ->
  dir <> MOTOR_STOPPED ->
  0 < power <= 255 ->
  let st1 := op now ch dir power defaultParams st in
  let powers := polled_powers ch times st1 in
  non_decreasing powers = true
  /\ all_le power powers = true
  /\ (exists j : nat, powers = firstn j (ramp_schedule power))
  /\ (spaced now times = true -> (10 <= List.length times)%nat ->
      powers = ramp_schedule power
      /\ last powers 0 = power
      /\ _isAccelerating (self (run (polls times) st1)) = false
      /\ Motor._direction (motor ch (self (run (polls times) st1))) = dir
      /\ Motor._power (motor ch (self (run (polls times) st1))) = power).
Proof.
  intros Hop Sm Hdir Hp st1 powers.
  assert (E : exists s1 : t,
            _smoothEnabled s1 = true
            /\ self st1
               = openCycle now defaultParams
                   match ch with
                   | Left => set_targets dir power MOTOR_STOPPED 0 s1
                   | Right => set_targets MOTOR_STOPPED 0 dir power s1
                   end).
  { subst st1. destruct Hop as [<- | [<- | [<- | []]]].
    - exists (self st). split; [exact Sm | apply self_smoothAccelerate, Sm].
    - exists (self st). split; [exact Sm | ].
      rewrite self_smoothDecelerate by exact Sm. cbv zeta.
      replace (power =? 0) with false by (symmetry; apply Z.eqb_neq; lia).
      reflexivity.
    - rewrite self_smoothTransition by exact Sm. cbv zeta.
      exists (if negb (MotorDirection_eqb (Motor._direction (motor ch (self st)))
                                         MOTOR_STOPPED)
                 && negb (MotorDirection_eqb (Motor._direction (motor ch (self st)))
                                            dir)
              then set_motor ch (Motor.stop (motor ch (self st))) (self st)
              else self st).
      split; [ | reflexivity ].
      destruct (negb _ && negb _); [ destruct ch | ]; exact Sm. }
  destruct E as (s1 & Sm1 & E).
  assert (C : in_cycle ch dir power 0 (self st1)).
  { rewrite E. unfold in_cycle. destruct ch; repeat split; assumption. }
  assert (L : _lastAccelUpdateTime (self st1) = now)
    by (rewrite E; destruct ch; reflexivity).
  destruct (cycle_polls ch dir power Hdir times 10 0 st1
              ltac:(lia) ltac:(reflexivity) ltac:(lia) C)
    as (j & Hj & P & Sp & _ & Fin).
  fold powers in P. fold (ramp_schedule power) in P.
  destruct (ramp_schedule_monotone power ltac:(lia)) as [Mono Le].
  split; [ rewrite P; apply non_decreasing_firstn, Mono | ].
  split; [ rewrite P; apply all_le_firstn, Le | ].
  split; [ exists j; exact P | ].
  intros Hs Hlen. rewrite L in Sp. specialize (Sp Hs).
  assert (J : j = 10%nat) by lia.
  clear Sp. subst j. destruct (Fin eq_refl) as (A & D & W).
  split; [ rewrite P; reflexivity | ].
  split; [ rewrite P; reflexivity | ].
  split; [exact A | ]. split; [exact D | exact W].
Qed.

(** C5 fails on the code on the decelerate path.  The left motor runs
    forward at 200 and a smooth [leftForward(100)] takes the
    [smoothDecelerate] branch, which opens a cycle toward 100; ten polls
    20 ms apart command 10, 20, ..., 100: the first step drops the motor
    from 200 to 10 and the sequence then increases, so it is not
    non-increasing (the last power is the target, 100).  When the same
    motor is decelerated to 0 by a smooth [leftStop()], the cycle's target
    direction is stopped: the ten polls command nothing and the motor is
    left running forward at 200. *)
Lemma C5_decelerate_failing_input :
  let st1 := smoothDecelerate 5 Left MOTOR_FORWARD 100 defaultParams running_200 in
  let st0 := leftStop 5 running_200 in
  (Motor._power (_leftMotor (self running_200)) = 200
   /\ _smoothEnabled (self running_200) = true
   /\ spaced 5 ten_polls = true)
  /\ leftForward 5 100 true running_200 = updateTelemetry 5 st1
  /\ polled_powers Left ten_polls st1
     = [10; 20; 30; 40; 50; 60; 70; 80; 90; 100]
  /\ non_increasing (polled_powers Left ten_polls st1) = false
  /\ Motor._power (_leftMotor (self (run (polls ten_polls) st1))) = 100
  /\ _isAccelerating (self st0) = true
  /\ polled_powers Left ten_polls st0 = []
  /\ Motor._direction (_leftMotor (self (run (polls ten_polls) st0)))
     = MOTOR_FORWARD
  /\ Motor._power (_leftMotor (self (run (polls ten_polls) st0))) = 200.
Proof.
  repeat split; vm_compute; reflexivity.
Qed.

(** ** Properties of the motors that every call preserves *)

Ltac reduce_self :=
  cbv zeta;
  repeat (rewrite ?self_updateTelemetry, ?self_with_self;
          match goal with
          | |- context [self (if ?c then _ else _)] => destruct c eqn:?
          end);
  rewrite ?self_updateTelemetry, ?self_with_self.

Section MotorInvariant.

Variable P : Motor.t -> Prop.
Hypothesis P_forward : forall p m, P m -> P (Motor.forward p m).
Hypothesis P_backward : forall p m, P m -> P (Motor.backward p m).
Hypothesis P_stop : forall m, P m -> P (Motor.stop m).
Hypothesis P_setCalibration : forall c m, P m -> P (Motor.setCalibration c m).

Lemma both_stepMotor (dir : MotorDirection) (p : Z) (m : Motor.t) :
  P m -> P (stepMotor dir p m).
Proof. intros H. destruct dir; cbn; auto. Qed.

Lemma both_updateAcceleration (now : Z) (st : State) :
  both P (self st) -> both P (self (updateAcceleration now st)).
Proof.
  intros [L R]. destruct (step_due now (self st)) eqn:D.
  - rewrite (updateAcceleration_due now st D).
    split; cbn [_leftMotor _rightMotor]; apply both_stepMotor; assumption.
  - rewrite (updateAcceleration_not_due now st D). split; assumption.
Qed.

Ltac solve_both :=
  unfold both in *; reduce_self;
  repeat match goal with
         | H : _ /\ _ |- _ => destruct H
         | ch : Channel |- _ => destruct ch
         end;
  repeat break_if; simpl_mm; split; auto.

Lemma both_smoothAccelerate now ch dir p params st :
  both P (self st) -> both P (self (smoothAccelerate now ch dir p params st)).
Proof. intros H. unfold smoothAccelerate. solve_both. Qed.

Lemma both_smoothDecelerate now ch dir p params st :
  both P (self st) -> both P (self (smoothDecelerate now ch dir p params st)).
Proof. intros H. unfold smoothDecelerate. solve_both. Qed.

Lemma both_smoothTransition now ch dir p params st :
  both P (self st) -> both P (self (smoothTransition now ch dir p params st)).
Proof. intros H. unfold smoothTransition. solve_both. Qed.

Ltac both_smooth :=
  match goal with
  | |- both _ (self (smoothAccelerate _ _ _ _ _ _)) => apply both_smoothAccelerate
  | |- both _ (self (smoothDecelerate _ _ _ _ _ _)) => apply both_smoothDecelerate
  | |- both _ (self (smoothTransition _ _ _ _ _ _)) => apply both_smoothTransition
  end.

Lemma both_leftStop now st : both P (self st) -> both P (self (leftStop now st)).
Proof.
  intros H. unfold leftStop. reduce_self.
  - both_smooth. exact H.
  - solve_both.
Qed.

Lemma both_rightStop now st : both P (self st) -> both P (self (rightStop now st)).
Proof.
  intros H. unfold rightStop. reduce_self.
  - both_smooth. exact H.
  - solve_both.
Qed.

Lemma both_call (now : Z) (c : Call) (st : State) :
  both P (self st) -> both P (self (call now c st)).
Proof.
  intros H. destruct c; cbn [call].
  - unfold begin. solve_both.
  - unfold leftForward. reduce_self;
      try both_smooth; try assumption. solve_both.
  - unfold leftBackward. reduce_self;
      try both_smooth; try assumption. solve_both.
  - unfold rightForward. reduce_self;
      try both_smooth; try assumption. solve_both.
  - unfold rightBackward. reduce_self;
      try both_smooth; try assumption. solve_both.
  - apply both_leftStop, H.
  - apply both_rightStop, H.
  - unfold stop. reduce_self.
    pose proof (both_rightStop now _ (both_leftStop now st H)) as [L R].
    split; assumption.
  - unfold setSmoothEnabled. solve_both.
  - unfold setLeftCalibration. solve_both.
  - unfold setRightCalibration. solve_both.
  - apply both_updateAcceleration, H.
Qed.

Lemma both_run (script : list (Z * Call)) :
  forall st : State, both P (self st) -> both P (self (run script st)).
Proof.
  induction script as [ | [now c] script IH ]; intros st H; cbn [run].
  - exact H.
  - apply IH, both_call, H.
Qed.

End MotorInvariant.

(** ** Direction reversal *)




Lemma motor_ok_forward (p : Z) (m : Motor.t) :
  motor_ok m -> motor_ok (Motor.forward p m).
Proof.
  intros [R _]. split.
  - motor_simpl. cbn [reversal_safe]. rewrite R. reflexivity.
  - motor_simpl. congruence.
Qed.

Lemma motor_ok_backward (p : Z) (m : Motor.t) :
  motor_ok m -> Motor._direction m <> MOTOR_FORWARD ->
  motor_ok (Motor.backward p m).
Proof.
  intros [R J] D. specialize (J D). split.
  - motor_simpl. cbn [reversal_safe]. rewrite R, J.
    destruct (drives_backward _); reflexivity.
  - intros _. motor_simpl. cbn [stopped_since_forward].
    rewrite J. destruct (is_stop _); reflexivity.
Qed.

Lemma motor_ok_stop (m : Motor.t) : motor_ok m -> motor_ok (Motor.stop m).
Proof.
  intros [R _]. split.
  - motor_simpl. cbn [reversal_safe]. rewrite R. reflexivity.
  - intros _. reflexivity.
Qed.

Lemma motor_ok_setCalibration (c : F32.float) (m : Motor.t) :
  motor_ok m -> motor_ok (Motor.setCalibration c m).
Proof. intros H. exact H. Qed.

Lemma channel_step (dir : MotorDirection) (p : Z) (m : Motor.t) :
  (dir = MOTOR_BACKWARD -> Motor._direction m <> MOTOR_FORWARD) ->
  motor_ok m ->
  (dir = MOTOR_BACKWARD -> Motor._direction (stepMotor dir p m) <> MOTOR_FORWARD)
  /\ motor_ok (stepMotor dir p m).
Proof.
  intros D M. destruct dir; cbn.
  - split; [congruence | apply motor_ok_forward, M].
  - split; [congruence | apply motor_ok_backward; auto].
  - split; [congruence | exact M].
Qed.

Lemma invariant_updateAcceleration (now : Z) (st : State) :
  smooth_invariant (self st) ->
  smooth_invariant (self (updateAcceleration now st)).
Proof.
  intros [Sm C]. destruct (step_due now (self st)) eqn:D.
  - rewrite (updateAcceleration_due now st D). split; [exact Sm | ].
    intros ch. destruct (C ch) as [T M].
    destruct ch; simpl_mm; apply channel_step; assumption.
  - rewrite (updateAcceleration_not_due now st D). split; assumption.
Qed.

Lemma MotorDirection_eqb_eq (a b : MotorDirection) :
  MotorDirection_eqb a b = true <-> a = b.
Proof. destruct a, b; cbn; split; congruence. Qed.

Lemma invariant_open (now : Z) (params : AccelParams) (ch : Channel)
  (dir : MotorDirection) (p : Z) (s : t) :
  _smoothEnabled s = true ->
  (forall ch', motor_ok (motor ch' s)) ->
  (dir = MOTOR_BACKWARD -> Motor._direction (motor ch s) <> MOTOR_FORWARD) ->
  smooth_invariant
    (openCycle now params
       match ch with
       | Left => set_targets dir p MOTOR_STOPPED 0 s
       | Right => set_targets MOTOR_STOPPED 0 dir p s
       end).
Proof.
  intros Sm M D. split.
  - destruct ch; exact Sm.
  - intros ch'. pose proof (M ch') as M'.
    destruct ch, ch'; simpl_mm; (split; [ try discriminate; exact D | exact M' ]).
Qed.

Lemma invariant_smoothAccelerate now ch dir p params st :
  smooth_invariant (self st) ->
  (dir = MOTOR_BACKWARD -> Motor._direction (motor ch (self st)) <> MOTOR_FORWARD) ->
  smooth_invariant (self (smoothAccelerate now ch dir p params st)).
Proof.
  intros [Sm C] D. rewrite self_smoothAccelerate by exact Sm.
  apply invariant_open; try assumption. intros ch'. apply C.
Qed.

Lemma invariant_smoothDecelerate now ch dir p params st :
  smooth_invariant (self st) ->
  (dir = MOTOR_BACKWARD -> Motor._direction (motor ch (self st)) <> MOTOR_FORWARD) ->
  smooth_invariant (self (smoothDecelerate now ch dir p params st)).
Proof.
  intros [Sm C] D. rewrite self_smoothDecelerate by exact Sm. cbv zeta.
  apply invariant_open; try assumption.
  - intros ch'. apply C.
  - destruct (p =? 0); [discriminate | exact D].
Qed.

Lemma invariant_smoothTransition now ch dir p params st :
  smooth_invariant (self st) ->
  smooth_invariant (self (smoothTransition now ch dir p params st)).
Proof.
  intros [Sm C]. rewrite self_smoothTransition by exact Sm. cbv zeta.
  destruct (negb (MotorDirection_eqb (Motor._direction (motor ch (self st))) MOTOR_STOPPED)
            && negb (MotorDirection_eqb (Motor._direction (motor ch (self st))) dir))
    eqn:Rev.
  - apply invariant_open.
    + destruct ch; exact Sm.
    + intros ch'. destruct (C ch') as [_ M'].
      destruct ch, ch'; simpl_mm; try exact M'; apply motor_ok_stop, M'.
    + intros _. destruct ch; simpl_mm; discriminate.
  - apply invariant_open; try assumption.
    + intros ch'. apply C.
    + intros ->. destruct (Motor._direction (motor ch (self st)));
        cbn in Rev; congruence.
Qed.

Lemma invariant_set_leftMotor_stop (s : t) :
  smooth_invariant s -> smooth_invariant (set_leftMotor (Motor.stop (_leftMotor s)) s).
Proof.
  intros [Sm C]. split; [exact Sm | ].
  intros ch'. destruct (C ch') as [T M]. destruct ch'; simpl_mm.
  - split; [ intros _; discriminate | apply motor_ok_stop, M ].
  - split; assumption.
Qed.

Lemma invariant_set_rightMotor_stop (s : t) :
  smooth_invariant s -> smooth_invariant (set_rightMotor (Motor.stop (_rightMotor s)) s).
Proof.
  intros [Sm C]. split; [exact Sm | ].
  intros ch'. destruct (C ch') as [T M]. destruct ch'; simpl_mm.
  - split; assumption.
  - split; [ intros _; discriminate | apply motor_ok_stop, M ].
Qed.

Lemma invariant_leftStop now st :
  smooth_invariant (self st) -> smooth_invariant (self (leftStop now st)).
Proof.
  intros H. unfold leftStop. reduce_self.
  - apply invariant_smoothDecelerate; [exact H | ].
    intros E. simpl_mm. unfold Motor.getDirection in E. rewrite E. discriminate.
  - apply invariant_set_leftMotor_stop, H.
Qed.

Lemma invariant_rightStop now st :
  smooth_invariant (self st) -> smooth_invariant (self (rightStop now st)).
Proof.
  intros H. unfold rightStop. reduce_self.
  - apply invariant_smoothDecelerate; [exact H | ].
    intros E. simpl_mm. unfold Motor.getDirection in E. rewrite E. discriminate.
  - apply invariant_set_rightMotor_stop, H.
Qed.

Lemma invariant_flags (s : t) (v : bool) :
  smooth_invariant s ->
  smooth_invariant (set_isAccelerating v s)
  /\ smooth_invariant (set_smoothEnabled true s)
  /\ (forall c, smooth_invariant
                  (set_leftMotor (Motor.setCalibration c (_leftMotor s)) s))
  /\ (forall c, smooth_invariant
                  (set_rightMotor (Motor.setCalibration c (_rightMotor s)) s)).
Proof.
  intros [Sm C]. pose proof (C Left) as L. pose proof (C Right) as R.
  split; [ | split; [ | split ] ]; try intros c;
    (split; [ first [exact Sm | reflexivity]
            | intros ch'; destruct ch'; first [exact L | exact R] ]).
Qed.

Ltac invariant_smooth :=
  match goal with
  | |- smooth_invariant (self (smoothAccelerate _ _ _ _ _ _)) =>
      apply invariant_smoothAccelerate
  | |- smooth_invariant (self (smoothDecelerate _ _ _ _ _ _)) =>
      apply invariant_smoothDecelerate
  | |- smooth_invariant (self (smoothTransition _ _ _ _ _ _)) =>
      apply invariant_smoothTransition
  end.

Ltac not_forward :=
  let D := fresh "D" in
  intros D;
  first
    [ discriminate D
    | simpl_mm;
      match goal with
      | E : MotorDirection_eqb (Motor.getDirection ?m) MOTOR_BACKWARD = true |- _ =>
          apply MotorDirection_eqb_eq in E; unfold Motor.getDirection in E;
          rewrite E; discriminate
      end ].

Lemma invariant_call (now : Z) (c : Call) (st : State) :
  smooth_call c = true ->
  smooth_invariant (self st) ->
  smooth_invariant (self (call now c st)).
Proof.
  intros Hc H. pose proof H as [Sm C]. destruct c; cbn [call smooth_call] in Hc |- *.
  - unfold begin, Motor.begin. reduce_self. cbn [self].
    apply invariant_set_rightMotor_stop, invariant_set_leftMotor_stop, H.
  - subst smooth. unfold leftForward. rewrite Sm. cbn [andb]. reduce_self;
      try invariant_smooth; try exact H; not_forward.
  - subst smooth. unfold leftBackward. rewrite Sm. cbn [andb]. reduce_self;
      try invariant_smooth; try exact H; not_forward.
  - subst smooth. unfold rightForward. rewrite Sm. cbn [andb]. reduce_self;
      try invariant_smooth; try exact H; not_forward.
  - subst smooth. unfold rightBackward. rewrite Sm. cbn [andb]. reduce_self;
      try invariant_smooth; try exact H; not_forward.
  - apply invariant_leftStop, H.
  - apply invariant_rightStop, H.
  - unfold stop. reduce_self.
    apply (invariant_flags _ false).
    apply invariant_rightStop, invariant_leftStop, H.
  - subst enable. unfold setSmoothEnabled. reduce_self.
    apply (invariant_flags _ false H).
  - unfold setLeftCalibration. reduce_self.
    apply (invariant_flags _ false H).
  - unfold setRightCalibration. reduce_self.
    apply (invariant_flags _ false H).
  - apply invariant_updateAcceleration, H.
Qed.

Lemma invariant_run (script : list (Z * Call)) :
  forall st : State,
  smooth_script script = true ->
  smooth_invariant (self st) ->
  smooth_invariant (self (run script st)).
Proof.
  induction script as [ | [now c] script IH ]; intros st Hs H; cbn [run].
  - exact H.
  - cbn [smooth_script forallb snd] in Hs. apply andb_true_iff in Hs.
    destruct Hs as [Hc Hs]. apply IH; [exact Hs | ].
    apply invariant_call; assumption.
Qed.

Lemma invariant_initial (leftA leftB rightA rightB : Z) (lc rc : F32.float) :
  smooth_invariant (self (initial leftA leftB rightA rightB lc rc)).
Proof.
  split; [reflexivity | ].
  intros ch. destruct ch; cbn; (split; [discriminate | split; reflexivity]).
Qed.




(** ** Full stop *)

(** What [stop] does achieve: the ramp is cancelled, and no later poll
    changes anything. *)
Lemma stop_cancels_ramp (now : Z) (st : State) :
  _isAccelerating (self (stop now st)) = false
  /\ forall now', updateAcceleration now' (stop now st) = stop now st.
Proof.
  assert (A : _isAccelerating (self (stop now st)) = false).
  { unfold stop. reduce_self. reflexivity. }
  split; [exact A | ].
  intros now'. apply updateAcceleration_not_due. unfold step_due.
  rewrite A. reflexivity.
Qed.

(** With smoothing disabled [stop] takes the immediate branch of [leftStop]
    and [rightStop]: both motors are stopped with power 0. *)
Lemma stop_immediate_when_smoothing_off (now : Z) (st : State) :
  _smoothEnabled (self st) = false ->
  forall ch : Channel,
    Motor._power (motor ch (self (stop now st))) = 0
    /\ Motor._direction (motor ch (self (stop now st))) = MOTOR_STOPPED.
Proof.
  intros Sm ch.
  assert (L : self (leftStop now st)
              = set_leftMotor (Motor.stop (_leftMotor (self st))) (self st)).
  { unfold leftStop. rewrite Sm. cbn [andb]. reduce_self. reflexivity. }
  assert (R : self (rightStop now (leftStop now st))
              = set_rightMotor (Motor.stop (_rightMotor (self (leftStop now st))))
                               (self (leftStop now st))).
  { unfold rightStop at 1. rewrite L at 1. cbn [_smoothEnabled set_leftMotor].
    rewrite Sm. cbn [andb]. reduce_self. reflexivity. }
  unfold stop. reduce_self. rewrite R, L. destruct ch; split; reflexivity.
Qed.

Lemma self_leftStop (now : Z) (st : State) :
  self (leftStop now st)
  = if _smoothEnabled (self st) && (0 <? Motor._power (_leftMotor (self st)))
    then openCycle now defaultParams
           (set_targets MOTOR_STOPPED 0 MOTOR_STOPPED 0 (self st))
    else set_leftMotor (Motor.stop (_leftMotor (self st))) (self st).
Proof.
  unfold leftStop, Motor.getPower. reduce_self; [ | reflexivity ].
  match goal with H : _ && _ = true |- _ => apply andb_true_iff in H; destruct H as [Sm _] end.
  rewrite self_smoothDecelerate by exact Sm. reflexivity.
Qed.

Lemma self_rightStop (now : Z) (st : State) :
  self (rightStop now st)
  = if _smoothEnabled (self st) && (0 <? Motor._power (_rightMotor (self st)))
    then openCycle now defaultParams
           (set_targets MOTOR_STOPPED 0 MOTOR_STOPPED 0 (self st))
    else set_rightMotor (Motor.stop (_rightMotor (self st))) (self st).
Proof.
  unfold rightStop, Motor.getPower. reduce_self; [ | reflexivity ].
  match goal with H : _ && _ = true |- _ => apply andb_true_iff in H; destruct H as [Sm _] end.
  rewrite self_smoothDecelerate by exact Sm. reflexivity.
Qed.

(** With smoothing enabled, [stop] does not actuate a motor whose power is
    above 0: the motor stays exactly as it was. *)
Lemma stop_leaves_running_motor (now : Z) (st : State) (ch : Channel) :
  _smoothEnabled (self st) = true ->
  0 < Motor._power (motor ch (self st)) ->
  motor ch (self (stop now st)) = motor ch (self st).
Proof.
  intros Sm Hp. apply Z.ltb_lt in Hp.
  unfold stop. reduce_self.
  rewrite self_rightStop, self_leftStop, Sm. cbn [andb].
  destruct ch; cbn [motor] in Hp |- *.
  - rewrite Hp.
    destruct (_ && _); reflexivity.
  - destruct (0 <? Motor._power (_leftMotor (self st))); simpl_mm;
      rewrite Sm, Hp; reflexivity.
Qed.

(** C1 fails on the code at this input: the left motor is ramping forward
    and has reached power 60 when [stop()] is called with smoothing enabled.
    [leftStop] only opens a deceleration cycle (its target is stopped, so no
    poll would ever drive the motor), [stop] then cancels that cycle: the
    motor is not actuated at all and keeps running forward at power 60,
    [_isAccelerating] is false, and later polls change nothing. *)
Lemma C1_stop_all_failing_input :
  let st := stop 70 ramping_left in
  (_isAccelerating (self ramping_left) = true
   /\ _smoothEnabled (self ramping_left) = true
   /\ Motor._power (_leftMotor (self ramping_left)) = 60)
  /\ Motor._power (_leftMotor (self st)) = 60
  /\ Motor._direction (_leftMotor (self st)) = MOTOR_FORWARD
  /\ Motor.sink (_leftMotor (self st)) = Motor.sink (_leftMotor (self ramping_left))
  /\ _isAccelerating (self st) = false
  /\ forall now, updateAcceleration now st = st.
Proof.
  intros st.
  split; [ repeat split; vm_compute; reflexivity | ].
  split; [ vm_compute; reflexivity | ].
  split; [ vm_compute; reflexivity | ].
  split; [ vm_compute; reflexivity | ].
  apply stop_cancels_ramp.
Qed.

(** ** The step count of a direction change *)

(** With smoothing enabled, [smoothTransition] always ends with
    [_totalAccelSteps = params.steps]: the two extra steps added on a
    direction change are overwritten. *)
Lemma smoothTransition_total_steps now ch dir p params st :
  _smoothEnabled (self st) = true ->
  _totalAccelSteps (self (smoothTransition now ch dir p params st)) = steps params.
Proof.
  intros Sm. rewrite self_smoothTransition by exact Sm. cbv zeta.
  destruct ch; reflexivity.
Qed.

(** C2 fails on the code at this input: the left motor runs forward at 200
    and a smooth [leftBackward(200)] is called.  The motor is stopped and a
    cycle toward (backward, 200) is opened, but [_totalAccelSteps] is 10,
    the default step count, not 12. *)
Lemma C2_total_steps_failing_input :
  let st := leftBackward 5 200 true running_200 in
  (Motor._direction (_leftMotor (self running_200)) = MOTOR_FORWARD
   /\ _smoothEnabled (self running_200) = true)
  /\ Motor._direction (_leftMotor (self st)) = MOTOR_STOPPED
  /\ _isAccelerating (self st) = true
  /\ (_leftTargetDirection (self st) = MOTOR_BACKWARD
      /\ _leftTargetPower (self st) = 200)
  /\ _totalAccelSteps (self st) = SMOOTH_ACCEL_STEPS
  /\ _totalAccelSteps (self st) <> SMOOTH_ACCEL_STEPS + 2.
Proof.
  intros st. repeat split; try (vm_compute; reflexivity).
  vm_compute. discriminate.
Qed.

(** * Further properties *)

(** ** Clamping of the calibration *)

Lemma SFcompare_antisym (x y : spec_float) (c : comparison) :
  SFcompare x y = Some c -> SFcompare y x = Some (CompOpp c).
Proof.
  destruct x as [sx | sx | | sx mx ex], y as [sy | sy | | sy my ey];
    cbn [SFcompare]; try discriminate;
    intros E; injection E as <-;
    try (destruct sx; reflexivity); try (destruct sy; reflexivity);
    try (destruct sx, sy; reflexivity).
  f_equal.
  destruct sx, sy; try reflexivity;
    rewrite (Z.compare_antisym ex ey);
    destruct (ex ?= ey); cbn [CompOpp]; try reflexivity;
    change (PosDef.Pos.compare_cont Eq my mx) with (Pos.compare_cont Eq my mx);
    change (PosDef.Pos.compare_cont Eq mx my) with (Pos.compare_cont Eq mx my);
    pose proof (Pos.compare_cont_antisym mx my Eq) as A;
    change (CompOpp Eq) with Eq in A; rewrite <- A;
    rewrite ?CompOpp_involutive; reflexivity.
Qed.

Lemma SFcompare_number (x y : spec_float) :
  is_number x = true -> is_number y = true -> exists c, SFcompare x y = Some c.
Proof.
  destruct x, y; cbn; try discriminate; eauto.
Qed.

(** On numbers, [not (x < y)] is [y <= x]. *)
Lemma ltb_false_leb (x y : F32.float) :
  is_number x = true -> is_number y = true ->
  F32.ltb x y = false -> F32.leb y x = true.
Proof.
  intros Nx Ny. destruct (SFcompare_number x y Nx Ny) as [c E].
  unfold F32.ltb, F32.leb, SFltb, SFleb.
  rewrite (SFcompare_antisym x y c E), E.
  destruct c; cbn; congruence.
Qed.

Lemma ltb_leb_false (x y : F32.float) :
  F32.leb y x = true -> F32.ltb x y = false.
Proof.
  unfold F32.ltb, F32.leb, SFltb, SFleb.
  destruct (SFcompare x y) as [c | ] eqn:E.
  - rewrite (SFcompare_antisym x y c E). destruct c; cbn; congruence.
  - reflexivity.
Qed.

(** [constrain(c, 0.0, 1.0)] of a number lies in [0, 1]. *)
Lemma constrain_range (c : F32.float) :
  is_number c = true ->
  let r := F32.constrain c F32.zero F32.one in
  is_number r = true
  /\ F32.leb F32.zero r = true
  /\ F32.leb r F32.one = true.
Proof.
  intros N r. subst r. unfold F32.constrain.
  destruct (F32.ltb c F32.zero) eqn:L0.
  - repeat split; vm_compute; reflexivity.
  - destruct (F32.ltb F32.one c) eqn:L1.
    + repeat split; vm_compute; reflexivity.
    + split; [exact N | ]. split.
      * apply ltb_false_leb; [exact N | reflexivity | exact L0].
      * apply ltb_false_leb; [reflexivity | exact N | exact L1].
Qed.

(** [constrain] returns its argument or one of the two bounds, and is
    idempotent; a NaN passes through. *)
Lemma constrain_idempotent (c : F32.float) :
  let r := F32.constrain c F32.zero F32.one in
  F32.constrain r F32.zero F32.one = r.
Proof.
  intros r. subst r. unfold F32.constrain.
  destruct (F32.ltb c F32.zero) eqn:L0; [ vm_compute; reflexivity | ].
  destruct (F32.ltb F32.one c) eqn:L1; [ vm_compute; reflexivity | ].
  rewrite L0, L1. reflexivity.
Qed.

Lemma constrain_unit_interval (c : F32.float) :
  calibration_arg c ->
  in_unit_interval (F32.constrain c F32.zero F32.one) = true.
Proof.
  intros [V N]. destruct (constrain_range c N) as (_ & A & B).
  unfold in_unit_interval. rewrite A, B, !andb_true_r.
  unfold F32.constrain.
  destruct (F32.ltb c F32.zero); [ vm_compute; reflexivity | ].
  destruct (F32.ltb F32.one c); [ vm_compute; reflexivity | exact V ].
Qed.

(** X1: the calibration a motor stores is [constrain(c, 0.0, 1.0)].  For
    every argument that is a number (not NaN) the stored value is a number
    in [0, 1]: the argument itself when it lies in [0, 1], [0.0] when it is
    below, [1.0] when it is above; it is a valid calibration whenever the
    argument is a valid binary32 value; setting the stored value again
    changes nothing; and the constructor clamps in the same way. *)
Theorem X1_calibration_clamped (c : F32.float) (m : Motor.t) (forwardPin backwardPin : Z) :
  is_number c = true ->
  let r := Motor.getCalibration (Motor.setCalibration c m) in
  is_number r = true
  /\ F32.leb F32.zero r = true
  /\ F32.leb r F32.one = true
  /\ (F32.ltb c F32.zero = true -> r = F32.zero)
  /\ (F32.ltb F32.one c = true -> r = F32.one)
  /\ (F32.leb F32.zero c = true -> F32.leb c F32.one = true -> r = c)
  /\ (F32.valid c = true -> in_unit_interval r = true)
  /\ Motor.setCalibration r (Motor.setCalibration c m) = Motor.setCalibration c m
  /\ Motor.getCalibration (Motor.new forwardPin backwardPin c) = r.
Proof.
  intros N r. subst r. unfold Motor.getCalibration.
  cbn [Motor.setCalibration Motor._calibration Motor.new].
  destruct (constrain_range c N) as (A & B & C).
  split; [exact A | ]. split; [exact B | ]. split; [exact C | ].
  split; [ | split; [ | split; [ | split; [ | split ] ] ] ].
  - intros L. unfold F32.constrain. rewrite L. reflexivity.
  - intros L. unfold F32.constrain. rewrite L.
    destruct (F32.ltb c F32.zero) eqn:L0; [ | reflexivity ].
    (* c < 0 and 1 < c cannot both hold *)
    exfalso. revert L L0. unfold F32.ltb, SFltb.
    destruct c as [s | s | | s mc ec]; try destruct s; cbn; discriminate.
  - intros L0 L1. unfold F32.constrain.
    rewrite (ltb_leb_false _ _ L0), (ltb_leb_false _ _ L1). reflexivity.
  - intros V. apply constrain_unit_interval. split; assumption.
  - unfold Motor.setCalibration. cbn [Motor._forwardPin Motor._backwardPin
      Motor._direction Motor._power Motor._calibration
      Motor._lastReportedDirection Motor._lastReportedPower Motor.sink].
    rewrite constrain_idempotent. reflexivity.
  - reflexivity.
Qed.

Lemma X1_calibration_clamped_witness :
  is_number (F32.of_Z 2) = true
  /\ Motor.getCalibration (Motor.setCalibration (F32.of_Z 2) (Motor.new 25 26 one_half))
     = F32.one.
Proof.
  assert (N : is_number (F32.of_Z 2) = true) by reflexivity.
  split; [exact N | ].
  destruct (X1_calibration_clamped (F32.of_Z 2) (Motor.new 25 26 one_half) 25 26 N)
    as (_ & _ & _ & _ & Above & _).
  apply Above. vm_compute. reflexivity.
Defined.

(** ** Properties of the motors that scripts with admissible arguments preserve

    The engine only ever calls [Motor::forward], [backward], [stop] and
    [setCalibration], with a power that is an argument of a call, a ramp
    target, an interpolated ramp power or 0.  A property of each channel's
    motor that these four preserve for admissible arguments therefore holds
    after every script of calls with admissible arguments. *)

Section GuardedInvariant.

Variable P : Channel -> Motor.t -> Prop.
Variable okp : Z -> Prop.
Variable okc : F32.float -> Prop.
Hypothesis P_forward :
  forall ch p m, okp p -> P ch m -> P ch (Motor.forward p m).
Hypothesis P_backward :
  forall ch p m, okp p -> P ch m -> P ch (Motor.backward p m).
Hypothesis P_stop : forall ch m, P ch m -> P ch (Motor.stop m).
Hypothesis P_setCalibration :
  forall ch c m, okc c -> P ch m -> P ch (Motor.setCalibration c m).
Hypothesis okp_ramp : forall target progress, okp (rampPower target progress).
Hypothesis okp_zero : okp 0.

Lemma guarded_stepPower (total k target : Z) :
  okp target -> okp (stepPower total k target).
Proof.
  intros H. unfold stepPower. destruct (total <=? k); [exact H | apply okp_ramp].
Qed.

Lemma guarded_stepMotor (ch : Channel) (dir : MotorDirection) (p : Z) (m : Motor.t) :
  okp p -> P ch m -> P ch (stepMotor dir p m).
Proof. intros Hp H. destruct dir; cbn; auto. Qed.

Lemma guarded_updateAcceleration (now : Z) (st : State) :
  guarded P okp (self st) -> guarded P okp (self (updateAcceleration now st)).
Proof.
  intros (TL & TR & L & R). destruct (step_due now (self st)) eqn:D.
  - rewrite (updateAcceleration_due now st D). unfold guarded.
    cbn [_leftMotor _rightMotor _leftTargetPower _rightTargetPower].
    repeat split; try assumption;
      apply guarded_stepMotor; try assumption;
      apply guarded_stepPower; assumption.
  - rewrite (updateAcceleration_not_due now st D). repeat split; assumption.
Qed.

Ltac solve_guarded :=
  unfold guarded in *; reduce_self;
  repeat match goal with
         | H : _ /\ _ |- _ => destruct H
         | ch : Channel |- _ => destruct ch
         end;
  repeat break_if; simpl_mm; repeat split; auto.

Lemma guarded_smoothAccelerate now ch dir p params st :
  okp p -> guarded P okp (self st) ->
  guarded P okp (self (smoothAccelerate now ch dir p params st)).
Proof. intros Hp H. unfold smoothAccelerate. solve_guarded. Qed.

Lemma guarded_smoothDecelerate now ch dir p params st :
  okp p -> guarded P okp (self st) ->
  guarded P okp (self (smoothDecelerate now ch dir p params st)).
Proof. intros Hp H. unfold smoothDecelerate. solve_guarded. Qed.

Lemma guarded_smoothTransition now ch dir p params st :
  okp p -> guarded P okp (self st) ->
  guarded P okp (self (smoothTransition now ch dir p params st)).
Proof. intros Hp H. unfold smoothTransition. solve_guarded. Qed.

Ltac guarded_smooth :=
  match goal with
  | |- guarded _ _ (self (smoothAccelerate _ _ _ _ _ _)) =>
      apply guarded_smoothAccelerate
  | |- guarded _ _ (self (smoothDecelerate _ _ _ _ _ _)) =>
      apply guarded_smoothDecelerate
  | |- guarded _ _ (self (smoothTransition _ _ _ _ _ _)) =>
      apply guarded_smoothTransition
  end.

Lemma guarded_leftStop now st :
  guarded P okp (self st) -> guarded P okp (self (leftStop now st)).
Proof.
  intros H. unfold leftStop. reduce_self.
  - guarded_smooth; [exact okp_zero | exact H].
  - solve_guarded.
Qed.

Lemma guarded_rightStop now st :
  guarded P okp (self st) -> guarded P okp (self (rightStop now st)).
Proof.
  intros H. unfold rightStop. reduce_self.
  - guarded_smooth; [exact okp_zero | exact H].
  - solve_guarded.
Qed.

Lemma guarded_call (now : Z) (c : Call) (st : State) :
  call_ok okp okc c ->
  guarded P okp (self st) -> guarded P okp (self (call now c st)).
Proof.
  intros Hc H. destruct c; cbn [call call_ok] in *.
  - unfold begin. solve_guarded.
  - unfold leftForward. reduce_self;
      try (guarded_smooth; assumption); try assumption. solve_guarded.
  - unfold leftBackward. reduce_self;
      try (guarded_smooth; assumption); try assumption. solve_guarded.
  - unfold rightForward. reduce_self;
      try (guarded_smooth; assumption); try assumption. solve_guarded.
  - unfold rightBackward. reduce_self;
      try (guarded_smooth; assumption); try assumption. solve_guarded.
  - apply guarded_leftStop, H.
  - apply guarded_rightStop, H.
  - unfold stop. reduce_self.
    pose proof (guarded_rightStop now _ (guarded_leftStop now st H))
      as (TL & TR & L & R).
    repeat split; assumption.
  - unfold setSmoothEnabled. solve_guarded.
  - unfold setLeftCalibration. solve_guarded.
  - unfold setRightCalibration. solve_guarded.
  - apply guarded_updateAcceleration, H.
Qed.

Lemma guarded_run (script : list (Z * Call)) :
  forall st : State,
  script_ok okp okc script ->
  guarded P okp (self st) -> guarded P okp (self (run script st)).
Proof.
  induction script as [ | [now c] script IH ]; intros st Hs H; cbn [run].
  - exact H.
  - inversion Hs as [ | ? ? Hc Hs' ]; subst.
    apply IH; [exact Hs' | ]. apply guarded_call; assumption.
Qed.

End GuardedInvariant.

(** ** Pulse widths *)

Lemma is_u8_rampPower (target : Z) (progress : F32.float) :
  is_u8 (rampPower target progress).
Proof.
  unfold is_u8, rampPower, F32.to_u8, u8.
  pose proof (Z.mod_pos_bound (F32.trunc (F32.mul (F32.of_Z target) progress)) 256).
  lia.
Qed.

Lemma bounded_actuation_intro (p f b : Z) :
  0 <= f <= p -> 0 <= b <= p -> p <= 255 ->
  bounded_actuation (mkActuation p f b) = true.
Proof.
  intros F B Hp. unfold bounded_actuation. cbn [a_power a_forward a_backward].
  repeat (apply andb_true_iff; split); apply Z.leb_le; lia.
Qed.

Lemma calibratedPower_range (p : Z) (c : F32.float) :
  is_u8 p -> in_unit_interval c = true -> 0 <= Motor.calibratedPower p c <= p.
Proof.
  intros Hp Hc. rewrite (calibratedPower_trunc p c Hp Hc).
  apply (mul_of_Z_trunc p c Hp Hc).
Qed.

Lemma pwm_ok_forward (p : Z) (m : Motor.t) :
  is_u8 p -> pwm_ok m -> pwm_ok (Motor.forward p m).
Proof.
  intros Hp (C & _ & B). pose proof (calibratedPower_range p _ Hp C) as R.
  unfold pwm_ok. motor_simpl. split; [exact C | ]. split; [exact Hp | ].
  cbn [forallb]. rewrite B, andb_true_r.
  apply bounded_actuation_intro; unfold is_u8 in Hp; lia.
Qed.

Lemma pwm_ok_backward (p : Z) (m : Motor.t) :
  is_u8 p -> pwm_ok m -> pwm_ok (Motor.backward p m).
Proof.
  intros Hp (C & _ & B). pose proof (calibratedPower_range p _ Hp C) as R.
  unfold pwm_ok. motor_simpl. split; [exact C | ]. split; [exact Hp | ].
  cbn [forallb]. rewrite B, andb_true_r.
  apply bounded_actuation_intro; unfold is_u8 in Hp; lia.
Qed.

Lemma pwm_ok_stop (m : Motor.t) : pwm_ok m -> pwm_ok (Motor.stop m).
Proof.
  intros (C & _ & B). unfold pwm_ok. motor_simpl.
  split; [exact C | ]. split; [unfold is_u8; lia | ].
  cbn [forallb]. rewrite B. reflexivity.
Qed.

Lemma pwm_ok_setCalibration (c : F32.float) (m : Motor.t) :
  calibration_arg c -> pwm_ok m -> pwm_ok (Motor.setCalibration c m).
Proof.
  intros Hc (_ & Hp & B). unfold pwm_ok. motor_simpl.
  split; [apply constrain_unit_interval, Hc | ]. split; assumption.
Qed.

Lemma pwm_ok_new (forwardPin backwardPin : Z) (c : F32.float) :
  calibration_arg c -> pwm_ok (Motor.new forwardPin backwardPin c).
Proof.
  intros Hc. unfold pwm_ok, Motor.new. cbn [Motor._calibration Motor._power Motor.sink].
  split; [apply constrain_unit_interval, Hc | ].
  split; [unfold is_u8; lia | reflexivity].
Qed.

(** X2: when the engine is constructed with calibrations that are binary32
    numbers, and every power argument of a script of calls is an 8-bit value
    and every calibration argument a binary32 number, then at every point
    each motor's calibration is a number in [0, 1], its commanded power is
    in [0, 255], and every actuation it has made wrote two magnitudes that
    lie between 0 and the power commanded with it, which is at most 255:
    immediate calls, ramp steps and stops alike. *)
Theorem X2_pulse_width_bounded (script : list (Z * Call))
  (leftA leftB rightA rightB : Z) (leftCal rightCal : F32.float) (ch : Channel) :
  calibration_arg leftCal -> calibration_arg rightCal ->
  script_ok is_u8 calibration_arg script ->
  pwm_ok (motor ch (self (run script (initial leftA leftB rightA rightB leftCal rightCal)))).
Proof.
  intros HL HR Hs.
  assert (G : guarded (fun _ => pwm_ok) is_u8
                (self (run script (initial leftA leftB rightA rightB leftCal rightCal)))).
  { apply (guarded_run (fun _ => pwm_ok) is_u8 calibration_arg).
    - intros _ p m. apply pwm_ok_forward.
    - intros _ p m. apply pwm_ok_backward.
    - intros _ m. apply pwm_ok_stop.
    - intros _ c m. apply pwm_ok_setCalibration.
    - apply is_u8_rampPower.
    - unfold is_u8; lia.
    - exact Hs.
    - unfold guarded, initial, new.
      cbn [self _leftMotor _rightMotor _leftTargetPower _rightTargetPower].
      repeat split; try (unfold is_u8; lia); apply pwm_ok_new; assumption. }
  destruct G as (_ & _ & L & R). destruct ch; assumption.
Qed.

Lemma X2_pulse_width_bounded_witness :
  (calibration_arg one_half
   /\ script_ok is_u8 calibration_arg
        [ (0, Begin); (0, LeftForward 201 false); (5, LeftBackward 255 true);
          (25, UpdateAcceleration) ])
  /\ pwm_ok (motor Left
               (self (run [ (0, Begin); (0, LeftForward 201 false);
                            (5, LeftBackward 255 true); (25, UpdateAcceleration) ]
                          (initial 25 26 32 33 one_half one_half)))).
Proof.
  assert (C : calibration_arg one_half) by (split; vm_compute; reflexivity).
  assert (S : script_ok is_u8 calibration_arg
                [ (0, Begin); (0, LeftForward 201 false); (5, LeftBackward 255 true);
                  (25, UpdateAcceleration) ]).
  { repeat (constructor; [ cbn [call_ok snd]; try exact I; unfold is_u8; lia | ]).
    constructor. }
  split; [ split; [exact C | exact S] | ].
  exact (X2_pulse_width_bounded _ 25 26 32 33 one_half one_half Left C C S).
Defined.

(** ** The reported state and the pins *)

Lemma describes_pins_forward (p : Z) (m : Motor.t) :
  describes_pins m -> describes_pins (Motor.forward p m).
Proof. intros _. unfold describes_pins. motor_simpl. auto. Qed.

Lemma describes_pins_backward (p : Z) (m : Motor.t) :
  describes_pins m -> describes_pins (Motor.backward p m).
Proof. intros _. unfold describes_pins. motor_simpl. auto. Qed.

Lemma describes_pins_stop (m : Motor.t) :
  describes_pins m -> describes_pins (Motor.stop m).
Proof. intros _. unfold describes_pins. motor_simpl. auto. Qed.

Lemma describes_pins_setCalibration (c : F32.float) (m : Motor.t) :
  describes_pins m -> describes_pins (Motor.setCalibration c m).
Proof. intros H. unfold describes_pins in *. motor_simpl. exact H. Qed.

(** X3: after every script of calls on a constructed engine, the direction
    and power a motor reports ([getDirection], [getPower]) describe the
    newest actuation of its pins: the power is the one commanded with that
    actuation; a motor reported as stopped has both pins at 0 and power 0; a
    motor reported as moving forward has its backward pin at 0, and one
    reported as moving backward has its forward pin at 0.  Before the first
    actuation the motor reports stopped with power 0. *)
Theorem X3_reported_state_describes_pins (script : list (Z * Call))
  (leftA leftB rightA rightB : Z) (leftCal rightCal : F32.float) (ch : Channel) :
  describes_pins
    (motor ch (self (run script (initial leftA leftB rightA rightB leftCal rightCal)))).
Proof.
  assert (B : both describes_pins
                (self (run script (initial leftA leftB rightA rightB leftCal rightCal)))).
  { apply both_run.
    - exact describes_pins_forward.
    - exact describes_pins_backward.
    - exact describes_pins_stop.
    - exact describes_pins_setCalibration.
    - split; cbn; auto. }
  destruct B as [L R]. destruct ch; assumption.
Qed.

(** ** NonBlockingDelay *)

(** X4: a timer started at clock value [t] with delay argument [delayTime]
    counts down on the wrapping 32-bit clock.  The delay in force is the
    argument when it is positive and the delay the timer already had when
    it is 0 ([reset] is [start(0)]).  When [dt] milliseconds have passed
    ([dt < 2^32], across a wrap of the clock or not), [elapsedTime()] is
    [dt], [remaining()] is the delay minus [dt] and 0 once [dt] has reached
    the delay, and [elapsed()] is true exactly from then on. *)
Theorem X4_timer_countdown (t dt delayTime : Z) (d : NonBlockingDelay.t) :
  0 <= dt < 2 ^ ULONG_BITS ->
  let d1 := NonBlockingDelay.start t delayTime d in
  let D := if 0 <? delayTime then delayTime else NonBlockingDelay._delayTime d in
  0 <= D < 2 ^ ULONG_BITS ->
  let now := ulong (t + dt) in
  NonBlockingDelay._delayTime d1 = D
  /\ NonBlockingDelay.reset t d = NonBlockingDelay.start t 0 d
  /\ NonBlockingDelay.elapsedTime now d1 = dt
  /\ NonBlockingDelay.remaining now d1 = Z.max 0 (D - dt)
  /\ fst (NonBlockingDelay.elapsed now d1) = (D <=? dt)
  /\ (fst (NonBlockingDelay.elapsed now d1) = true
      <-> NonBlockingDelay.remaining now d1 = 0).
Proof.
  intros Hdt d1 D HD now.
  pose proof (ulong_sub_wrap t dt Hdt) as W. fold now in W.
  assert (R : NonBlockingDelay.remaining now d1 = Z.max 0 (D - dt)).
  { unfold NonBlockingDelay.remaining, d1, NonBlockingDelay.start.
    cbn [NonBlockingDelay._running NonBlockingDelay._startTime
         NonBlockingDelay._delayTime negb].
    fold D. rewrite W. destruct (Z.leb_spec D dt).
    - lia.
    - unfold ulong_sub, ulong. rewrite Z.mod_small by lia. lia. }
  assert (E : fst (NonBlockingDelay.elapsed now d1) = (D <=? dt)).
  { unfold NonBlockingDelay.elapsed, d1, NonBlockingDelay.start.
    cbn [NonBlockingDelay._running NonBlockingDelay._startTime
         NonBlockingDelay._delayTime negb].
    fold D. rewrite W. destruct (D <=? dt); reflexivity. }
  split; [reflexivity | ].
  split; [reflexivity | ].
  split; [exact W | ].
  split; [exact R | ].
  split; [exact E | ].
  rewrite E, R. rewrite Z.leb_le. lia.
Qed.

Lemma X4_timer_countdown_witness :
  let d1 := NonBlockingDelay.start 4294967291 0 (NonBlockingDelay.new 100) in
  (0 <= 25 < 2 ^ ULONG_BITS /\ 0 <= 100 < 2 ^ ULONG_BITS)
  /\ ulong (4294967291 + 25) = 20
  /\ NonBlockingDelay.remaining (ulong (4294967291 + 25)) d1 = Z.max 0 (100 - 25)
  /\ fst (NonBlockingDelay.elapsed (ulong (4294967291 + 25)) d1) = (100 <=? 25).
Proof.
  intros d1.
  assert (A : 0 <= 25 < 2 ^ ULONG_BITS) by (unfold ULONG_BITS; lia).
  assert (B : 0 <= 100 < 2 ^ ULONG_BITS) by (unfold ULONG_BITS; lia).
  destruct (X4_timer_countdown 4294967291 25 0 (NonBlockingDelay.new 100) A B)
    as (_ & _ & _ & R & E & _).
  split; [ split; [exact A | exact B] | ].
  split; [ reflexivity | ].
  split; [exact R | exact E].
Defined.

(** X5: a timer is one-shot.  Once [elapsed()] has returned true the timer
    is no longer running, and until it is started again every later
    [elapsed()] returns true without changing the timer, [remaining()] is 0
    and [elapsedTime()] is the full delay, at every clock value.  An
    [elapsed()] that returns false leaves the timer as it is.  A timer that
    was never started counts as elapsed. *)
Theorem X5_timer_one_shot (now : Z) (d : NonBlockingDelay.t) :
  fst (NonBlockingDelay.elapsed now d) = true ->
  let d' := snd (NonBlockingDelay.elapsed now d) in
  NonBlockingDelay._running d' = false
  /\ NonBlockingDelay._delayTime d' = NonBlockingDelay._delayTime d
  /\ (forall now',
        NonBlockingDelay.elapsed now' d' = (true, d')
        /\ NonBlockingDelay.remaining now' d' = 0
        /\ NonBlockingDelay.elapsedTime now' d' = NonBlockingDelay._delayTime d)
  /\ (forall now'' e,
        fst (NonBlockingDelay.elapsed now'' e) = false ->
        snd (NonBlockingDelay.elapsed now'' e) = e
        /\ NonBlockingDelay._running e = true)
  /\ (forall delayTime now',
        fst (NonBlockingDelay.elapsed now' (NonBlockingDelay.new delayTime)) = true).
Proof.
  intros E d'.
  assert (A : NonBlockingDelay._running d' = false
              /\ NonBlockingDelay._delayTime d' = NonBlockingDelay._delayTime d).
  { subst d'. revert E. unfold NonBlockingDelay.elapsed.
    destruct (NonBlockingDelay._running d) eqn:Ru; cbn [negb].
    - destruct (_ <=? _); cbn [fst snd]; [ auto | discriminate ].
    - cbn [fst snd]. auto. }
  destruct A as [Ru De].
  split; [exact Ru | ]. split; [exact De | ].
  split; [ | split ].
  - intros now'.
    unfold NonBlockingDelay.elapsed, NonBlockingDelay.remaining,
           NonBlockingDelay.elapsedTime.
    rewrite Ru, De. cbn [negb]. auto.
  - intros now'' e. unfold NonBlockingDelay.elapsed.
    destruct (NonBlockingDelay._running e); cbn [negb].
    + destruct (_ <=? _); cbn [fst snd]; [ discriminate | auto ].
    + cbn [fst]. discriminate.
  - reflexivity.
Qed.

Lemma X5_timer_one_shot_witness :
  let d := NonBlockingDelay.start 0 100 (NonBlockingDelay.new 0) in
  fst (NonBlockingDelay.elapsed 100 d) = true
  /\ NonBlockingDelay.elapsed 50 (snd (NonBlockingDelay.elapsed 100 d))
     = (true, snd (NonBlockingDelay.elapsed 100 d)).
Proof.
  intros d.
  assert (E : fst (NonBlockingDelay.elapsed 100 d) = true) by reflexivity.
  destruct (X5_timer_one_shot 100 d E) as (_ & _ & L & _).
  split; [exact E | ]. apply (L 50).
Defined.

(** ** Telemetry: what goes out, and how often *)

Lemma send_emits (now : Z) (s : Telemetry.t) (j : Json) :
  fst (Telemetry.send now s) = Some j ->
  Telemetry._interval s <= ulong_sub now (Telemetry._lastSendTime s)
  /\ Telemetry._dataChanged s = true
  /\ Telemetry._lastSendTime (snd (Telemetry.send now s)) = now
  /\ Telemetry._dataChanged (snd (Telemetry.send now s)) = false.
Proof.
  unfold Telemetry.send.
  destruct (negb (Telemetry._enabled s)); [ discriminate | ]. cbv zeta.
  destruct (Z.leb_spec (Telemetry._interval s)
              (ulong_sub now (Telemetry._lastSendTime s)));
    [ | discriminate ].
  destruct (Telemetry._dataChanged s); cbn [andb fst snd]; [ | discriminate ].
  intros _. auto.
Qed.

Lemma send_silent (now : Z) (s : Telemetry.t) :
  fst (Telemetry.send now s) = None -> snd (Telemetry.send now s) = s.
Proof.
  unfold Telemetry.send.
  destruct (negb (Telemetry._enabled s)); [ reflexivity | ]. cbv zeta.
  destruct (_ && _); cbn [fst snd]; [ discriminate | reflexivity ].
Qed.

Lemma lastSendTime_update (now : Z) (s : Telemetry.t)
  (lp rp : Z) (lf rf : bool) (lc rc : F32.float) (accel smooth : bool) :
  Telemetry._lastSendTime (Telemetry.update now lp rp lf rf lc rc accel smooth s)
  = Telemetry._lastSendTime s.
Proof. unfold Telemetry.update. destruct (Telemetry.differs _ _ _ _ _ _ _ _ _); reflexivity. Qed.

(** X6: [send] limits the rate of the records.  In every script of
    [update], [send] and [setInterval] calls, each record that goes out
    comes at least [_interval] milliseconds (the interval in force at that
    [send]) after the record before it, and the first one that long after
    the time recorded in [_lastSendTime], as measured on the wrapping
    32-bit clock. *)
Theorem X6_send_rate_limited (script : list (Z * TelemetryCall)) :
  forall s : Telemetry.t,
  rate_limited (Telemetry._lastSendTime s) (fst (telemetry_run script s)) = true.
Proof.
  induction script as [ | [now c] script IH ]; intros s; cbn [telemetry_run].
  - reflexivity.
  - cbv zeta. destruct c as [lp rp lf rf lc rc accel smooth | | interval];
      cbn [telemetry_call fst snd].
    + rewrite <- (lastSendTime_update now s lp rp lf rf lc rc accel smooth).
      apply IH.
    + destruct (fst (Telemetry.send now s)) as [j | ] eqn:E; cbn [option_map].
      * destruct (send_emits now s j E) as (I & _ & T & _).
        cbn [rate_limited e_interval e_time].
        apply andb_true_iff. split; [apply Z.leb_le, I | ].
        rewrite <- T at 1. apply IH.
      * rewrite (send_silent now s E). apply IH.
    + apply (IH (Telemetry.setInterval interval s)).
Qed.

(** X7: a record is sent at most once.  After a [send] that printed a
    record, every script of calls that changes no field of the snapshot
    (sends, interval changes, and updates with the values the snapshot
    already holds) prints nothing, however much time passes, and leaves the
    snapshot as it is. *)
Theorem X7_record_sent_once (now : Z) (s : Telemetry.t)
  (script : list (Z * TelemetryCall)) :
  fst (Telemetry.send now s) <> None ->
  forallb (fun nc => quiet (Telemetry._data s) (snd nc)) script = true ->
  let s' := snd (Telemetry.send now s) in
  fst (telemetry_run script s') = []
  /\ Telemetry._data (snd (telemetry_run script s')) = Telemetry._data s.
Proof.
  intros E Q s'.
  destruct (fst (Telemetry.send now s)) as [j | ] eqn:Ej; [ | congruence ].
  destruct (send_emits now s j Ej) as (_ & _ & _ & F). fold s' in F.
  assert (D : Telemetry._data s' = Telemetry._data s).
  { subst s'. revert Ej. unfold Telemetry.send.
    destruct (negb (Telemetry._enabled s)); [ discriminate | ]. cbv zeta.
    destruct (_ && _); reflexivity. }
  rewrite <- D in Q |- *. clearbody s'. clear E Ej D j.
  revert s' F Q.
  induction script as [ | [t c] script IH ]; intros s' F Q; cbn [telemetry_run].
  - auto.
  - cbv zeta. cbn [forallb snd] in Q. apply andb_true_iff in Q.
    destruct Q as [Qc Q].
    assert (N : telemetry_call t c s' = (None, snd (telemetry_call t c s'))
                /\ Telemetry._dataChanged (snd (telemetry_call t c s')) = false
                /\ Telemetry._data (snd (telemetry_call t c s')) = Telemetry._data s').
    { destruct c as [lp rp lf rf lc rc accel smooth | | interval];
        cbn [telemetry_call quiet fst snd] in *.
      - apply negb_true_iff in Qc. unfold Telemetry.update. rewrite Qc. auto.
      - unfold Telemetry.send. destruct (negb (Telemetry._enabled s')); [ auto | ].
        cbv zeta. rewrite F, andb_false_r. auto.
      - auto. }
    destruct N as (N & F' & D'). rewrite N. cbn [fst snd].
    rewrite <- D' in Q |- *. apply IH; assumption.
Qed.

Lemma X7_record_sent_once_witness :
  let s := Telemetry.update 5 60 0 true false F32.one F32.one true true
             (Telemetry.begin 0 1000 Telemetry.initial) in
  let script := [ (2000, TSend); (2500, TSetInterval 10);
                  (3000, TUpdate 60 0 true false F32.one F32.one true true);
                  (9000, TSend) ] in
  fst (Telemetry.send 1000 s) <> None
  /\ fst (telemetry_run script (snd (Telemetry.send 1000 s))) = [].
Proof.
  intros s script.
  assert (E : fst (Telemetry.send 1000 s) <> None) by (vm_compute; discriminate).
  assert (Q : forallb (fun nc => quiet (Telemetry._data s) (snd nc)) script = true)
    by (vm_compute; reflexivity).
  split; [exact E | ].
  apply (X7_record_sent_once 1000 s script E Q).
Defined.

(** X8: after [update] the snapshot [getData] returns holds the values
    passed: the integer and boolean fields are the arguments, the two
    calibrations equal the arguments as numbers (or are the very argument,
    which covers a NaN), and the battery voltage is untouched. *)
Theorem X8_update_then_getData (now : Z) (s : Telemetry.t)
  (leftPower rightPower : Z) (leftForward rightForward : bool)
  (leftCal rightCal : F32.float) (accel smooth : bool) :
  let d := Telemetry.getData
             (Telemetry.update now leftPower rightPower leftForward rightForward
                               leftCal rightCal accel smooth s) in
  Telemetry.leftMotorPower d = leftPower
  /\ Telemetry.rightMotorPower d = rightPower
  /\ Telemetry.leftMotorForward d = leftForward
  /\ Telemetry.rightMotorForward d = rightForward
  /\ same_float (Telemetry.leftCalibration d) leftCal
  /\ same_float (Telemetry.rightCalibration d) rightCal
  /\ Telemetry.isAccelerating d = accel
  /\ Telemetry.smoothEnabled d = smooth
  /\ Telemetry.batteryVoltage d = Telemetry.batteryVoltage (Telemetry.getData s).
Proof.
  intros d. subst d. unfold Telemetry.getData, Telemetry.update, same_float.
  destruct (Telemetry.differs _ _ _ _ _ _ _ _ _) eqn:D.
  - cbn [Telemetry._data Telemetry.leftMotorPower Telemetry.rightMotorPower
         Telemetry.leftMotorForward Telemetry.rightMotorForward
         Telemetry.leftCalibration Telemetry.rightCalibration
         Telemetry.isAccelerating Telemetry.smoothEnabled Telemetry.batteryVoltage].
    repeat split; auto.
  - unfold Telemetry.differs, F32.neqb in D.
    repeat (apply orb_false_iff in D; destruct D as [D ?]).
    repeat match goal with
           | H : negb _ = false |- _ => apply negb_false_iff in H
           end.
    repeat match goal with
           | H : (_ =? _) = true |- _ => apply Z.eqb_eq in H
           | H : Bool.eqb _ _ = true |- _ => apply Bool.eqb_prop in H
           end.
    repeat split; auto.
Qed.

(** ** MotionMotors with smoothing off is TankMotors *)

Ltac tank_simpl :=
  unfold TankMotors.begin, TankMotors.stop,
         TankMotors.leftForward, TankMotors.leftBackward,
         TankMotors.rightForward, TankMotors.rightBackward,
         TankMotors.leftStop, TankMotors.rightStop,
         TankMotors.setLeftCalibration, TankMotors.setRightCalibration,
         TankMotors.applyLeftPower, TankMotors.applyRightPower,
         TankMotors.setLeft, TankMotors.setRight,
         TankMotors.getLeftDirection, TankMotors.getRightDirection,
         TankMotors.getLeftPower, TankMotors.getRightPower,
         TankMotors.getLeftCalibration, TankMotors.getRightCalibration in *;
  cbn [TankMotors._leftDirection TankMotors._rightDirection
       TankMotors._leftPower TankMotors._rightPower
       TankMotors._leftCalibration TankMotors._rightCalibration
       TankMotors.leftSink TankMotors.rightSink] in *.

(** With smoothing disabled every call acts on the motors at once. *)
Lemma self_call_smoothing_off (now : Z) (c : Call) (st : State) :
  _smoothEnabled (self st) = false ->
  keeps_smoothing_off c = true ->
  let s := self st in
  self (call now c st)
  = match c with
    | Begin =>
        set_rightMotor (Motor.stop (_rightMotor s))
          (set_leftMotor (Motor.stop (_leftMotor s)) s)
    | LeftForward p _ => set_leftMotor (Motor.forward p (_leftMotor s)) s
    | LeftBackward p _ => set_leftMotor (Motor.backward p (_leftMotor s)) s
    | RightForward p _ => set_rightMotor (Motor.forward p (_rightMotor s)) s
    | RightBackward p _ => set_rightMotor (Motor.backward p (_rightMotor s)) s
    | LeftStop => set_leftMotor (Motor.stop (_leftMotor s)) s
    | RightStop => set_rightMotor (Motor.stop (_rightMotor s)) s
    | Stop =>
        set_isAccelerating false
          (set_rightMotor (Motor.stop (_rightMotor s))
             (set_leftMotor (Motor.stop (_leftMotor s)) s))
    | SetSmoothEnabled _ => set_smoothEnabled false s
    | SetLeftCalibration cal =>
        set_leftMotor (Motor.setCalibration cal (_leftMotor s)) s
    | SetRightCalibration cal =>
        set_rightMotor (Motor.setCalibration cal (_rightMotor s)) s
    | UpdateAcceleration => s
    end.
Proof.
  intros Sm K s. subst s.
  destruct c as [ | p sm | p sm | p sm | p sm | | | | e | cal | cal | ];
    cbn [call keeps_smoothing_off] in *.
  - unfold begin. rewrite self_updateTelemetry. reflexivity.
  - unfold leftForward. rewrite Sm, andb_false_r. reduce_self. reflexivity.
  - unfold leftBackward. rewrite Sm, andb_false_r. reduce_self. reflexivity.
  - unfold rightForward. rewrite Sm, andb_false_r. reduce_self. reflexivity.
  - unfold rightBackward. rewrite Sm, andb_false_r. reduce_self. reflexivity.
  - rewrite self_leftStop, Sm. reflexivity.
  - rewrite self_rightStop, Sm. reflexivity.
  - unfold stop. reduce_self. rewrite self_rightStop, self_leftStop, Sm.
    cbn [andb]. simpl_mm. rewrite Sm. reflexivity.
  - unfold setSmoothEnabled. rewrite self_updateTelemetry.
    apply negb_true_iff in K. subst e. reflexivity.
  - unfold setLeftCalibration. rewrite self_updateTelemetry. reflexivity.
  - unfold setRightCalibration. rewrite self_updateTelemetry. reflexivity.
  - apply f_equal. apply updateAcceleration_not_due. unfold step_due.
    rewrite Sm, andb_false_r. reflexivity.
Qed.

Lemma same_views_call (now : Z) (c : Call) (st : State) (tk : TankMotors.t) :
  _smoothEnabled (self st) = false ->
  keeps_smoothing_off c = true ->
  same_views (self st) tk ->
  _smoothEnabled (self (call now c st)) = false
  /\ same_views (self (call now c st)) (tank_call c tk).
Proof.
  intros Sm K V.
  rewrite (self_call_smoothing_off now c st Sm K). cbv zeta.
  pose proof (V Left) as VL. pose proof (V Right) as VR.
  unfold motor_view, tank_view in VL, VR. cbn [motor] in VL, VR.
  unfold Motor.getDirection, Motor.getPower, Motor.getCalibration in VL, VR.
  tank_simpl.
  injection VL as DL PL CL SL. injection VR as DR PR CR SR.
  split.
  - destruct c; simpl_mm; auto.
  - intros ch. unfold motor_view, tank_view, Motor.calibratedPower.
    destruct c, ch; cbn [tank_call]; simpl_mm; motor_simpl; tank_simpl;
      unfold Motor.calibratedPower, Motor.getDirection, Motor.getPower,
             Motor.getCalibration;
      cbn [Motor._direction Motor._power Motor._calibration Motor.sink];
      rewrite ?DL, ?PL, ?CL, ?SL, ?DR, ?PR, ?CR, ?SR; reflexivity.
Qed.

(** X9: with smoothing disabled, [MotionMotors] behaves as the class
    [TankMotors] it replaces.  If the two objects show the same direction,
    power, calibration and history of pin actuations on both sides, then
    after every script of calls that does not switch smoothing on (polls of
    the ramp and [setSmoothEnabled(false)] being no call on [TankMotors])
    they still do; in particular [leftStop], [rightStop] and [stop] stop
    the motors at once, as in [TankMotors]. *)
Theorem X9_smoothing_off_is_TankMotors (script : list (Z * Call)) :
  forall (st : State) (tk : TankMotors.t),
  _smoothEnabled (self st) = false ->
  forallb (fun nc => keeps_smoothing_off (snd nc)) script = true ->
  same_views (self st) tk ->
  same_views (self (run script st)) (tank_run script tk).
Proof.
  induction script as [ | [now c] script IH ]; intros st tk Sm K V;
    cbn [run tank_run].
  - exact V.
  - cbn [forallb snd] in K. apply andb_true_iff in K. destruct K as [Kc K].
    destruct (same_views_call now c st tk Sm Kc V) as [Sm' V'].
    apply IH; assumption.
Qed.

Lemma X9_smoothing_off_is_TankMotors_witness :
  let st := setSmoothEnabled 0 false (initial 25 26 32 33 F32.one F32.one) in
  let tk := TankMotors.new 25 26 32 33 in
  let script := [ (0, Begin); (0, LeftForward 200 true); (20, UpdateAcceleration);
                  (30, SetRightCalibration one_half); (40, RightBackward 201 true);
                  (50, LeftStop); (60, Stop) ] in
  (_smoothEnabled (self st) = false
   /\ forallb (fun nc => keeps_smoothing_off (snd nc)) script = true
   /\ same_views (self st) tk)
  /\ same_views (self (run script st)) (tank_run script tk)
  /\ magnitudes (_rightMotor (self (run script st))) = [ (0, 0); (0, 100); (0, 0) ].
Proof.
  intros st tk script.
  assert (Sm : _smoothEnabled (self st) = false) by (vm_compute; reflexivity).
  assert (K : forallb (fun nc => keeps_smoothing_off (snd nc)) script = true)
    by (vm_compute; reflexivity).
  assert (V : same_views (self st) tk) by (intros ch; destruct ch; vm_compute; reflexivity).
  split; [ split; [exact Sm | split; [exact K | exact V] ] | ].
  split; [ exact (X9_smoothing_off_is_TankMotors script st tk Sm K V) | ].
  vm_compute. reflexivity.
Defined.

(** ** Calls that arrive while a ramp is pending *)

Lemma self_drive_at_rest (now : Z) (c : Call) (st : State) :
  smooth_drive c = true ->
  _smoothEnabled (self st) = true ->
  at_rest (self st) ->
  exists ld lp rd rp,
    self (call now c st)
    = openCycle now defaultParams (set_targets ld lp rd rp (self st)).
Proof.
  intros D Sm [L R].
  destruct c as [ | p sm | p sm | p sm | p sm | | | | e | cal | cal | ];
    cbn [smooth_drive] in D; try discriminate; subst sm; cbn [call].
  - unfold leftForward, Motor.getDirection. rewrite Sm, L. cbn [andb MotorDirection_eqb].
    rewrite self_updateTelemetry, self_smoothTransition by exact Sm.
    cbn [motor]. rewrite L. cbn. eauto.
  - unfold leftBackward, Motor.getDirection. rewrite Sm, L. cbn [andb MotorDirection_eqb].
    rewrite self_updateTelemetry, self_smoothTransition by exact Sm.
    cbn [motor]. rewrite L. cbn. eauto.
  - unfold rightForward, Motor.getDirection. rewrite Sm, R. cbn [andb MotorDirection_eqb].
    rewrite self_updateTelemetry, self_smoothTransition by exact Sm.
    cbn [motor]. rewrite R. cbn. eauto.
  - unfold rightBackward, Motor.getDirection. rewrite Sm, R. cbn [andb MotorDirection_eqb].
    rewrite self_updateTelemetry, self_smoothTransition by exact Sm.
    cbn [motor]. rewrite R. cbn. eauto.
Qed.

(** X10: smooth drive calls restart the ramp clock.  On an engine with
    smoothing enabled whose motors are both at rest, run any script of
    smooth drive calls and polls in which every poll comes less than
    [SMOOTH_ACCEL_DELAY] (20) ms after the most recent drive call: no poll
    ever takes a ramp step, and neither motor is actuated or changed at
    all, however long the script. *)
Theorem X10_frequent_calls_starve_ramp (script : list (Z * Call)) :
  forall (last : Z) (st : State),
  _smoothEnabled (self st) = true ->
  at_rest (self st) ->
  _isAccelerating (self st) = false \/ _lastAccelUpdateTime (self st) = last ->
  starved last script = true ->
  forall ch : Channel, motor ch (self (run script st)) = motor ch (self st).
Proof.
  induction script as [ | [now c] script IH ]; intros last st Sm Re La St ch;
    cbn [run].
  - reflexivity.
  - assert (Poll : c = UpdateAcceleration ->
                   (ulong_sub now last <? SMOOTH_ACCEL_DELAY) = true ->
                   call now c st = st).
    { intros -> Lt. cbn [call]. apply updateAcceleration_not_due.
      unfold step_due. rewrite Sm.
      destruct La as [-> | ->]; [reflexivity | ].
      apply Z.ltb_lt in Lt.
      destruct (Z.leb_spec SMOOTH_ACCEL_DELAY (ulong_sub now last));
        [lia | apply andb_false_r]. }
    assert (Drive : smooth_drive c = true ->
                    _smoothEnabled (self (call now c st)) = true
                    /\ at_rest (self (call now c st))
                    /\ _lastAccelUpdateTime (self (call now c st)) = now
                    /\ forall ch, motor ch (self (call now c st)) = motor ch (self st)).
    { intros D. destruct (self_drive_at_rest now c st D Sm Re) as (ld & lp & rd & rp & E).
      rewrite E. unfold at_rest. simpl_mm.
      split; [exact Sm | ]. split; [exact Re | ]. split; [reflexivity | ].
      intros []; reflexivity. }
    destruct c as [ | p sm | p sm | p sm | p sm | | | | e | cal | cal | ];
      cbn [starved smooth_drive] in St;
      try discriminate;
      apply andb_true_iff in St; destruct St as [Sc St];
      try (destruct (Drive Sc) as (Sm' & Re' & La' & M);
           rewrite (IH now _ Sm' Re' (or_intror La') St ch); apply M).
    rewrite (Poll eq_refl Sc). apply (IH last st Sm Re La St ch).
Qed.

Lemma X10_frequent_calls_starve_ramp_witness :
  let st := call 0 Begin (initial 25 26 32 33 F32.one F32.one) in
  let script := [ (0, LeftForward 200 true); (10, UpdateAcceleration);
                  (15, LeftForward 200 true); (30, UpdateAcceleration);
                  (31, RightBackward 90 true); (50, UpdateAcceleration);
                  (50, LeftForward 200 true); (69, UpdateAcceleration) ] in
  (_smoothEnabled (self st) = true /\ at_rest (self st)
   /\ starved 0 script = true)
  /\ motor Left (self (run script st)) = motor Left (self st)
  /\ magnitudes (motor Left (self (run script st))) = [ (0, 0) ].
Proof.
  intros st script.
  assert (Sm : _smoothEnabled (self st) = true) by (vm_compute; reflexivity).
  assert (Re : at_rest (self st)) by (split; vm_compute; reflexivity).
  assert (La : _isAccelerating (self st) = false \/ _lastAccelUpdateTime (self st) = 0)
    by (left; vm_compute; reflexivity).
  assert (St : starved 0 script = true) by (vm_compute; reflexivity).
  pose proof (X10_frequent_calls_starve_ramp script 0 st Sm Re La St Left) as M.
  split; [ split; [exact Sm | split; [exact Re | exact St] ] | ].
  split; [exact M | ]. rewrite M. vm_compute. reflexivity.
Defined.

Lemma step_due_cycle (now : Z) (s s' : t) :
  cycle_of s' = cycle_of s -> _smoothEnabled s' = _smoothEnabled s ->
  step_due now s' = step_due now s.
Proof.
  unfold cycle_of, step_due. intros E Sm.
  assert (F : _lastAccelUpdateTime s' = _lastAccelUpdateTime s
              /\ _isAccelerating s' = _isAccelerating s) by (split; congruence).
  destruct F as [F1 F2]. rewrite Sm, F1, F2. reflexivity.
Qed.

(** The direction and power of a channel after a due ramp step depend on
    the cycle alone. *)
Lemma step_overrides (now : Z) (st : State) (s0 : t) (ch : Channel) :
  cycle_of (self st) = cycle_of s0 ->
  step_due now (self st) = true ->
  targetDirection ch s0 <> MOTOR_STOPPED ->
  Motor._direction (motor ch (self (updateAcceleration now st)))
  = targetDirection ch s0
  /\ Motor._power (motor ch (self (updateAcceleration now st)))
     = stepPower (_totalAccelSteps s0) (u8 (_currentAccelStep s0 + 1))
                 (targetPower ch s0).
Proof.
  intros E D T. rewrite (motor_after_step ch now st D). cbv zeta.
  assert (F : targetDirection ch (self st) = targetDirection ch s0
              /\ targetPower ch (self st) = targetPower ch s0
              /\ _totalAccelSteps (self st) = _totalAccelSteps s0
              /\ _currentAccelStep (self st) = _currentAccelStep s0).
  { unfold cycle_of in E.
    destruct ch; cbn [targetDirection targetPower]; repeat split; congruence. }
  destruct F as (F1 & F2 & F3 & F4). rewrite F1, F2, F3, F4.
  destruct (stepMotor_drives (targetDirection ch s0)
              (stepPower (_totalAccelSteps s0) (u8 (_currentAccelStep s0 + 1))
                         (targetPower ch s0))
              (motor ch (self st)) T) as (_ & Di & Po).
  auto.
Qed.

(** An immediate drive call is [Motor::forward] or [Motor::backward] on
    its own motor: the motor takes the call's direction and power and one
    [applyPower] call is made on its pins; the other motor and the ramp
    cycle are as before. *)
Lemma immediate_drive_acts (now p : Z) (ch0 : Channel) (forward : bool)
  (st : State) :
  let st1 := call now (immediate_drive ch0 forward p) st in
  let m := motor ch0 (self st) in
  (Motor._direction (motor ch0 (self st1))
   = (if forward then MOTOR_FORWARD else MOTOR_BACKWARD)
   /\ Motor._power (motor ch0 (self st1)) = p
   /\ Motor.sink (motor ch0 (self st1))
      = drive_actuation forward p (Motor._calibration m) :: Motor.sink m
   /\ motor (other ch0) (self st1) = motor (other ch0) (self st))
  /\ cycle_of (self st1) = cycle_of (self st)
  /\ _smoothEnabled (self st1) = _smoothEnabled (self st).
Proof.
  destruct ch0, forward; cbn [immediate_drive call];
    unfold leftForward, leftBackward, rightForward, rightBackward;
    cbn [andb]; cbv zeta; rewrite !self_updateTelemetry, !self_with_self;
    simpl_mm; unfold drive_actuation; motor_simpl;
    repeat split; reflexivity.
Qed.

(** X11: an immediate drive call does not cancel a pending ramp.  While a
    ramp step is due at [now'], a drive call with [smooth = false]
    (whatever its channel, direction and power) acts on its motor at once:
    the motor takes the call's direction and power and its pins are
    written once, with the calibrated power on the pin of that direction
    and 0 on the other; the other motor is untouched.  The call leaves the
    cycle as it is; the poll at [now'] then drives every channel whose ramp
    target is not stopped in the direction of that target, at the power of
    the ramp's next step, overriding the immediate command. *)
Theorem X11_immediate_call_overridden (now now' p : Z) (ch0 : Channel)
  (forward : bool) (st : State) :
  step_due now' (self st) = true ->
  let st1 := call now (immediate_drive ch0 forward p) st in
  let st2 := updateAcceleration now' st1 in
  let m := motor ch0 (self st) in
  (Motor._direction (motor ch0 (self st1))
   = (if forward then MOTOR_FORWARD else MOTOR_BACKWARD)
   /\ Motor._power (motor ch0 (self st1)) = p
   /\ Motor.sink (motor ch0 (self st1))
      = drive_actuation forward p (Motor._calibration m) :: Motor.sink m
   /\ motor (other ch0) (self st1) = motor (other ch0) (self st))
  /\ cycle_of (self st1) = cycle_of (self st)
  /\ forall ch : Channel,
       targetDirection ch (self st) <> MOTOR_STOPPED ->
       Motor._direction (motor ch (self st2)) = targetDirection ch (self st)
       /\ Motor._power (motor ch (self st2))
          = stepPower (_totalAccelSteps (self st))
                      (u8 (_currentAccelStep (self st) + 1))
                      (targetPower ch (self st)).
Proof.
  intros D st1 st2 m.
  destruct (immediate_drive_acts now p ch0 forward st) as (Acts & E & Sm).
  fold st1 in Acts, E, Sm. fold m in Acts.
  split; [exact Acts | ]. split; [exact E | ].
  intros ch T. apply step_overrides; try assumption.
  rewrite (step_due_cycle now' _ _ E Sm). exact D.
Qed.

Lemma X11_immediate_call_overridden_witness :
  let st1 := call 65 (LeftBackward 255 false) ramping_left in
  let st2 := updateAcceleration 80 st1 in
  (step_due 80 (self ramping_left) = true
   /\ targetDirection Left (self ramping_left) <> MOTOR_STOPPED)
  /\ Motor._direction (motor Left (self st1)) = MOTOR_BACKWARD
  /\ magnitudes (motor Left (self st1))
     = [ (0, 0); (20, 0); (40, 0); (60, 0); (0, 255) ]
  /\ Motor._direction (motor Left (self st2)) = targetDirection Left (self ramping_left)
  /\ magnitudes (motor Left (self st2))
     = [ (0, 0); (20, 0); (40, 0); (60, 0); (0, 255); (80, 0) ].
Proof.
  intros st1 st2.
  assert (D : step_due 80 (self ramping_left) = true) by (vm_compute; reflexivity).
  assert (T : targetDirection Left (self ramping_left) <> MOTOR_STOPPED)
    by (vm_compute; discriminate).
  destruct (X11_immediate_call_overridden 65 80 255 Left false ramping_left D)
    as ((Di1 & _) & _ & O).
  destruct (O Left T) as [Di _].
  split; [ split; [exact D | exact T] | ].
  split; [exact Di1 | ].
  split; [vm_compute; reflexivity | ].
  split; [exact Di | vm_compute; reflexivity].
Defined.

(** ** A ramp across a period with smoothing disabled *)

Lemma cycle_call_smoothing_off (now : Z) (c : Call) (st : State) :
  _smoothEnabled (self st) = false ->
  keeps_smoothing_off c = true ->
  not_stop c = true ->
  _smoothEnabled (self (call now c st)) = false
  /\ cycle_of (self (call now c st)) = cycle_of (self st).
Proof.
  intros Sm K N. rewrite (self_call_smoothing_off now c st Sm K). cbv zeta.
  destruct c; cbn [not_stop] in N; try discriminate; simpl_mm; auto.
Qed.

Lemma cycle_run_smoothing_off (script : list (Z * Call)) :
  forall st : State,
  _smoothEnabled (self st) = false ->
  forallb (fun nc => keeps_smoothing_off (snd nc) && not_stop (snd nc)) script = true ->
  _smoothEnabled (self (run script st)) = false
  /\ cycle_of (self (run script st)) = cycle_of (self st).
Proof.
  induction script as [ | [now c] script IH ]; intros st Sm K; cbn [run].
  - auto.
  - cbn [forallb snd] in K. apply andb_true_iff in K. destruct K as [Kc K].
    apply andb_true_iff in Kc. destruct Kc as [Kc Nc].
    destruct (cycle_call_smoothing_off now c st Sm Kc Nc) as [Sm' E'].
    destruct (IH _ Sm' K) as [Sm'' E'']. split; [exact Sm'' | congruence].
Qed.

(** X12: switching smoothing off does not cancel a ramp, it suspends it.
    With a ramp in progress, call [setSmoothEnabled(false)], then any
    script of calls other than [stop()] that leaves smoothing off (they all
    act at once, polls do nothing), then [setSmoothEnabled(true)]: the
    cycle is exactly as it was before, still in progress, and the first
    poll at least [SMOOTH_ACCEL_DELAY] ms after the ramp's last step drives
    every channel whose ramp target is not stopped in the direction of
    that target at the power of the ramp's next step, whatever the calls in
    between did to the motor, an immediate stop included. *)
Theorem X12_ramp_survives_smoothing_off (t1 t2 now : Z)
  (script : list (Z * Call)) (st : State) :
  _isAccelerating (self st) = true ->
  forallb (fun nc => keeps_smoothing_off (snd nc) && not_stop (snd nc)) script = true ->
  SMOOTH_ACCEL_DELAY <= ulong_sub now (_lastAccelUpdateTime (self st)) ->
  let st1 := run script (setSmoothEnabled t1 false st) in
  let st2 := setSmoothEnabled t2 true st1 in
  let st3 := updateAcceleration now st2 in
  cycle_of (self st2) = cycle_of (self st)
  /\ forall ch : Channel,
       targetDirection ch (self st) <> MOTOR_STOPPED ->
       Motor._direction (motor ch (self st3)) = targetDirection ch (self st)
       /\ Motor._power (motor ch (self st3))
          = stepPower (_totalAccelSteps (self st))
                      (u8 (_currentAccelStep (self st) + 1))
                      (targetPower ch (self st)).
Proof.
  intros A K Du st1 st2 st3.
  assert (Off : _smoothEnabled (self (setSmoothEnabled t1 false st)) = false
                /\ cycle_of (self (setSmoothEnabled t1 false st)) = cycle_of (self st)).
  { unfold setSmoothEnabled. rewrite self_updateTelemetry. auto. }
  destruct Off as [Sm0 E0].
  destruct (cycle_run_smoothing_off script _ Sm0 K) as [_ E1]. fold st1 in E1.
  assert (On : _smoothEnabled (self st2) = true
               /\ cycle_of (self st2) = cycle_of (self st1)).
  { subst st2. unfold setSmoothEnabled. rewrite self_updateTelemetry. auto. }
  destruct On as [Sm2 E2].
  assert (E : cycle_of (self st2) = cycle_of (self st)) by congruence.
  split; [exact E | ].
  intros ch T. apply step_overrides; try assumption.
  assert (F : _lastAccelUpdateTime (self st2) = _lastAccelUpdateTime (self st)
              /\ _isAccelerating (self st2) = _isAccelerating (self st))
    by (unfold cycle_of in E; split; congruence).
  destruct F as [EL EA].
  apply step_due_intro; [ congruence | exact Sm2 | rewrite EL; exact Du ].
Qed.

Lemma X12_ramp_survives_smoothing_off_witness :
  let script := [ (71, LeftStop); (75, UpdateAcceleration) ] in
  let st1 := run script (setSmoothEnabled 70 false ramping_left) in
  let st3 := updateAcceleration 95 (setSmoothEnabled 90 true st1) in
  (_isAccelerating (self ramping_left) = true
   /\ SMOOTH_ACCEL_DELAY <= ulong_sub 95 (_lastAccelUpdateTime (self ramping_left))
   /\ targetDirection Left (self ramping_left) <> MOTOR_STOPPED)
  /\ Motor._direction (motor Left (self st1)) = MOTOR_STOPPED
  /\ Motor._direction (motor Left (self st3)) = targetDirection Left (self ramping_left)
  /\ magnitudes (motor Left (self st3))
     = [ (0, 0); (20, 0); (40, 0); (60, 0); (0, 0); (80, 0) ].
Proof.
  intros script st1 st3.
  assert (A : _isAccelerating (self ramping_left) = true) by (vm_compute; reflexivity).
  assert (K : forallb (fun nc => keeps_smoothing_off (snd nc) && not_stop (snd nc))
                      script = true) by (vm_compute; reflexivity).
  assert (Du : SMOOTH_ACCEL_DELAY
               <= ulong_sub 95 (_lastAccelUpdateTime (self ramping_left)))
    by (vm_compute; discriminate).
  assert (T : targetDirection Left (self ramping_left) <> MOTOR_STOPPED)
    by (vm_compute; discriminate).
  destruct (X12_ramp_survives_smoothing_off 70 90 95 script ramping_left A K Du)
    as [_ O].
  destruct (O Left T) as [Di _].
  split; [ split; [exact A | split; [exact Du | exact T] ] | ].
  split; [ vm_compute; reflexivity | ].
  split; [exact Di | vm_compute; reflexivity].
Defined.

(** ** ControllerHandler: joysticks *)

Lemma s16_range (z : Z) : -32768 <= s16 z <= 32767.
Proof. unfold s16. pose proof (Z.mod_pos_bound (z + 32768) 65536). lia. Qed.

Lemma motorPower_div (joystickY : Z) :
  ControllerHandler.motorPower joystickY = Z.abs joystickY * 255 / 32767.
Proof.
  unfold ControllerHandler.motorPower, Arduino.map.
  rewrite !Z.sub_0_r, Z.add_0_r. apply Z.quot_div_nonneg; lia.
Qed.

Lemma motorPower_range (joystickY : Z) :
  -32768 <= joystickY <= 32767 ->
  0 <= ControllerHandler.motorPower joystickY <= 255
  /\ (5000 <= Z.abs joystickY -> 38 <= ControllerHandler.motorPower joystickY).
Proof.
  intros R. rewrite motorPower_div. split; [ split | ].
  - apply Z.div_pos; lia.
  - assert (Z.abs joystickY * 255 / 32767 < 256); [ | lia ].
    apply Z.div_lt_upper_bound; lia.
  - intros H. apply Z.div_le_lower_bound; lia.
Qed.

(** X13: how [handleMovement] turns a joystick value into a power.  For
    every raw axis value, after conversion to [int16_t]: inside the dead
    zone (absolute value below 5000) the value is replaced by 0 and the
    mapped power is 0; outside, the value is kept and the power is
    [|y| * 255 / 32767] rounded down, which lies in [38, 255], so no power
    between 1 and 37 is ever commanded.  The power fits [uint8_t], it grows
    with the deflection, and both extremes, 32767 and -32768, give 255. *)
Theorem X13_joystick_power (raw : Z) :
  let y := ControllerHandler.deadZone (s16 raw) in
  let p := ControllerHandler.motorPower y in
  (Z.abs (s16 raw) < ControllerHandler.JOYSTICK_DEAD_ZONE -> y = 0 /\ p = 0)
  /\ (ControllerHandler.JOYSTICK_DEAD_ZONE <= Z.abs (s16 raw) ->
      y = s16 raw /\ 38 <= p <= 255)
  /\ p = Z.abs y * 255 / 32767
  /\ u8 p = p
  /\ (forall raw',
        Z.abs y <= Z.abs (ControllerHandler.deadZone (s16 raw')) ->
        p <= ControllerHandler.motorPower (ControllerHandler.deadZone (s16 raw')))
  /\ ControllerHandler.motorPower (ControllerHandler.deadZone (s16 32767)) = 255
  /\ ControllerHandler.motorPower (ControllerHandler.deadZone (s16 (-32768))) = 255.
Proof.
  intros y p. pose proof (s16_range raw) as R.
  assert (Y : y = if Z.abs (s16 raw) <? 5000 then 0 else s16 raw) by reflexivity.
  assert (Ry : -32768 <= y <= 32767).
  { rewrite Y. destruct (Z.abs (s16 raw) <? 5000); lia. }
  destruct (motorPower_range y Ry) as [P0 P1]. fold p in P0, P1.
  unfold ControllerHandler.JOYSTICK_DEAD_ZONE.
  split; [ | split; [ | split; [ | split; [ | split; [ | split ] ] ] ] ].
  - intros H. apply Z.ltb_lt in H.
    assert (y = 0) as Y0 by (rewrite Y, H; reflexivity).
    split; [exact Y0 | ]. subst p. rewrite Y0. reflexivity.
  - intros H.
    assert (y = s16 raw) as Y1.
    { rewrite Y. destruct (Z.ltb_spec (Z.abs (s16 raw)) 5000); [lia | reflexivity]. }
    split; [exact Y1 | ]. split; [ apply P1; rewrite Y1; exact H | lia ].
  - apply motorPower_div.
  - unfold u8. apply Z.mod_small. lia.
  - intros raw' H. subst p. rewrite !motorPower_div.
    apply Z.div_le_mono; lia.
  - reflexivity.
  - reflexivity.
Qed.

Lemma X13_joystick_power_witness :
  (ControllerHandler.JOYSTICK_DEAD_ZONE <= Z.abs (s16 (-20000))
   /\ Z.abs (s16 4999) < ControllerHandler.JOYSTICK_DEAD_ZONE)
  /\ ControllerHandler.deadZone (s16 (-20000)) = -20000
  /\ 38 <= ControllerHandler.motorPower (ControllerHandler.deadZone (s16 (-20000))) <= 255
  /\ ControllerHandler.motorPower (ControllerHandler.deadZone (s16 4999)) = 0.
Proof.
  assert (A : ControllerHandler.JOYSTICK_DEAD_ZONE <= Z.abs (s16 (-20000)))
    by (vm_compute; discriminate).
  assert (B : Z.abs (s16 4999) < ControllerHandler.JOYSTICK_DEAD_ZONE)
    by (vm_compute; reflexivity).
  destruct (X13_joystick_power (-20000)) as (_ & Out & _).
  destruct (X13_joystick_power 4999) as (In & _).
  destruct (Out A) as [Y P]. destruct (In B) as [_ Z0].
  split; [ split; [exact A | exact B] | ].
  split; [exact Y | ]. split; [exact P | exact Z0].
Defined.

Lemma handleMovement_calls (now : Z) (c : ControllerHandler.Controller)
  (w : ControllerHandler.t) :
  ControllerHandler.handleMovement now c w
  = ControllerHandler.set_motors
      (call now (right_call (ControllerHandler.deadZone (s16 (ControllerHandler.axisRY c))))
         (call now (left_call (ControllerHandler.deadZone (s16 (ControllerHandler.axisY c))))
            (ControllerHandler.motors w)))
      w.
Proof.
  unfold ControllerHandler.handleMovement, left_call, right_call. cbv zeta.
  generalize (ControllerHandler.deadZone (s16 (ControllerHandler.axisY c))) as yl.
  generalize (ControllerHandler.deadZone (s16 (ControllerHandler.axisRY c))) as yr.
  intros yr yl.
  destruct (0 <? yl); [ | destruct (yl <? 0) ];
    (destruct (0 <? yr); [ | destruct (yr <? 0) ]);
    cbn [call]; reflexivity.
Qed.

(** ** ControllerHandler: buttons *)

Lemma left_call_ok (joystickY : Z) :
  call_ok (fun _ => True) (fun _ => False) (left_call joystickY).
Proof.
  unfold left_call. destruct (0 <? joystickY); [exact I | ].
  destruct (joystickY <? 0); exact I.
Qed.

Lemma right_call_ok (joystickY : Z) :
  call_ok (fun _ => True) (fun _ => False) (right_call joystickY).
Proof.
  unfold right_call. destruct (0 <? joystickY); [exact I | ].
  destruct (joystickY <? 0); exact I.
Qed.

(** No call but the two calibration setters changes a calibration. *)
Lemma calibration_frame_call (now : Z) (c : Call) (st : State) :
  call_ok (fun _ => True) (fun _ => False) c ->
  getLeftCalibration (call now c st) = getLeftCalibration st
  /\ getRightCalibration (call now c st) = getRightCalibration st.
Proof.
  intros Hc.
  assert (G : guarded (fun ch m => Motor._calibration m
                                   = Motor._calibration (motor ch (self st)))
                      (fun _ => True) (self (call now c st))).
  { apply (guarded_call _ (fun _ => True) (fun _ => False)).
    - intros ch p m _ H. motor_simpl. exact H.
    - intros ch p m _ H. motor_simpl. exact H.
    - intros ch m H. motor_simpl. exact H.
    - intros ch cal m [].
    - intros; exact I.
    - exact I.
    - exact Hc.
    - unfold guarded. auto. }
  destruct G as (_ & _ & L & R). split; assumption.
Qed.

Lemma calibration_state_handleMovement (now : Z) (c : ControllerHandler.Controller)
  (w : ControllerHandler.t) :
  calibration_state (ControllerHandler.handleMovement now c w) = calibration_state w
  /\ ControllerHandler._lastButtonPressTime (ControllerHandler.handleMovement now c w)
     = ControllerHandler._lastButtonPressTime w
  /\ debug_state (ControllerHandler.handleMovement now c w) = debug_state w.
Proof.
  rewrite handleMovement_calls.
  unfold calibration_state, debug_state, ControllerHandler.set_motors.
  cbn [ControllerHandler.motors ControllerHandler.prefs
       ControllerHandler._lastButtonPressTime ControllerHandler.logger
       ControllerHandler.enableAccelerometerDebug
       ControllerHandler.enableGyroscopeDebug
       ControllerHandler.enableControllerDebug].
  split; [ | split; reflexivity ].
  destruct (calibration_frame_call now _ (ControllerHandler.motors w)
              (left_call_ok (ControllerHandler.deadZone
                               (s16 (ControllerHandler.axisY c))))) as [L1 R1].
  destruct (calibration_frame_call now _
              (call now (left_call (ControllerHandler.deadZone
                                      (s16 (ControllerHandler.axisY c))))
                    (ControllerHandler.motors w))
              (right_call_ok (ControllerHandler.deadZone
                                (s16 (ControllerHandler.axisRY c))))) as [L2 R2].
  rewrite L2, R2, L1, R1. reflexivity.
Qed.

Lemma canProcessButton_false (now : Z) (w : ControllerHandler.t) :
  ulong_sub now (ControllerHandler._lastButtonPressTime w)
  <= ControllerHandler.DEBOUNCE_DELAY ->
  ControllerHandler.canProcessButton now w = false.
Proof. intros H. unfold ControllerHandler.canProcessButton. apply Z.ltb_ge, H. Qed.

(** X14: the debounce window.  While at most [DEBOUNCE_DELAY] (300) ms have
    passed on the wrapping clock since the last accepted button press, the
    calibration and the debug handlers change nothing, whatever buttons are
    held, and [processController] only handles the joysticks; a press is
    accepted only strictly more than 300 ms after the last one.  The press
    time starts at 0, so this covers the first 300 ms after boot. *)
Theorem X14_debounce_window (now : Z) (c : ControllerHandler.Controller)
  (w : ControllerHandler.t) :
  ulong_sub now (ControllerHandler._lastButtonPressTime w)
  <= ControllerHandler.DEBOUNCE_DELAY ->
  ControllerHandler.handleCalibrationButtons now c w = w
  /\ ControllerHandler.handleDebugButtons now c w = w
  /\ ControllerHandler.processController now (Some c) w
     = ControllerHandler.handleMovement now c w
  /\ (forall m p, ControllerHandler._lastButtonPressTime (ControllerHandler.begin m p) = 0).
Proof.
  intros H.
  assert (A : forall w', ControllerHandler._lastButtonPressTime w'
                         = ControllerHandler._lastButtonPressTime w ->
              ControllerHandler.handleCalibrationButtons now c w' = w'
              /\ ControllerHandler.handleDebugButtons now c w' = w').
  { intros w' E. rewrite <- E in H.
    unfold ControllerHandler.handleCalibrationButtons,
           ControllerHandler.handleDebugButtons.
    rewrite (canProcessButton_false now w' H). auto. }
  destruct (A w eq_refl) as [A1 A2].
  split; [exact A1 | ]. split; [exact A2 | ]. split; [ | reflexivity ].
  cbn [ControllerHandler.processController]. cbv zeta.
  destruct (calibration_state_handleMovement now c w) as (_ & T & _).
  destruct (A _ T) as [B1 B2]. rewrite B1, B2. reflexivity.
Qed.

Lemma X14_debounce_window_witness :
  let w := ControllerHandler.begin example_state [] in
  let c := ControllerHandler.mkController 0 0 true false 0
             true true false false false false in
  ulong_sub 300 (ControllerHandler._lastButtonPressTime w)
  <= ControllerHandler.DEBOUNCE_DELAY
  /\ ControllerHandler.handleCalibrationButtons 300 c w = w
  /\ ControllerHandler.handleCalibrationButtons 301 c w <> w.
Proof.
  intros w c.
  assert (H : ulong_sub 300 (ControllerHandler._lastButtonPressTime w)
              <= ControllerHandler.DEBOUNCE_DELAY) by (vm_compute; discriminate).
  split; [exact H | ].
  split; [ apply (X14_debounce_window 300 c w H) | ].
  intros E. apply (f_equal ControllerHandler._lastButtonPressTime) in E.
  vm_compute in E. discriminate E.
Defined.

Lemma ulong_sub_diag (now : Z) : ulong_sub now now = 0.
Proof. unfold ulong_sub, ulong. rewrite Z.sub_diag. reflexivity. Qed.

Lemma handleDebugButtons_just_pressed (now : Z) (c : ControllerHandler.Controller)
  (w : ControllerHandler.t) :
  ControllerHandler._lastButtonPressTime w = now ->
  ControllerHandler.handleDebugButtons now c w = w.
Proof.
  intros E. unfold ControllerHandler.handleDebugButtons.
  rewrite canProcessButton_false; [ reflexivity | ].
  rewrite E, ulong_sub_diag. unfold ControllerHandler.DEBOUNCE_DELAY. lia.
Qed.

Lemma calibration_state_set_right (now : Z) (cal : F32.float) (st : State) :
  getLeftCalibration (setRightCalibration now cal st) = getLeftCalibration st
  /\ getRightCalibration (setRightCalibration now cal st)
     = F32.constrain cal F32.zero F32.one.
Proof.
  unfold getLeftCalibration, getRightCalibration, setRightCalibration.
  rewrite self_updateTelemetry. split; reflexivity.
Qed.

Lemma calibration_state_set_left (now : Z) (cal : F32.float) (st : State) :
  getRightCalibration (setLeftCalibration now cal st) = getRightCalibration st
  /\ getLeftCalibration (setLeftCalibration now cal st)
     = F32.constrain cal F32.zero F32.one.
Proof.
  unfold getLeftCalibration, getRightCalibration, setLeftCalibration.
  rewrite self_updateTelemetry. split; reflexivity.
Qed.

(** What [handleCalibrationButtons] does when a press is accepted: one of
    the two calibration bodies runs, or nothing. *)
Lemma handleCalibrationButtons_cases (now : Z) (c : ControllerHandler.Controller)
  (w : ControllerHandler.t) :
  ControllerHandler.canProcessButton now w = true ->
  let w' := ControllerHandler.handleCalibrationButtons now c w in
  (calibration_button c = false /\ w' = w)
  \/ (calibration_button c = true
      /\ exists f, w' = ControllerHandler.calibrateRight now
                          (F32.constrain f F32.zero F32.one) w
                   \/ w' = ControllerHandler.calibrateLeft now
                             (F32.constrain f F32.zero F32.one) w).
Proof.
  intros P w'. subst w'.
  unfold ControllerHandler.handleCalibrationButtons, calibration_button.
  rewrite P. cbn [negb].
  destruct (ControllerHandler.a c); [ right; split; [reflexivity | eauto] | ].
  destruct (ControllerHandler.y c); [ right; split; [reflexivity | eauto] | ].
  destruct (ControllerHandler.dpad c =? ControllerHandler.DPAD_UP);
    [ right; split; [reflexivity | eauto] | ].
  destruct (ControllerHandler.dpad c =? ControllerHandler.DPAD_DOWN);
    [ right; split; [reflexivity | eauto] | ].
  left. auto.
Qed.

(** X15: one button action per call.  When a press can be accepted and a
    calibration or debug button is held, [processController] performs one
    action and records the time, which opens the debounce window: if a
    calibration button is held, one of the two calibrations is left as it
    is and the debug buttons held in the same call are ignored (the logger
    and the debug flags are untouched); if none is, no calibration and no
    saved preference changes. *)
Theorem X15_one_button_action_per_call (now : Z)
  (c : ControllerHandler.Controller) (w : ControllerHandler.t) :
  ControllerHandler.canProcessButton now w = true ->
  calibration_button c || debug_button c = true ->
  let w' := ControllerHandler.processController now (Some c) w in
  ControllerHandler._lastButtonPressTime w' = now
  /\ (calibration_button c = true ->
      debug_state w' = debug_state w
      /\ (getLeftCalibration (ControllerHandler.motors w')
          = getLeftCalibration (ControllerHandler.motors w)
          \/ getRightCalibration (ControllerHandler.motors w')
             = getRightCalibration (ControllerHandler.motors w)))
  /\ (calibration_button c = false -> calibration_state w' = calibration_state w).
Proof.
  intros P B w'. subst w'. cbn [ControllerHandler.processController]. cbv zeta.
  destruct (calibration_state_handleMovement now c w) as (CS & T & DS).
  set (w1 := ControllerHandler.handleMovement now c w) in *.
  assert (P1 : ControllerHandler.canProcessButton now w1 = true).
  { unfold ControllerHandler.canProcessButton in *. rewrite T. exact P. }
  destruct (handleCalibrationButtons_cases now c w1 P1) as [[N E] | [Y [f E]]].
  - (* no calibration button: a debug button acts *)
    rewrite E. rewrite N in B. cbn [orb] in B.
    unfold ControllerHandler.handleDebugButtons. rewrite P1. cbn [negb].
    unfold debug_button in B.
    destruct (ControllerHandler.l1 c && ControllerHandler.r1 c);
      [ | destruct (ControllerHandler.l2 c && ControllerHandler.r2 c);
          [ | destruct (ControllerHandler.x c);
              [ | destruct (ControllerHandler.b c); [ | discriminate B ] ] ] ];
      (split; [ reflexivity | ]; split; [ congruence | ]; intros _;
       rewrite <- CS; reflexivity).
  - (* a calibration button acts, the debug handler is debounced *)
    assert (T2 : ControllerHandler._lastButtonPressTime
                   (ControllerHandler.handleCalibrationButtons now c w1) = now)
      by (destruct E as [-> | ->]; reflexivity).
    rewrite (handleDebugButtons_just_pressed now c _ T2).
    split; [exact T2 | ]. split; [ | congruence ].
    intros _. unfold calibration_state in CS.
    assert (CL : getLeftCalibration (ControllerHandler.motors w1)
                 = getLeftCalibration (ControllerHandler.motors w)) by congruence.
    assert (CR : getRightCalibration (ControllerHandler.motors w1)
                 = getRightCalibration (ControllerHandler.motors w)) by congruence.
    split.
    + rewrite <- DS. destruct E as [-> | ->]; reflexivity.
    + destruct E as [-> | ->].
      * left. rewrite <- CL.
        apply (calibration_state_set_right now _ (ControllerHandler.motors w1)).
      * right. rewrite <- CR.
        apply (calibration_state_set_left now _ (ControllerHandler.motors w1)).
Qed.

Lemma X15_one_button_action_per_call_witness :
  let w := ControllerHandler.begin example_state [] in
  let c := ControllerHandler.mkController 0 0 true false 0
             true true false false false false in
  let w' := ControllerHandler.processController 301 (Some c) w in
  (ControllerHandler.canProcessButton 301 w = true
   /\ calibration_button c || debug_button c = true)
  /\ ControllerHandler._lastButtonPressTime w' = 301
  /\ debug_state w' = debug_state w.
Proof.
  intros w c w'.
  assert (P : ControllerHandler.canProcessButton 301 w = true) by reflexivity.
  assert (B : calibration_button c || debug_button c = true) by reflexivity.
  destruct (X15_one_button_action_per_call 301 c w P B) as (T & D & _).
  destruct (D eq_refl) as [D1 _].
  split; [ split; [exact P | exact B] | ].
  split; [exact T | exact D1].
Defined.

(** ** ControllerHandler: saved calibrations *)

Lemma prefs_in_sync_same (w w' : ControllerHandler.t) :
  calibration_state w' = calibration_state w ->
  prefs_in_sync w -> prefs_in_sync w'.
Proof.
  unfold calibration_state, prefs_in_sync. intros E [L R].
  injection E as EL ER EP. rewrite EL, ER, EP. split; assumption.
Qed.

Lemma prefs_in_sync_calibrateRight (now : Z) (f : F32.float) (w : ControllerHandler.t) :
  prefs_in_sync w ->
  prefs_in_sync (ControllerHandler.calibrateRight now
                   (F32.constrain f F32.zero F32.one) w).
Proof.
  intros [L R]. unfold prefs_in_sync, ControllerHandler.calibrateRight.
  cbn [ControllerHandler.motors ControllerHandler.prefs].
  destruct (calibration_state_set_right now (F32.constrain f F32.zero F32.one)
              (ControllerHandler.motors w)) as [EL ER].
  rewrite EL, ER, constrain_idempotent. unfold Preferences.putFloat. split.
  - intros v. cbn [Preferences.getFloat]. 
    change (String.eqb "rightCal" "leftCal") with false. cbv iota. apply L.
  - intros v. cbn [Preferences.getFloat].
    change (String.eqb "rightCal" "rightCal") with true. cbv iota. congruence.
Qed.

Lemma prefs_in_sync_calibrateLeft (now : Z) (f : F32.float) (w : ControllerHandler.t) :
  prefs_in_sync w ->
  prefs_in_sync (ControllerHandler.calibrateLeft now
                   (F32.constrain f F32.zero F32.one) w).
Proof.
  intros [L R]. unfold prefs_in_sync, ControllerHandler.calibrateLeft.
  cbn [ControllerHandler.motors ControllerHandler.prefs].
  destruct (calibration_state_set_left now (F32.constrain f F32.zero F32.one)
              (ControllerHandler.motors w)) as [ER EL].
  rewrite EL, ER, constrain_idempotent. unfold Preferences.putFloat. split.
  - intros v. cbn [Preferences.getFloat].
    change (String.eqb "leftCal" "leftCal") with true. cbv iota. congruence.
  - intros v. cbn [Preferences.getFloat].
    change (String.eqb "leftCal" "rightCal") with false. cbv iota. apply R.
Qed.

Lemma calibration_state_handleDebugButtons (now : Z)
  (c : ControllerHandler.Controller) (w : ControllerHandler.t) :
  calibration_state (ControllerHandler.handleDebugButtons now c w)
  = calibration_state w.
Proof.
  unfold ControllerHandler.handleDebugButtons.
  destruct (negb _); [reflexivity | ].
  destruct (_ && _); [reflexivity | ].
  destruct (_ && _); [reflexivity | ].
  destruct (ControllerHandler.x c); [reflexivity | ].
  destruct (ControllerHandler.b c); reflexivity.
Qed.

Lemma prefs_in_sync_handleCalibrationButtons (now : Z)
  (c : ControllerHandler.Controller) (w : ControllerHandler.t) :
  prefs_in_sync w ->
  prefs_in_sync (ControllerHandler.handleCalibrationButtons now c w).
Proof.
  intros H.
  destruct (ControllerHandler.canProcessButton now w) eqn:P.
  - destruct (handleCalibrationButtons_cases now c w P)
      as [[_ ->] | [_ [f [-> | ->]]]].
    + exact H.
    + apply prefs_in_sync_calibrateRight, H.
    + apply prefs_in_sync_calibrateLeft, H.
  - unfold ControllerHandler.handleCalibrationButtons. rewrite P. exact H.
Qed.

Lemma prefs_in_sync_step (now : Z) (e : LoopEvent) (w : ControllerHandler.t) :
  prefs_in_sync w -> prefs_in_sync (loop_step now e w).
Proof.
  intros H. destruct e as [[c | ] | ]; cbn [loop_step ControllerHandler.processController].
  - cbv zeta.
    apply (prefs_in_sync_same _ _ (calibration_state_handleDebugButtons now c _)).
    apply prefs_in_sync_handleCalibrationButtons.
    apply (prefs_in_sync_same w); [ | exact H ].
    apply calibration_state_handleMovement.
  - exact H.
  - apply (prefs_in_sync_same w); [ | exact H ].
    unfold calibration_state, ControllerHandler.set_motors.
    cbn [ControllerHandler.motors ControllerHandler.prefs].
    destruct (calibration_frame_call now UpdateAcceleration
                (ControllerHandler.motors w) I) as [L R].
    cbn [call] in L, R. rewrite L, R. reflexivity.
Qed.

(** X16: a saved calibration is the calibration in use.  If every
    calibration found in the preference store under ["leftCal"] or
    ["rightCal"] is the calibration of its motor, then this is still so
    after every sequence of [processController] calls and ramp polls:
    a calibration button clamps the stepped value once, and the value it
    saves is exactly the value the motor then holds (the second clamp in
    [setCalibration] changes nothing); joysticks, debug buttons and ramp
    steps touch neither. *)
Theorem X16_saved_calibration_in_use (script : list (Z * LoopEvent)) :
  forall w : ControllerHandler.t,
  prefs_in_sync w -> prefs_in_sync (loop_run script w).
Proof.
  induction script as [ | [now e] script IH ]; intros w H; cbn [loop_run].
  - exact H.
  - apply IH, prefs_in_sync_step, H.
Qed.

Lemma X16_saved_calibration_in_use_witness :
  let w := ControllerHandler.begin example_state [] in
  let press_a := ControllerHandler.mkController 0 20000 true false 0
                   false false false false false false in
  let script := [ (301, Process (Some press_a)); (330, Poll);
                  (700, Process (Some press_a)) ] in
  prefs_in_sync w
  /\ prefs_in_sync (loop_run script w)
  /\ Preferences.getFloat "rightCal" (ControllerHandler.prefs (loop_run script w))
     = Some (getRightCalibration (ControllerHandler.motors (loop_run script w)))
  /\ Preferences.getFloat "rightCal" (ControllerHandler.prefs (loop_run script w))
     = Some (S754_finite false 15099494 (-24)).
Proof.
  intros w press_a script.
  assert (H : prefs_in_sync w) by (split; intros v E; discriminate E).
  split; [exact H | ].
  split; [ exact (X16_saved_calibration_in_use script w H) | ].
  split; vm_compute; reflexivity.
Defined.

(** ** ControllerHandler: releasing a joystick *)

Lemma smoothEnabled_updateAcceleration (now : Z) (st : State) :
  _smoothEnabled (self (updateAcceleration now st)) = _smoothEnabled (self st).
Proof.
  destruct (step_due now (self st)) eqn:D.
  - rewrite (updateAcceleration_due now st D). reflexivity.
  - rewrite (updateAcceleration_not_due now st D). reflexivity.
Qed.

(** Closes a goal about a drive call by cases on the branch it takes: no
    change, or one of the three smooth operations, whose effects are given
    by [Acc], [Dec] and [Tra]. *)
Ltac by_smooth_branch Same Acc Dec Tra dir p :=
  reduce_self;
  first [ exact Same
        | destruct (Acc dir p) as (? & ? & ?); now auto
        | destruct (Dec dir p) as (? & ? & ?); now auto
        | destruct (Tra dir p) as (? & ? & ?); now auto ].

(** With smoothing enabled, the call [handleMovement] makes for one
    joystick leaves the other channel's motor as it is, and leaves the
    other channel's ramp target stopped if it was. *)
Lemma other_channel_untouched (now : Z) (ch : Channel) (joystickY : Z) (st : State) :
  _smoothEnabled (self st) = true ->
  let st' := call now (channel_call ch joystickY) st in
  _smoothEnabled (self st') = true
  /\ motor (other ch) (self st') = motor (other ch) (self st)
  /\ (targetDirection (other ch) (self st) = MOTOR_STOPPED ->
      targetDirection (other ch) (self st') = MOTOR_STOPPED).
Proof.
  intros Sm st'. subst st'.
  assert (Smooth : forall op dir p,
            In op [smoothAccelerate; smoothDecelerate; smoothTransition] ->
            _smoothEnabled (self (op now ch dir p defaultParams st)) = true
            /\ motor (other ch) (self (op now ch dir p defaultParams st))
               = motor (other ch) (self st)
            /\ targetDirection (other ch) (self (op now ch dir p defaultParams st))
               = MOTOR_STOPPED).
  { intros op dir p [<- | [<- | [<- | []]]].
    - rewrite self_smoothAccelerate by exact Sm. destruct ch; simpl_mm; auto.
    - rewrite self_smoothDecelerate by exact Sm. cbv zeta.
      destruct ch; simpl_mm; auto.
    - rewrite self_smoothTransition by exact Sm. cbv zeta.
      destruct (negb _ && negb _); destruct ch; simpl_mm; auto. }
  pose proof (fun dir p => Smooth smoothAccelerate dir p (or_introl eq_refl)) as Acc.
  pose proof (fun dir p => Smooth smoothDecelerate dir p
                             (or_intror (or_introl eq_refl))) as Dec.
  pose proof (fun dir p => Smooth smoothTransition dir p
                             (or_intror (or_intror (or_introl eq_refl)))) as Tra.
  assert (Same : _smoothEnabled (self st) = true
                 /\ motor (other ch) (self st) = motor (other ch) (self st)
                 /\ (targetDirection (other ch) (self st) = MOTOR_STOPPED ->
                     targetDirection (other ch) (self st) = MOTOR_STOPPED))
    by auto.
  set (p := u8 (ControllerHandler.motorPower joystickY)).
  destruct ch; cbn [channel_call]; unfold left_call, right_call; fold p;
    (destruct (0 <? joystickY); [ | destruct (joystickY <? 0) ]); cbn [call].
  - unfold leftForward. rewrite Sm. cbn [andb].
    by_smooth_branch Same Acc Dec Tra MOTOR_FORWARD p.
  - unfold leftBackward. rewrite Sm. cbn [andb].
    by_smooth_branch Same Acc Dec Tra MOTOR_BACKWARD p.
  - rewrite self_leftStop, Sm. cbn [andb]. destruct (0 <? _); simpl_mm; auto.
  - unfold rightForward. rewrite Sm. cbn [andb].
    by_smooth_branch Same Acc Dec Tra MOTOR_FORWARD p.
  - unfold rightBackward. rewrite Sm. cbn [andb].
    by_smooth_branch Same Acc Dec Tra MOTOR_BACKWARD p.
  - rewrite self_rightStop, Sm. cbn [andb]. destruct (0 <? _); simpl_mm; auto.
Qed.

(** With smoothing enabled, the stop call [handleMovement] makes for a
    released joystick leaves a motor whose power is above 0 as it is and
    sets the channel's ramp target to stopped. *)
Lemma released_channel_untouched (now : Z) (ch : Channel) (st : State) :
  _smoothEnabled (self st) = true ->
  0 < Motor._power (motor ch (self st)) ->
  let st' := call now (channel_call ch 0) st in
  _smoothEnabled (self st') = true
  /\ motor ch (self st') = motor ch (self st)
  /\ targetDirection ch (self st') = MOTOR_STOPPED.
Proof.
  intros Sm Hp st'. subst st'. apply Z.ltb_lt in Hp.
  destruct ch; cbn [channel_call call motor] in *;
    change (left_call 0) with LeftStop; change (right_call 0) with RightStop;
    cbn [call].
  - rewrite self_leftStop, Sm, Hp. cbn [andb]. simpl_mm. auto.
  - rewrite self_rightStop, Sm, Hp. cbn [andb]. simpl_mm. auto.
Qed.

Lemma deadZone_released (raw : Z) :
  (Z.abs (s16 raw) <? ControllerHandler.JOYSTICK_DEAD_ZONE) = true ->
  ControllerHandler.deadZone (s16 raw) = 0.
Proof. intros H. unfold ControllerHandler.deadZone. rewrite H. reflexivity. Qed.

Lemma coasting_handleMovement (now : Z) (ch : Channel)
  (c : ControllerHandler.Controller) (w : ControllerHandler.t) :
  _smoothEnabled (self (ControllerHandler.motors w)) = true ->
  0 < Motor._power (motor ch (self (ControllerHandler.motors w))) ->
  stick_released ch (Process (Some c)) = true ->
  coasting ch (motion_view (motor ch (self (ControllerHandler.motors w))))
           (self (ControllerHandler.motors (ControllerHandler.handleMovement now c w))).
Proof.
  intros Sm Hp Re. cbn [stick_released] in Re.
  rewrite handleMovement_calls. cbn [ControllerHandler.set_motors ControllerHandler.motors].
  unfold coasting. destruct ch; cbn [axis] in Re; rewrite (deadZone_released _ Re).
  - destruct (released_channel_untouched now Left _ Sm Hp) as (Sm1 & M1 & T1).
    destruct (other_channel_untouched now Right
                (ControllerHandler.deadZone (s16 (ControllerHandler.axisRY c)))
                _ Sm1) as (Sm2 & M2 & T2).
    cbn [channel_call other] in *.
    split; [exact Sm2 | ]. split; [exact (T2 T1) | ]. rewrite M2, M1. reflexivity.
  - destruct (other_channel_untouched now Left
                (ControllerHandler.deadZone (s16 (ControllerHandler.axisY c)))
                _ Sm) as (Sm1 & M1 & _).
    cbn [channel_call other] in *. rewrite <- M1 in Hp.
    destruct (released_channel_untouched now Right _ Sm1 Hp) as (Sm2 & M2 & T2).
    cbn [channel_call] in *.
    split; [exact Sm2 | ]. split; [exact T2 | ]. rewrite M2, M1. reflexivity.
Qed.

Lemma coasting_setCalibration (ch : Channel) (v : MotorDirection * Z * list Actuation)
  (now : Z) (cal : F32.float) (st : State) :
  coasting ch v (self st) ->
  coasting ch v (self (setRightCalibration now cal st))
  /\ coasting ch v (self (setLeftCalibration now cal st)).
Proof.
  intros (Sm & T & V). unfold setRightCalibration, setLeftCalibration.
  rewrite !self_updateTelemetry. unfold coasting.
  destruct ch; simpl_mm; auto.
Qed.

Lemma motors_handleDebugButtons (now : Z) (c : ControllerHandler.Controller)
  (w : ControllerHandler.t) :
  ControllerHandler.motors (ControllerHandler.handleDebugButtons now c w)
  = ControllerHandler.motors w.
Proof.
  unfold ControllerHandler.handleDebugButtons.
  destruct (negb _); [reflexivity | ].
  destruct (_ && _); [reflexivity | ].
  destruct (_ && _); [reflexivity | ].
  destruct (ControllerHandler.x c); [reflexivity | ].
  destruct (ControllerHandler.b c); reflexivity.
Qed.

Lemma coasting_handleCalibrationButtons (ch : Channel)
  (v : MotorDirection * Z * list Actuation) (now : Z)
  (c : ControllerHandler.Controller) (w : ControllerHandler.t) :
  coasting ch v (self (ControllerHandler.motors w)) ->
  coasting ch v (self (ControllerHandler.motors
                         (ControllerHandler.handleCalibrationButtons now c w))).
Proof.
  intros H.
  destruct (ControllerHandler.canProcessButton now w) eqn:P.
  - destruct (handleCalibrationButtons_cases now c w P)
      as [[_ ->] | [_ [f [-> | ->]]]].
    + exact H.
    + exact (proj1 (coasting_setCalibration ch v now _ _ H)).
    + exact (proj2 (coasting_setCalibration ch v now _ _ H)).
  - unfold ControllerHandler.handleCalibrationButtons. rewrite P. exact H.
Qed.

Lemma coasting_step (ch : Channel) (v : MotorDirection * Z * list Actuation)
  (now : Z) (e : LoopEvent) (w : ControllerHandler.t) :
  0 < snd (fst v) ->
  stick_released ch e = true ->
  coasting ch v (self (ControllerHandler.motors w)) ->
  coasting ch v (self (ControllerHandler.motors (loop_step now e w))).
Proof.
  intros Hp Re (Sm & T & V).
  destruct e as [[c | ] | ]; cbn [loop_step ControllerHandler.processController].
  - cbv zeta. rewrite motors_handleDebugButtons.
    apply coasting_handleCalibrationButtons. rewrite <- V.
    apply coasting_handleMovement; try assumption.
    rewrite <- V in Hp. exact Hp.
  - repeat split; assumption.
  - cbn [ControllerHandler.set_motors ControllerHandler.motors].
    destruct (updateAcceleration_stopped_target ch now _ T) as [M T'].
    split; [ rewrite smoothEnabled_updateAcceleration; exact Sm | ].
    split; [ exact T' | rewrite M; exact V ].
Qed.

Lemma coasting_run (ch : Channel) (v : MotorDirection * Z * list Actuation)
  (script : list (Z * LoopEvent)) :
  0 < snd (fst v) ->
  forall w : ControllerHandler.t,
  forallb (fun ne => stick_released ch (snd ne)) script = true ->
  coasting ch v (self (ControllerHandler.motors w)) ->
  coasting ch v (self (ControllerHandler.motors (loop_run script w))).
Proof.
  intros Hp.
  induction script as [ | [now e] script IH ]; intros w Re H; cbn [loop_run].
  - exact H.
  - cbn [forallb snd] in Re. apply andb_true_iff in Re. destruct Re as [Re1 Re].
    apply IH; [exact Re | ]. apply coasting_step; assumption.
Qed.

(** X17: with smoothing enabled, releasing a joystick does not stop its
    motor.  Take a motor that runs at a power above 0, let
    [processController] see its joystick inside the dead zone, and let any
    sequence of further [processController] calls (the joystick still
    released; the other joystick and all buttons arbitrary) and ramp polls
    follow: the motor's direction, its power and the history of its pins
    stay exactly as they were.  No stop is ever written: [leftStop] /
    [rightStop] only open a deceleration cycle whose target is stopped, and
    the poll skips such a target. *)
Theorem X17_released_stick_keeps_running (ch : Channel) (now : Z)
  (c : ControllerHandler.Controller) (script : list (Z * LoopEvent))
  (w : ControllerHandler.t) :
  _smoothEnabled (self (ControllerHandler.motors w)) = true ->
  0 < Motor._power (motor ch (self (ControllerHandler.motors w))) ->
  forallb (fun ne => stick_released ch (snd ne))
          ((now, Process (Some c)) :: script) = true ->
  motion_view (motor ch (self (ControllerHandler.motors
                                 (loop_run ((now, Process (Some c)) :: script) w))))
  = motion_view (motor ch (self (ControllerHandler.motors w))).
Proof.
  intros Sm Hp Re.
  cbn [forallb snd] in Re. apply andb_true_iff in Re. destruct Re as [Re1 Re].
  cbn [loop_run loop_step ControllerHandler.processController]. cbv zeta.
  set (v := motion_view (motor ch (self (ControllerHandler.motors w)))).
  assert (H1 : coasting ch v
                 (self (ControllerHandler.motors
                          (ControllerHandler.handleDebugButtons now c
                             (ControllerHandler.handleCalibrationButtons now c
                                (ControllerHandler.handleMovement now c w)))))).
  { rewrite motors_handleDebugButtons.
    apply coasting_handleCalibrationButtons.
    apply coasting_handleMovement; assumption. }
  apply (coasting_run ch v script Hp _ Re H1).
Qed.

Lemma X17_released_stick_keeps_running_witness :
  let w := ControllerHandler.begin running_200 [] in
  let script := [ (20, Poll); (40, Process (Some (sticks 4999 (-30000))));
                  (60, Poll); (80, Poll); (400, Process (Some idle_controller));
                  (420, Poll); (440, Poll) ] in
  let w' := loop_run ((0, Process (Some idle_controller)) :: script) w in
  (_smoothEnabled (self (ControllerHandler.motors w)) = true
   /\ 0 < Motor._power (motor Left (self (ControllerHandler.motors w)))
   /\ forallb (fun ne => stick_released Left (snd ne))
              ((0, Process (Some idle_controller)) :: script) = true)
  /\ motion_view (motor Left (self (ControllerHandler.motors w')))
     = motion_view (motor Left (self (ControllerHandler.motors w)))
  /\ motion_view (motor Left (self (ControllerHandler.motors w)))
     = (MOTOR_FORWARD, 200, [mkActuation 200 200 0; mkActuation 0 0 0]).
Proof.
  intros w script w'.
  assert (Sm : _smoothEnabled (self (ControllerHandler.motors w)) = true)
    by (vm_compute; reflexivity).
  assert (Hp : 0 < Motor._power (motor Left (self (ControllerHandler.motors w))))
    by (vm_compute; reflexivity).
  assert (Re : forallb (fun ne => stick_released Left (snd ne))
                       ((0, Process (Some idle_controller)) :: script) = true)
    by (vm_compute; reflexivity).
  split; [ split; [exact Sm | split; [exact Hp | exact Re] ] | ].
  split; [ exact (X17_released_stick_keeps_running Left 0 idle_controller script w
                    Sm Hp Re) | ].
  vm_compute. reflexivity.
Defined.

(** ** ControllerHandler: both joysticks at once *)

Lemma deadZone_pushed (raw : Z) :
  ControllerHandler.JOYSTICK_DEAD_ZONE <= Z.abs (s16 raw) ->
  ControllerHandler.deadZone (s16 raw) = s16 raw /\ s16 raw <> 0.
Proof.
  unfold ControllerHandler.deadZone, ControllerHandler.JOYSTICK_DEAD_ZONE.
  intros H. destruct (Z.ltb_spec (Z.abs (s16 raw)) 5000); lia.
Qed.

(** The call [handleMovement] makes for a pushed joystick whose motor
    reports stopped opens a cycle toward the joystick's direction and
    power, and does not touch the motors. *)
Lemma self_pushed_at_rest (now : Z) (ch : Channel) (joystickY : Z) (st : State) :
  joystickY <> 0 ->
  _smoothEnabled (self st) = true ->
  Motor._direction (motor ch (self st)) = MOTOR_STOPPED ->
  self (call now (channel_call ch joystickY) st)
  = openCycle now defaultParams
      match ch with
      | Left => set_targets (stick_direction joystickY)
                            (u8 (ControllerHandler.motorPower joystickY))
                            MOTOR_STOPPED 0 (self st)
      | Right => set_targets MOTOR_STOPPED 0 (stick_direction joystickY)
                             (u8 (ControllerHandler.motorPower joystickY)) (self st)
      end.
Proof.
  intros Ny Sm Re. unfold stick_direction.
  destruct ch; cbn [channel_call motor] in *; unfold left_call, right_call;
    (destruct (Z.ltb_spec 0 joystickY);
     [ | destruct (Z.ltb_spec joystickY 0); [ | lia ] ]); cbn [call].
  - unfold leftForward, Motor.getDirection. rewrite Sm, Re.
    cbn [andb MotorDirection_eqb].
    rewrite self_updateTelemetry, self_smoothTransition by exact Sm.
    cbn [motor]. rewrite Re. reflexivity.
  - unfold leftBackward, Motor.getDirection. rewrite Sm, Re.
    cbn [andb MotorDirection_eqb].
    rewrite self_updateTelemetry, self_smoothTransition by exact Sm.
    cbn [motor]. rewrite Re. reflexivity.
  - unfold rightForward, Motor.getDirection. rewrite Sm, Re.
    cbn [andb MotorDirection_eqb].
    rewrite self_updateTelemetry, self_smoothTransition by exact Sm.
    cbn [motor]. rewrite Re. reflexivity.
  - unfold rightBackward, Motor.getDirection. rewrite Sm, Re.
    cbn [andb MotorDirection_eqb].
    rewrite self_updateTelemetry, self_smoothTransition by exact Sm.
    cbn [motor]. rewrite Re. reflexivity.
Qed.

(** X18: pushing both joysticks from rest ramps the right motor only.
    With smoothing enabled and both motors at rest, let [handleMovement]
    see both joysticks outside the dead zone.  It calls the left drive
    function, then the right one, and the right call replaces the left
    target by (stopped, 0).  Whatever polls follow, the left motor is never
    actuated; ten or more polls spaced by the step delay bring the right
    motor to the direction and power of its joystick. *)
Theorem X18_both_sticks_ramp_right_only (now : Z)
  (c : ControllerHandler.Controller) (times : list Z) (w : ControllerHandler.t) :
  _smoothEnabled (self (ControllerHandler.motors w)) = true ->
  at_rest (self (ControllerHandler.motors w)) ->
  ControllerHandler.JOYSTICK_DEAD_ZONE <= Z.abs (s16 (ControllerHandler.axisY c)) ->
  ControllerHandler.JOYSTICK_DEAD_ZONE <= Z.abs (s16 (ControllerHandler.axisRY c)) ->
  let st' := run (polls times)
                 (ControllerHandler.motors (ControllerHandler.handleMovement now c w)) in
  motor Left (self st') = motor Left (self (ControllerHandler.motors w))
  /\ (spaced now times = true -> (10 <= List.length times)%nat ->
      Motor._direction (motor Right (self st'))
      = stick_direction (s16 (ControllerHandler.axisRY c))
      /\ Motor._power (motor Right (self st'))
         = ControllerHandler.motorPower (s16 (ControllerHandler.axisRY c))).
Proof.
  intros Sm [ReL ReR] PL PR st'.
  destruct (deadZone_pushed _ PL) as [DL NL].
  destruct (deadZone_pushed _ PR) as [DR NR].
  set (yl := s16 (ControllerHandler.axisY c)) in *.
  set (yr := s16 (ControllerHandler.axisRY c)) in *.
  set (st0 := ControllerHandler.motors w) in *.
  set (st1 := call now (channel_call Left yl) st0).
  set (st2 := call now (channel_call Right yr) st1).
  assert (E : ControllerHandler.motors (ControllerHandler.handleMovement now c w) = st2).
  { rewrite handleMovement_calls. fold yl yr. rewrite DL, DR. reflexivity. }
  subst st'. rewrite E.
  pose proof (self_pushed_at_rest now Left yl st0 NL Sm ReL) as S1. fold st1 in S1.
  assert (Sm1 : _smoothEnabled (self st1) = true) by (rewrite S1; exact Sm).
  assert (ReR1 : Motor._direction (motor Right (self st1)) = MOTOR_STOPPED)
    by (rewrite S1; exact ReR).
  pose proof (self_pushed_at_rest now Right yr st1 NR Sm1 ReR1) as S2. fold st2 in S2.
  assert (TL : targetDirection Left (self st2) = MOTOR_STOPPED)
    by (rewrite S2; reflexivity).
  assert (ML : motor Left (self st2) = motor Left (self st0))
    by (rewrite S2; simpl_mm; rewrite S1; reflexivity).
  split.
  - destruct (polls_stopped_target Left times st2 TL) as [M _]. congruence.
  - intros Sp Len.
    assert (Nd : stick_direction yr <> MOTOR_STOPPED)
      by (unfold stick_direction; destruct (0 <? yr); discriminate).
    assert (Cy : in_cycle Right (stick_direction yr)
                   (u8 (ControllerHandler.motorPower yr)) 0 (self st2)).
    { rewrite S2. unfold in_cycle. simpl_mm. repeat split; try reflexivity.
      exact Sm1. }
    destruct (cycle_polls Right (stick_direction yr)
                (u8 (ControllerHandler.motorPower yr)) Nd times 10%nat 0 st2)
      as (j & _ & _ & J & _ & Fin); try assumption; try lia; try reflexivity.
    assert (La : _lastAccelUpdateTime (self st2) = now) by (rewrite S2; reflexivity).
    rewrite La in J. specialize (J Sp). rewrite Nat.min_r in J by exact Len.
    destruct (Fin J) as (_ & Di & Po). split; [exact Di | ].
    rewrite Po. unfold u8. apply Z.mod_small.
    pose proof (motorPower_range yr (s16_range _)). lia.
Qed.

Lemma X18_both_sticks_ramp_right_only_witness :
  let w := ControllerHandler.begin (call 0 Begin example_state) [] in
  let c := sticks 32767 (-16384) in
  let times := [20; 40; 60; 80; 100; 120; 140; 160; 180; 200; 220] in
  let st' := run (polls times)
                 (ControllerHandler.motors (ControllerHandler.handleMovement 0 c w)) in
  (_smoothEnabled (self (ControllerHandler.motors w)) = true
   /\ at_rest (self (ControllerHandler.motors w))
   /\ ControllerHandler.JOYSTICK_DEAD_ZONE <= Z.abs (s16 (ControllerHandler.axisY c))
   /\ ControllerHandler.JOYSTICK_DEAD_ZONE <= Z.abs (s16 (ControllerHandler.axisRY c)))
  /\ motor Left (self st') = motor Left (self (ControllerHandler.motors w))
  /\ magnitudes (motor Left (self st')) = [ (0, 0) ]
  /\ Motor._power (motor Right (self st')) = 127.
Proof.
  intros w c times st'.
  assert (Sm : _smoothEnabled (self (ControllerHandler.motors w)) = true)
    by (vm_compute; reflexivity).
  assert (Re : at_rest (self (ControllerHandler.motors w)))
    by (split; vm_compute; reflexivity).
  assert (PL : ControllerHandler.JOYSTICK_DEAD_ZONE
               <= Z.abs (s16 (ControllerHandler.axisY c)))
    by (vm_compute; discriminate).
  assert (PR : ControllerHandler.JOYSTICK_DEAD_ZONE
               <= Z.abs (s16 (ControllerHandler.axisRY c)))
    by (vm_compute; discriminate).
  destruct (X18_both_sticks_ramp_right_only 0 c times w Sm Re PL PR) as [M _].
  split; [ split; [exact Sm | split; [exact Re | split; [exact PL | exact PR] ] ] | ].
  split; [exact M | ]. split; vm_compute; reflexivity.
Defined.

(** ** Logger and the debug buttons *)

(** X19: switching all debugging off and on again with L2+R2 leaves the
    logger enabled but silent.  [setEnabled(false)] sets the level to
    [DEBUG_NONE] and [setEnabled(true)] does not restore it: after two
    accepted L2+R2 presses on an enabled logger (L1+R1 not held), whatever
    the level was, the logger is enabled at level 0, [logMotor] prints
    nothing and [log] prints no message of level 1 or above, until the
    level is raised again. *)
Theorem X19_debug_toggle_loses_level (now1 now2 : Z)
  (c : ControllerHandler.Controller) (w : ControllerHandler.t) :
  ControllerHandler.l2 c && ControllerHandler.r2 c = true ->
  ControllerHandler.l1 c && ControllerHandler.r1 c = false ->
  ControllerHandler.canProcessButton now1 w = true ->
  ControllerHandler.DEBOUNCE_DELAY < ulong_sub now2 now1 ->
  Logger.isEnabled (ControllerHandler.logger w) = true ->
  let w1 := ControllerHandler.handleDebugButtons now1 c w in
  let w2 := ControllerHandler.handleDebugButtons now2 c w1 in
  Logger.isEnabled (ControllerHandler.logger w1) = false
  /\ Logger.isEnabled (ControllerHandler.logger w2) = true
  /\ Logger.getLevel (ControllerHandler.logger w2) = Logger.DEBUG_NONE
  /\ Logger.logMotor (ControllerHandler.logger w2) = Logger.NoLine
  /\ (forall level, 0 < level -> Logger.log level (ControllerHandler.logger w2) = false)
  /\ Logger.log Logger.DEBUG_BASIC
       (Logger.setLevel Logger.DEBUG_BASIC (ControllerHandler.logger w2)) = true.
Proof.
  intros T C P1 P2 En w1 w2.
  assert (E1 : w1 = ControllerHandler.mk
                      (ControllerHandler.motors w) (ControllerHandler.prefs w) now1
                      (Logger.setEnabled false (ControllerHandler.logger w))
                      (ControllerHandler.enableAccelerometerDebug w)
                      (ControllerHandler.enableGyroscopeDebug w)
                      (ControllerHandler.enableControllerDebug w)).
  { subst w1. unfold ControllerHandler.handleDebugButtons.
    rewrite P1, C, T. cbv zeta. rewrite En. reflexivity. }
  assert (E2 : ControllerHandler.logger w2
               = Logger.setEnabled true
                   (Logger.setEnabled false (ControllerHandler.logger w))).
  { subst w2. unfold ControllerHandler.handleDebugButtons.
    assert (Q : ControllerHandler.canProcessButton now2 w1 = true).
    { rewrite E1. unfold ControllerHandler.canProcessButton.
      cbn [ControllerHandler._lastButtonPressTime]. apply Z.ltb_lt, P2. }
    rewrite Q, C, T. cbv zeta. rewrite E1. reflexivity. }
  rewrite E2, E1. cbn [ControllerHandler.logger].
  unfold Logger.setEnabled, Logger.isEnabled, Logger.getLevel, Logger.logMotor,
         Logger.log, Logger.setLevel.
  cbn [Logger._enabled Logger._level negb andb].
  repeat split.
  intros level H. unfold Logger.DEBUG_NONE. apply Z.leb_gt. lia.
Qed.

Lemma X19_debug_toggle_loses_level_witness :
  let w := ControllerHandler.begin example_state [] in
  let c := ControllerHandler.mkController 0 0 false false 0
             false false true true false false in
  let w2 := ControllerHandler.handleDebugButtons 700
              c (ControllerHandler.handleDebugButtons 301 c w) in
  (ControllerHandler.canProcessButton 301 w = true
   /\ ControllerHandler.DEBOUNCE_DELAY < ulong_sub 700 301)
  /\ Logger.logMotor (ControllerHandler.logger w) = Logger.Line
  /\ Logger.isEnabled (ControllerHandler.logger w2) = true
  /\ Logger.logMotor (ControllerHandler.logger w2) = Logger.NoLine.
Proof.
  intros w c w2.
  assert (P1 : ControllerHandler.canProcessButton 301 w = true) by reflexivity.
  assert (P2 : ControllerHandler.DEBOUNCE_DELAY < ulong_sub 700 301) by reflexivity.
  destruct (X19_debug_toggle_loses_level 301 700 c w eq_refl eq_refl P1 P2 eq_refl)
    as (_ & En & _ & Mo & _).
  split; [ split; [exact P1 | exact P2] | ].
  split; [ reflexivity | ]. split; [exact En | exact Mo].
Defined.

(** ** What telemetry reports after a call *)

(** Floats that compare equal compare alike with every float. *)
Lemma SFcompare_Eq_congr (a b : spec_float) :
  SFcompare a b = Some Eq -> forall c, SFcompare a c = SFcompare b c.
Proof.
  destruct a as [sa | sa | | sa ma ea], b as [sb | sb | | sb mb eb];
    cbn [SFcompare]; try discriminate;
    try (destruct sa; discriminate); try (destruct sb; discriminate).
  - intros _ c. destruct c; reflexivity.
  - destruct sa, sb; try discriminate; intros _ c; reflexivity.
  - intros E c.
    assert (F : sa = sb /\ ea = eb /\ ma = mb).
    { destruct sa, sb; try discriminate;
        destruct (ea ?= eb) eqn:Ce; try discriminate;
        apply Z.compare_eq in Ce;
        change (PosDef.Pos.compare_cont Eq ma mb) with (Pos.compare ma mb) in E;
        destruct (Pos.compare ma mb) eqn:Cm; try discriminate;
        apply Pos.compare_eq in Cm; auto. }
    destruct F as (-> & -> & ->). reflexivity.
Qed.

Lemma eqb_sym (a b : F32.float) : F32.eqb a b = true -> F32.eqb b a = true.
Proof.
  unfold F32.eqb, SFeqb. destruct (SFcompare a b) as [c | ] eqn:E; [ | discriminate ].
  rewrite (SFcompare_antisym a b c E). destruct c; cbn; congruence.
Qed.

Lemma eqb_trans (a b c : F32.float) :
  F32.eqb a b = true -> F32.eqb b c = true -> F32.eqb a c = true.
Proof.
  unfold F32.eqb, SFeqb. intros E.
  destruct (SFcompare a b) as [[ | | ] | ] eqn:C; try discriminate.
  rewrite (SFcompare_Eq_congr a b C c). auto.
Qed.

Lemma same_float_eqb (a b c : F32.float) :
  same_float a b -> F32.eqb c b = true -> same_float a c.
Proof.
  intros [-> | E] H; right.
  - apply eqb_sym, H.
  - apply (eqb_trans a b c E), eqb_sym, H.
Qed.

(** The snapshot after [Telemetry::update] shows the values passed. *)
Lemma update_shows (now : Z) (s : Telemetry.t)
  (lp rp : Z) (ld rd : MotorDirection) (lc rc : F32.float) (accel smooth : bool) :
  shows (Telemetry._data
           (Telemetry.update now lp rp
              (MotorDirection_eqb ld MOTOR_FORWARD) (MotorDirection_eqb rd MOTOR_FORWARD)
              lc rc accel smooth s))
        (lp, rp, ld, rd, lc, rc, accel, smooth).
Proof.
  unfold shows, Telemetry.update, same_float.
  destruct (Telemetry.differs _ _ _ _ _ _ _ _ _) eqn:D.
  - cbn [Telemetry._data Telemetry.leftMotorPower Telemetry.rightMotorPower
         Telemetry.leftMotorForward Telemetry.rightMotorForward
         Telemetry.leftCalibration Telemetry.rightCalibration
         Telemetry.isAccelerating Telemetry.smoothEnabled].
    repeat split; auto.
  - unfold Telemetry.differs, F32.neqb in D.
    repeat (apply orb_false_iff in D; destruct D as [D ?]).
    repeat match goal with
           | H : negb _ = false |- _ => apply negb_false_iff in H
           end.
    repeat match goal with
           | H : (_ =? _) = true |- _ => apply Z.eqb_eq in H
           | H : Bool.eqb _ _ = true |- _ => apply Bool.eqb_prop in H
           end.
    repeat split; auto.
Qed.

(** [updateTelemetry] keeps its cache and the snapshot together, and leaves
    the snapshot showing the engine. *)
Lemma updateTelemetry_synced (now : Z) (st : State) :
  cache_matches st ->
  cache_matches (updateTelemetry now st)
  /\ snapshot_current (updateTelemetry now st).
Proof.
  intros H. unfold updateTelemetry. cbv zeta.
  match goal with |- context [if ?c then _ else _] => destruct c eqn:D end.
  - unfold cache_matches, snapshot_current, Telemetry.getData,
           cache_observed, engine_observed.
    cbn [self statics telemetry lastLeftPower lastRightPower lastLeftDir
         lastRightDir lastLeftCal lastRightCal lastAccel lastSmooth].
    split; apply update_shows.
  - split; [exact H | ].
    unfold cache_matches, snapshot_current, Telemetry.getData,
           cache_observed, engine_observed, shows in *.
    destruct H as (H1 & H2 & H3 & H4 & H5 & H6 & H7 & H8).
    unfold F32.neqb in D.
    repeat (apply orb_false_iff in D; destruct D as [D ?]).
    repeat match goal with
           | E : negb _ = false |- _ => apply negb_false_iff in E
           end.
    repeat match goal with
           | E : (_ =? _) = true |- _ => apply Z.eqb_eq in E
           | E : Bool.eqb _ _ = true |- _ => apply Bool.eqb_prop in E
           | E : MotorDirection_eqb _ _ = true |- _ => apply MotorDirection_eqb_eq in E
           end.
    repeat split; try congruence.
    + apply (same_float_eqb _ _ _ H5). assumption.
    + apply (same_float_eqb _ _ _ H6). assumption.
Qed.

Lemma cache_matches_updateTelemetry (now : Z) (st : State) :
  cache_matches st -> cache_matches (updateTelemetry now st).
Proof. intros H. apply updateTelemetry_synced, H. Qed.

Lemma cache_matches_with_self (s : t) (st : State) :
  cache_matches st -> cache_matches (with_self s st).
Proof. intros H. exact H. Qed.

(** Reduces a goal [cache_matches st'] to the same goal about the state
    [st'] was computed from, through conditionals, [updateTelemetry] and
    assignments to the object. *)
Ltac cache_step :=
  match goal with
  | |- cache_matches (if ?c then _ else _) => destruct c
  | |- cache_matches (updateTelemetry _ _) => apply cache_matches_updateTelemetry
  | |- cache_matches (with_self _ _) => apply cache_matches_with_self
  | |- cache_matches (mkState _ (statics ?st) (telemetry ?st)) =>
      apply (cache_matches_with_self _ st)
  | H : cache_matches ?st |- cache_matches ?st => exact H
  end.

Lemma cache_matches_smoothAccelerate now ch dir p params st :
  cache_matches st -> cache_matches (smoothAccelerate now ch dir p params st).
Proof. intros H. unfold smoothAccelerate. cbv zeta. repeat cache_step. Qed.

Lemma cache_matches_smoothDecelerate now ch dir p params st :
  cache_matches st -> cache_matches (smoothDecelerate now ch dir p params st).
Proof. intros H. unfold smoothDecelerate. cbv zeta. repeat cache_step. Qed.

Lemma cache_matches_smoothTransition now ch dir p params st :
  cache_matches st -> cache_matches (smoothTransition now ch dir p params st).
Proof. intros H. unfold smoothTransition. cbv zeta. repeat cache_step. Qed.

Ltac cache_smooth :=
  match goal with
  | |- cache_matches (smoothAccelerate _ _ _ _ _ _) =>
      apply cache_matches_smoothAccelerate
  | |- cache_matches (smoothDecelerate _ _ _ _ _ _) =>
      apply cache_matches_smoothDecelerate
  | |- cache_matches (smoothTransition _ _ _ _ _ _) =>
      apply cache_matches_smoothTransition
  end.

Lemma cache_matches_leftStop now st :
  cache_matches st -> cache_matches (leftStop now st).
Proof. intros H. unfold leftStop. cbv zeta. repeat first [cache_step | cache_smooth]. Qed.

Lemma cache_matches_rightStop now st :
  cache_matches st -> cache_matches (rightStop now st).
Proof. intros H. unfold rightStop. cbv zeta. repeat first [cache_step | cache_smooth]. Qed.

(** Every call but [begin()] keeps the cache and the snapshot together, and
    every reporting call leaves the snapshot showing the engine. *)
Lemma call_synced (now : Z) (c : Call) (st : State) :
  not_begin c = true ->
  cache_matches st ->
  cache_matches (call now c st)
  /\ (reporting_call c = true -> snapshot_current (call now c st)).
Proof.
  intros Nb H.
  assert (Last : forall st', cache_matches st' ->
            cache_matches (updateTelemetry now st')
            /\ (reporting_call c = true -> snapshot_current (updateTelemetry now st'))).
  { intros st' H'. destruct (updateTelemetry_synced now st' H'). auto. }
  destruct c; cbn [not_begin] in Nb; try discriminate; cbn [call].
  - unfold leftForward. cbv zeta. apply Last. repeat first [cache_step | cache_smooth].
  - unfold leftBackward. cbv zeta. apply Last. repeat first [cache_step | cache_smooth].
  - unfold rightForward. cbv zeta. apply Last. repeat first [cache_step | cache_smooth].
  - unfold rightBackward. cbv zeta. apply Last. repeat first [cache_step | cache_smooth].
  - unfold leftStop. cbv zeta. apply Last. repeat first [cache_step | cache_smooth].
  - unfold rightStop. cbv zeta. apply Last. repeat first [cache_step | cache_smooth].
  - unfold stop. cbv zeta. apply Last. apply cache_matches_with_self.
    apply cache_matches_rightStop, cache_matches_leftStop, H.
  - unfold setSmoothEnabled. apply Last. repeat cache_step.
  - unfold setLeftCalibration. cbv zeta. apply Last. repeat cache_step.
  - unfold setRightCalibration. cbv zeta. apply Last. repeat cache_step.
  - split; [ | discriminate ].
    unfold updateAcceleration. cbv zeta. repeat cache_step.
Qed.

Lemma run_cache_matches (script : list (Z * Call)) :
  forall st : State,
  forallb (fun nc => not_begin (snd nc)) script = true ->
  cache_matches st -> cache_matches (run script st).
Proof.
  induction script as [ | [now c] script IH ]; intros st Nb H; cbn [run].
  - exact H.
  - cbn [forallb snd] in Nb. apply andb_true_iff in Nb. destruct Nb as [Nc Nb].
    apply IH; [exact Nb | ]. apply call_synced; assumption.
Qed.

Lemma orb_fifth_sixth (a b c d e f g h : bool) :
  e || f = true -> a || b || c || d || e || f || g || h = true.
Proof. destruct a, b, c, d, e, f; cbn; congruence. Qed.

(** When a calibration differs from the remembered one, [updateTelemetry]
    passes the engine's values on, whatever the snapshot showed before. *)
Lemma updateTelemetry_calibration_changed (now : Z) (st : State) :
  F32.neqb (Motor.getCalibration (_leftMotor (self st))) (lastLeftCal (statics st))
  || F32.neqb (Motor.getCalibration (_rightMotor (self st))) (lastRightCal (statics st))
  = true ->
  cache_matches (updateTelemetry now st).
Proof.
  intros Nz. unfold updateTelemetry. cbv zeta.
  rewrite (orb_fifth_sixth _ _ _ _ _ _ _ _ Nz).
  unfold cache_matches, cache_observed.
  cbn [statics telemetry lastLeftPower lastRightPower lastLeftDir lastRightDir
       lastLeftCal lastRightCal lastAccel lastSmooth].
  apply update_shows.
Qed.

(** On a freshly constructed engine, [begin()] restarts telemetry and then
    reports the engine, provided [updateTelemetry] sees a difference from
    the initial values of its static locals: a calibration that is not
    zero. *)
Lemma begin_cache_matches (now : Z) (leftA leftB rightA rightB : Z)
  (leftCal rightCal : F32.float) :
  F32.neqb (F32.constrain leftCal F32.zero F32.one) F32.zero
  || F32.neqb (F32.constrain rightCal F32.zero F32.one) F32.zero = true ->
  cache_matches (begin now (initial leftA leftB rightA rightB leftCal rightCal)).
Proof.
  intros Nz. unfold begin. cbv zeta.
  apply updateTelemetry_calibration_changed. exact Nz.
Qed.

(** X20: telemetry reports the engine as it is after every control call.
    Construct the engine with at least one calibration that is not zero and
    call [begin()].  Then after every script of calls without a further
    [begin()], and after each further call other than the ramp poll, the
    snapshot [Telemetry::getData] returns shows the current powers,
    directions (as forward or not) and calibrations of both motors and the
    two flags of the engine.  (With both calibrations zero [begin()] detects
    no change, and the snapshot keeps the defaults of [Telemetry::begin].) *)
Theorem X20_snapshot_shows_engine (script : list (Z * Call)) (now0 now : Z) (c : Call)
  (leftA leftB rightA rightB : Z) (leftCal rightCal : F32.float) :
  F32.neqb (F32.constrain leftCal F32.zero F32.one) F32.zero
  || F32.neqb (F32.constrain rightCal F32.zero F32.one) F32.zero = true ->
  forallb (fun nc => not_begin (snd nc)) script = true ->
  reporting_call c = true ->
  snapshot_current
    (call now c
       (run script
          (call now0 Begin (initial leftA leftB rightA rightB leftCal rightCal)))).
Proof.
  intros Nz Nb Rc.
  assert (Nc : not_begin c = true) by (destruct c; try reflexivity; discriminate Rc).
  pose proof (begin_cache_matches now0 leftA leftB rightA rightB leftCal rightCal Nz)
    as H.
  apply (call_synced now c _ Nc (run_cache_matches script _ Nb H)), Rc.
Qed.

Lemma X20_snapshot_shows_engine_witness :
  let script := [ (0, LeftForward 200 true); (20, UpdateAcceleration);
                  (40, UpdateAcceleration) ] in
  let st := call 50 (SetRightCalibration one_half)
              (run script (call 0 Begin (initial 25 26 32 33 F32.one F32.one))) in
  (F32.neqb (F32.constrain F32.one F32.zero F32.one) F32.zero
   || F32.neqb (F32.constrain F32.one F32.zero F32.one) F32.zero = true
   /\ forallb (fun nc => not_begin (snd nc)) script = true)
  /\ snapshot_current st
  /\ Telemetry.leftMotorPower (Telemetry.getData (telemetry st)) = 40
  /\ Telemetry.leftMotorForward
       (Telemetry.getData
          (telemetry (call 0 Begin (initial 25 26 32 33 F32.zero F32.zero)))) = true.
Proof.
  intros script st.
  assert (Nz : F32.neqb (F32.constrain F32.one F32.zero F32.one) F32.zero
               || F32.neqb (F32.constrain F32.one F32.zero F32.one) F32.zero = true)
    by (vm_compute; reflexivity).
  assert (Nb : forallb (fun nc => not_begin (snd nc)) script = true) by reflexivity.
  split; [ split; [exact Nz | exact Nb] | ].
  split; [ exact (X20_snapshot_shows_engine script 0 50 (SetRightCalibration one_half)
                    25 26 32 33 F32.one F32.one Nz Nb eq_refl) | ].
  split; vm_compute; reflexivity.
Defined.

(** ** startAcceleration *)

(** X21: [startAcceleration], the private helper that sets both targets at
    once, ramps both channels together.  With smoothing enabled, two
    non-stopped target directions and the default step count, ten or more
    polls spaced by the step delay command on each
    channel the ten powers of the ramp schedule toward that channel's
    target, and leave each motor in its target direction at its target
    power, with the ramp finished. *)
Theorem X21_startAcceleration_ramps_both (now : Z)
  (leftDir rightDir : MotorDirection) (leftPower rightPower : Z)
  (times : list Z) (st : State) :
  _smoothEnabled (self st) = true ->
  leftDir <> MOTOR_STOPPED -> rightDir <> MOTOR_STOPPED ->
  spaced now times = true -> (10 <= List.length times)%nat ->
  let st1 := startAcceleration now leftDir leftPower rightDir rightPower
                               SMOOTH_ACCEL_STEPS st in
  let st' := run (polls times) st1 in
  _isAccelerating (self st') = false
  /\ (polled_powers Left times st1 = ramp_schedule leftPower
      /\ Motor._direction (_leftMotor (self st')) = leftDir
      /\ Motor._power (_leftMotor (self st')) = leftPower)
  /\ (polled_powers Right times st1 = ramp_schedule rightPower
      /\ Motor._direction (_rightMotor (self st')) = rightDir
      /\ Motor._power (_rightMotor (self st')) = rightPower).
Proof.
  intros Sm NL NR Sp Len st1 st'.
  assert (S1 : self st1
               = set_isAccelerating true
                   (set_lastAccelUpdateTime now
                      (set_totalAccelSteps SMOOTH_ACCEL_STEPS
                         (set_currentAccelStep 0
                            (set_targets leftDir leftPower rightDir rightPower
                                         (self st)))))).
  { subst st1. unfold startAcceleration. cbv zeta.
    rewrite self_updateTelemetry. reflexivity. }
  assert (La : _lastAccelUpdateTime (self st1) = now) by (rewrite S1; reflexivity).
  assert (Ch : forall ch dir target,
            in_cycle ch dir target 0 (self st1) -> dir <> MOTOR_STOPPED ->
            polled_powers ch times st1 = ramp_schedule target
            /\ _isAccelerating (self st') = false
            /\ Motor._direction (motor ch (self st')) = dir
            /\ Motor._power (motor ch (self st')) = target).
  { intros ch dir target Cy Nd.
    destruct (cycle_polls ch dir target Nd times 10%nat 0 st1)
      as (j & _ & Pw & J & _ & Fin); try assumption; try lia; try reflexivity.
    rewrite La in J. specialize (J Sp). rewrite Nat.min_r in J by exact Len.
    destruct (Fin J) as (A & Di & Po). subst j.
    split; [ | auto ]. rewrite Pw. apply firstn_all2. reflexivity. }
  assert (CL : in_cycle Left leftDir leftPower 0 (self st1)).
  { rewrite S1. unfold in_cycle. simpl_mm. repeat split; try reflexivity. exact Sm. }
  assert (CR : in_cycle Right rightDir rightPower 0 (self st1)).
  { rewrite S1. unfold in_cycle. simpl_mm. repeat split; try reflexivity. exact Sm. }
  destruct (Ch Left leftDir leftPower CL NL) as (PL & A & DL & WL).
  destruct (Ch Right rightDir rightPower CR NR) as (PR & _ & DR & WR).
  cbn [motor] in *. auto 10.
Qed.

Lemma X21_startAcceleration_ramps_both_witness :
  let times := [20; 40; 60; 80; 100; 120; 140; 160; 180; 200] in
  let st1 := startAcceleration 0 MOTOR_FORWARD 200 MOTOR_BACKWARD 100
                               SMOOTH_ACCEL_STEPS (call 0 Begin example_state) in
  (_smoothEnabled (self (call 0 Begin example_state)) = true
   /\ spaced 0 times = true /\ (10 <= List.length times)%nat)
  /\ polled_powers Right times st1 = ramp_schedule 100
  /\ magnitudes (_rightMotor (self (run (polls times) st1)))
     = [ (0, 0); (0, 10); (0, 20); (0, 30); (0, 40); (0, 50);
         (0, 60); (0, 70); (0, 80); (0, 90); (0, 100) ]
  /\ Motor._power (_leftMotor (self (run (polls times) st1))) = 200.
Proof.
  intros times st1.
  assert (Sm : _smoothEnabled (self (call 0 Begin example_state)) = true)
    by (vm_compute; reflexivity).
  assert (Sp : spaced 0 times = true) by (vm_compute; reflexivity).
  assert (Len : (10 <= List.length times)%nat) by (cbn; lia).
  assert (NL : MOTOR_FORWARD <> MOTOR_STOPPED) by discriminate.
  assert (NR : MOTOR_BACKWARD <> MOTOR_STOPPED) by discriminate.
  destruct (X21_startAcceleration_ramps_both 0 MOTOR_FORWARD MOTOR_BACKWARD 200 100
              times (call 0 Begin example_state) Sm NL NR Sp Len)
    as (_ & (_ & _ & WL) & (PR & _ & _)).
  split; [ split; [exact Sm | split; [exact Sp | exact Len] ] | ].
  split; [exact PR | ]. split; [ vm_compute; reflexivity | exact WL ].
Defined.

(** ** ControllerHandler: the calibration stays a number in [0, 1] *)

Lemma shr_fexp_nonneg (m e : Z) (l : location) :
  0 <= m -> 0 <= shr_m (fst (shr_fexp F32.prec F32.emax m e l)).
Proof.
  intros H. unfold shr_fexp.
  destruct (shr_spec (shr_record_of_loc m l) e
              (fexp F32.prec F32.emax (Zdigits2 m + e) - e)) as (_ & M & _).
  - destruct l as [ | [ | | ] ]; exact H.
  - rewrite M. apply Z.div_pos; [ | apply Z.pow_pos_nonneg; lia ].
    destruct l as [ | [ | | ] ]; exact H.
Qed.

(** Rounding never produces a NaN. *)
Lemma binary_round_aux_number (sx : bool) (mx ex : Z) (lx : location) :
  0 <= mx -> is_number (binary_round_aux F32.prec F32.emax sx mx ex lx) = true.
Proof.
  intros H. unfold binary_round_aux.
  pose proof (shr_fexp_nonneg mx ex lx H) as A.
  destruct (shr_fexp F32.prec F32.emax mx ex lx) as [mrs' e']. cbn [fst] in A.
  pose proof (round_nearest_even_bounds (shr_m mrs') (loc_of_shr_record mrs')) as B.
  pose proof (shr_fexp_nonneg
                (round_nearest_even (shr_m mrs') (loc_of_shr_record mrs'))
                e' loc_Exact ltac:(lia)) as C.
  destruct (shr_fexp F32.prec F32.emax
              (round_nearest_even (shr_m mrs') (loc_of_shr_record mrs')) e' loc_Exact)
    as [mrs'' e'']. cbn [fst] in C.
  destruct (shr_m mrs'') as [ | m | m ].
  - reflexivity.
  - destruct (e'' <=? F32.emax - F32.prec); reflexivity.
  - lia.
Qed.

Lemma binary_normalize_number (m e : Z) (szero : bool) :
  is_number (binary_normalize F32.prec F32.emax m e szero) = true.
Proof.
  unfold binary_normalize, binary_round.
  destruct m as [ | p | p ]; [ reflexivity | | ];
    destruct (shl_align p e _) as [mz ez]; apply binary_round_aux_number; lia.
Qed.

(** Adding the calibration step to a number, or subtracting it, gives a
    number. *)
Lemma step_number (c : F32.float) :
  is_number c = true ->
  is_number (ControllerHandler.fadd c ControllerHandler.CALIBRATION_STEP) = true
  /\ is_number (ControllerHandler.fsub c ControllerHandler.CALIBRATION_STEP) = true.
Proof.
  intros N.
  unfold ControllerHandler.fadd, ControllerHandler.fsub,
         ControllerHandler.CALIBRATION_STEP, SFadd, SFsub.
  destruct c as [s | s | | s m e]; try discriminate N;
    try (split; reflexivity).
  split; apply binary_normalize_number.
Qed.

Lemma unit_number_constrain (c : F32.float) :
  is_number c = true -> unit_number (F32.constrain c F32.zero F32.one).
Proof. intros N. exact (constrain_range c N). Qed.

Lemma calibrations_in_range_same (w w' : ControllerHandler.t) :
  calibration_state w' = calibration_state w ->
  calibrations_in_range w -> calibrations_in_range w'.
Proof.
  unfold calibration_state, calibrations_in_range. intros E H.
  injection E as EL ER _. rewrite EL, ER. exact H.
Qed.

Lemma calibrations_in_range_calibrate (now : Z) (f : F32.float)
  (w : ControllerHandler.t) :
  is_number f = true ->
  calibrations_in_range w ->
  calibrations_in_range
    (ControllerHandler.calibrateRight now (F32.constrain f F32.zero F32.one) w)
  /\ calibrations_in_range
       (ControllerHandler.calibrateLeft now (F32.constrain f F32.zero F32.one) w).
Proof.
  intros N [L R].
  unfold calibrations_in_range, ControllerHandler.calibrateRight,
         ControllerHandler.calibrateLeft.
  cbn [ControllerHandler.motors].
  destruct (calibration_state_set_right now (F32.constrain f F32.zero F32.one)
              (ControllerHandler.motors w)) as [EL ER].
  destruct (calibration_state_set_left now (F32.constrain f F32.zero F32.one)
              (ControllerHandler.motors w)) as [FR FL].
  rewrite EL, ER, FR, FL, constrain_idempotent.
  pose proof (unit_number_constrain f N). auto.
Qed.

Lemma calibrations_in_range_handleCalibrationButtons (now : Z)
  (c : ControllerHandler.Controller) (w : ControllerHandler.t) :
  calibrations_in_range w ->
  calibrations_in_range (ControllerHandler.handleCalibrationButtons now c w).
Proof.
  intros H. pose proof H as [[NL _] [NR _]].
  destruct (step_number _ NL) as [AL SL]. destruct (step_number _ NR) as [AR SR].
  unfold ControllerHandler.handleCalibrationButtons.
  destruct (negb _); [exact H | ].
  destruct (ControllerHandler.a c);
    [ exact (proj1 (calibrations_in_range_calibrate now _ w SR H)) | ].
  destruct (ControllerHandler.y c);
    [ exact (proj1 (calibrations_in_range_calibrate now _ w AR H)) | ].
  destruct (_ =? _);
    [ exact (proj2 (calibrations_in_range_calibrate now _ w AL H)) | ].
  destruct (_ =? _);
    [ exact (proj2 (calibrations_in_range_calibrate now _ w SL H)) | exact H ].
Qed.

Lemma calibrations_in_range_step (now : Z) (e : LoopEvent) (w : ControllerHandler.t) :
  calibrations_in_range w -> calibrations_in_range (loop_step now e w).
Proof.
  intros H. destruct e as [[c | ] | ]; cbn [loop_step ControllerHandler.processController].
  - cbv zeta.
    apply (calibrations_in_range_same _ _ (calibration_state_handleDebugButtons now c _)).
    apply calibrations_in_range_handleCalibrationButtons.
    apply (calibrations_in_range_same w); [ | exact H ].
    apply calibration_state_handleMovement.
  - exact H.
  - apply (calibrations_in_range_same w); [ | exact H ].
    unfold calibration_state, ControllerHandler.set_motors.
    cbn [ControllerHandler.motors ControllerHandler.prefs].
    destruct (calibration_frame_call now UpdateAcceleration
                (ControllerHandler.motors w) I) as [L R].
    cbn [call] in L, R. rewrite L, R. reflexivity.
Qed.

(** X22: the controller cannot take a calibration out of range.  If both
    calibrations of the engine are numbers between 0.0 and 1.0 (as they are
    once the engine is constructed with calibrations that are not NaN), they
    still are after every sequence of [processController] calls and ramp
    polls, with any joystick values and buttons.  Stepping by
    [CALIBRATION_STEP] in single precision never yields a NaN, and every
    stepped value is clamped before it is stored. *)
Theorem X22_calibration_stays_in_range (script : list (Z * LoopEvent)) :
  forall w : ControllerHandler.t,
  calibrations_in_range w -> calibrations_in_range (loop_run script w).
Proof.
  induction script as [ | [now e] script IH ]; intros w H; cbn [loop_run].
  - exact H.
  - apply IH, calibrations_in_range_step, H.
Qed.

Lemma X22_calibration_stays_in_range_witness :
  let press_y := ControllerHandler.mkController 0 0 false true 0
                   false false false false false false in
  let w0 := ControllerHandler.begin
              (call 0 Begin (initial 25 26 32 33 (F32.of_Z 3) one_half)) [] in
  let w := loop_run [ (301, Process (Some press_y)); (320, Poll);
                      (700, Process (Some press_y)) ] w0 in
  calibrations_in_range w0
  /\ calibrations_in_range w
  /\ getLeftCalibration (ControllerHandler.motors w) = F32.one
  /\ getRightCalibration (ControllerHandler.motors w)
     = S754_finite false 10066330 (-24).
Proof.
  intros press_y w0 w.
  assert (H : calibrations_in_range w0).
  { split; [ exact (unit_number_constrain (F32.of_Z 3) eq_refl)
           | exact (unit_number_constrain one_half eq_refl) ]. }
  split; [exact H | ].
  split; [ exact (X22_calibration_stays_in_range _ w0 H) | ].
  split; vm_compute; reflexivity.
Defined.

(** ** The two pins of a motor *)

Lemma pins_ok_forward (p : Z) (m : Motor.t) :
  pins_ok m -> Motor._direction m <> MOTOR_BACKWARD ->
  pins_ok (Motor.forward p m).
Proof.
  intros [R J] D. specialize (J D). split.
  - motor_simpl. cbn [pin_levels forallb]. rewrite R, J.
    unfold one_pin_driven. cbn [fst snd a_forward a_backward].
    rewrite Z.eqb_refl, !orb_true_r. reflexivity.
  - intros _. reflexivity.
Qed.

Lemma pins_ok_backward (p : Z) (m : Motor.t) :
  pins_ok m -> pins_ok (Motor.backward p m).
Proof.
  intros [R _]. split.
  - motor_simpl. cbn [pin_levels forallb]. rewrite R. reflexivity.
  - motor_simpl. congruence.
Qed.

Lemma pins_ok_stop (m : Motor.t) : pins_ok m -> pins_ok (Motor.stop m).
Proof.
  intros [R _]. split.
  - motor_simpl. cbn [pin_levels forallb]. rewrite R. reflexivity.
  - intros _. reflexivity.
Qed.

Lemma pins_channel_step (dir : MotorDirection) (p : Z) (m : Motor.t) :
  (dir = MOTOR_FORWARD -> Motor._direction m <> MOTOR_BACKWARD) ->
  pins_ok m ->
  (dir = MOTOR_FORWARD -> Motor._direction (stepMotor dir p m) <> MOTOR_BACKWARD)
  /\ pins_ok (stepMotor dir p m).
Proof.
  intros D M. destruct dir; cbn.
  - split; [congruence | apply pins_ok_forward; auto].
  - split; [congruence | apply pins_ok_backward, M].
  - split; [congruence | exact M].
Qed.

Lemma pins_updateAcceleration (now : Z) (st : State) :
  pins_invariant (self st) -> pins_invariant (self (updateAcceleration now st)).
Proof.
  intros [Sm C]. destruct (step_due now (self st)) eqn:D.
  - rewrite (updateAcceleration_due now st D). split; [exact Sm | ].
    intros ch. destruct (C ch) as [T M].
    destruct ch; simpl_mm; apply pins_channel_step; assumption.
  - rewrite (updateAcceleration_not_due now st D). split; assumption.
Qed.

Lemma pins_open (now : Z) (params : AccelParams) (ch : Channel)
  (dir : MotorDirection) (p : Z) (s : t) :
  _smoothEnabled s = true ->
  (forall ch', pins_ok (motor ch' s)) ->
  (dir = MOTOR_FORWARD -> Motor._direction (motor ch s) <> MOTOR_BACKWARD) ->
  pins_invariant
    (openCycle now params
       match ch with
       | Left => set_targets dir p MOTOR_STOPPED 0 s
       | Right => set_targets MOTOR_STOPPED 0 dir p s
       end).
Proof.
  intros Sm M D. split.
  - destruct ch; exact Sm.
  - intros ch'. pose proof (M ch') as M'.
    destruct ch, ch'; simpl_mm; (split; [ try discriminate; exact D | exact M' ]).
Qed.

Lemma pins_smoothAccelerate now ch dir p params st :
  pins_invariant (self st) ->
  (dir = MOTOR_FORWARD -> Motor._direction (motor ch (self st)) <> MOTOR_BACKWARD) ->
  pins_invariant (self (smoothAccelerate now ch dir p params st)).
Proof.
  intros [Sm C] D. rewrite self_smoothAccelerate by exact Sm.
  apply pins_open; try assumption. intros ch'. apply C.
Qed.

Lemma pins_smoothDecelerate now ch dir p params st :
  pins_invariant (self st) ->
  (dir = MOTOR_FORWARD -> Motor._direction (motor ch (self st)) <> MOTOR_BACKWARD) ->
  pins_invariant (self (smoothDecelerate now ch dir p params st)).
Proof.
  intros [Sm C] D. rewrite self_smoothDecelerate by exact Sm. cbv zeta.
  apply pins_open; try assumption.
  - intros ch'. apply C.
  - destruct (p =? 0); [discriminate | exact D].
Qed.

Lemma pins_smoothTransition now ch dir p params st :
  pins_invariant (self st) ->
  pins_invariant (self (smoothTransition now ch dir p params st)).
Proof.
  intros [Sm C]. rewrite self_smoothTransition by exact Sm. cbv zeta.
  destruct (negb (MotorDirection_eqb (Motor._direction (motor ch (self st))) MOTOR_STOPPED)
            && negb (MotorDirection_eqb (Motor._direction (motor ch (self st))) dir))
    eqn:Rev.
  - apply pins_open.
    + destruct ch; exact Sm.
    + intros ch'. destruct (C ch') as [_ M'].
      destruct ch, ch'; simpl_mm; try exact M'; apply pins_ok_stop, M'.
    + intros _. destruct ch; simpl_mm; discriminate.
  - apply pins_open; try assumption.
    + intros ch'. apply C.
    + intros ->. destruct (Motor._direction (motor ch (self st)));
        cbn in Rev; congruence.
Qed.

Lemma pins_set_leftMotor_stop (s : t) :
  pins_invariant s -> pins_invariant (set_leftMotor (Motor.stop (_leftMotor s)) s).
Proof.
  intros [Sm C]. split; [exact Sm | ].
  intros ch'. destruct (C ch') as [T M]. destruct ch'; simpl_mm.
  - split; [ intros _; discriminate | apply pins_ok_stop, M ].
  - split; assumption.
Qed.

Lemma pins_set_rightMotor_stop (s : t) :
  pins_invariant s -> pins_invariant (set_rightMotor (Motor.stop (_rightMotor s)) s).
Proof.
  intros [Sm C]. split; [exact Sm | ].
  intros ch'. destruct (C ch') as [T M]. destruct ch'; simpl_mm.
  - split; assumption.
  - split; [ intros _; discriminate | apply pins_ok_stop, M ].
Qed.

Lemma pins_leftStop now st :
  pins_invariant (self st) -> pins_invariant (self (leftStop now st)).
Proof.
  intros H. unfold leftStop. reduce_self.
  - apply pins_smoothDecelerate; [exact H | ].
    intros E. simpl_mm. unfold Motor.getDirection in E. rewrite E. discriminate.
  - apply pins_set_leftMotor_stop, H.
Qed.

Lemma pins_rightStop now st :
  pins_invariant (self st) -> pins_invariant (self (rightStop now st)).
Proof.
  intros H. unfold rightStop. reduce_self.
  - apply pins_smoothDecelerate; [exact H | ].
    intros E. simpl_mm. unfold Motor.getDirection in E. rewrite E. discriminate.
  - apply pins_set_rightMotor_stop, H.
Qed.

Lemma pins_flags (s : t) (v : bool) :
  pins_invariant s ->
  pins_invariant (set_isAccelerating v s)
  /\ pins_invariant (set_smoothEnabled true s)
  /\ (forall c, pins_invariant
                  (set_leftMotor (Motor.setCalibration c (_leftMotor s)) s))
  /\ (forall c, pins_invariant
                  (set_rightMotor (Motor.setCalibration c (_rightMotor s)) s)).
Proof.
  intros [Sm C]. pose proof (C Left) as L. pose proof (C Right) as R.
  split; [ | split; [ | split ] ]; try intros c;
    (split; [ first [exact Sm | reflexivity]
            | intros ch'; destruct ch'; first [exact L | exact R] ]).
Qed.

Ltac pins_smooth :=
  match goal with
  | |- pins_invariant (self (smoothAccelerate _ _ _ _ _ _)) =>
      apply pins_smoothAccelerate
  | |- pins_invariant (self (smoothDecelerate _ _ _ _ _ _)) =>
      apply pins_smoothDecelerate
  | |- pins_invariant (self (smoothTransition _ _ _ _ _ _)) =>
      apply pins_smoothTransition
  end.

Ltac not_backward :=
  let D := fresh "D" in
  intros D;
  first
    [ discriminate D
    | simpl_mm;
      match goal with
      | E : MotorDirection_eqb (Motor.getDirection ?m) MOTOR_FORWARD = true |- _ =>
          apply MotorDirection_eqb_eq in E; unfold Motor.getDirection in E;
          rewrite E; discriminate
      end ].

Lemma pins_call (now : Z) (c : Call) (st : State) :
  smooth_call c = true ->
  pins_invariant (self st) ->
  pins_invariant (self (call now c st)).
Proof.
  intros Hc H. pose proof H as [Sm C]. destruct c; cbn [call smooth_call] in Hc |- *.
  - unfold begin, Motor.begin. reduce_self. cbn [self].
    apply pins_set_rightMotor_stop, pins_set_leftMotor_stop, H.
  - subst smooth. unfold leftForward. rewrite Sm. cbn [andb]. reduce_self;
      try pins_smooth; try exact H; not_backward.
  - subst smooth. unfold leftBackward. rewrite Sm. cbn [andb]. reduce_self;
      try pins_smooth; try exact H; not_backward.
  - subst smooth. unfold rightForward. rewrite Sm. cbn [andb]. reduce_self;
      try pins_smooth; try exact H; not_backward.
  - subst smooth. unfold rightBackward. rewrite Sm. cbn [andb]. reduce_self;
      try pins_smooth; try exact H; not_backward.
  - apply pins_leftStop, H.
  - apply pins_rightStop, H.
  - unfold stop. reduce_self.
    apply (pins_flags _ false).
    apply pins_rightStop, pins_leftStop, H.
  - subst enable. unfold setSmoothEnabled. reduce_self.
    apply (pins_flags _ false H).
  - unfold setLeftCalibration. reduce_self.
    apply (pins_flags _ false H).
  - unfold setRightCalibration. reduce_self.
    apply (pins_flags _ false H).
  - apply pins_updateAcceleration, H.
Qed.

Lemma pins_run (script : list (Z * Call)) :
  forall st : State,
  smooth_script script = true ->
  pins_invariant (self st) ->
  pins_invariant (self (run script st)).
Proof.
  induction script as [ | [now c] script IH ]; intros st Hs H; cbn [run].
  - exact H.
  - cbn [smooth_script forallb snd] in Hs. apply andb_true_iff in Hs.
    destruct Hs as [Hc Hs]. apply IH; [exact Hs | ].
    apply pins_call; assumption.
Qed.

(** X23: with every call smooth, the two pins of a motor are never driven
    together.  [applyPower] writes the forward pin first and the backward
    pin second, so between the two writes the backward pin still carries
    its previous level.  When every drive call of a script is smooth and
    smoothing stays enabled, then after each single [analogWrite] at least
    one of the two pins of every motor is at 0.  (An immediate
    [leftForward] on a motor that runs backward does drive both pins for a
    moment: the witness shows the levels (200, 200).) *)
Theorem X23_pins_never_driven_together (script : list (Z * Call))
  (leftA leftB rightA rightB : Z) (leftCal rightCal : F32.float) (ch : Channel) :
  smooth_script script = true ->
  forallb one_pin_driven
    (pin_levels
       (Motor.sink
          (motor ch (self (run script (initial leftA leftB rightA rightB
                                               leftCal rightCal))))))
  = true.
Proof.
  intros Hs.
  assert (I : pins_invariant (self (initial leftA leftB rightA rightB leftCal rightCal))).
  { split; [reflexivity | ].
    intros c. destruct c; cbn; (split; [discriminate | split; reflexivity]). }
  destruct (pins_run script _ Hs I) as [_ C].
  destruct (C ch) as [_ [R _]]. exact R.
Qed.

Lemma X23_pins_never_driven_together_witness :
  smooth_script smooth_reversal_to_forward = true
  /\ forallb one_pin_driven
       (pin_levels
          (Motor.sink
             (motor Left (self (run smooth_reversal_to_forward
                                    (initial 25 26 32 33 F32.one F32.one))))))
     = true
  /\ In (200, 200)
        (pin_levels
           (Motor.sink
              (motor Left (self (run immediate_reversal_to_forward
                                     (initial 25 26 32 33 F32.one F32.one)))))).
Proof.
  assert (Hs : smooth_script smooth_reversal_to_forward = true)
    by (vm_compute; reflexivity).
  split; [exact Hs | ].
  split; [ exact (X23_pins_never_driven_together smooth_reversal_to_forward
                    25 26 32 33 F32.one F32.one Left Hs) | ].
  vm_compute. auto.
Defined.

(** ** The controller and the safety of reversals *)

Lemma smooth_call_channel_call (ch : Channel) (joystickY : Z) :
  smooth_call (channel_call ch joystickY) = true.
Proof.
  destruct ch; cbn [channel_call]; unfold left_call, right_call;
    (destruct (0 <? joystickY); [ reflexivity | ]);
    destruct (joystickY <? 0); reflexivity.
Qed.

(** Every loop event acts on the engine through smooth calls only. *)
Lemma loop_step_smooth_calls (Inv : t -> Prop) (now : Z) (e : LoopEvent)
  (w : ControllerHandler.t) :
  (forall now' c st, smooth_call c = true ->
     Inv (self st) -> Inv (self (call now' c st))) ->
  Inv (self (ControllerHandler.motors w)) ->
  Inv (self (ControllerHandler.motors (loop_step now e w))).
Proof.
  intros Step H.
  destruct e as [[c | ] | ]; cbn [loop_step ControllerHandler.processController].
  - cbv zeta. rewrite motors_handleDebugButtons.
    assert (M : Inv (self (ControllerHandler.motors
                           (ControllerHandler.handleMovement now c w)))).
    { rewrite handleMovement_calls.
      cbn [ControllerHandler.set_motors ControllerHandler.motors].
      apply Step; [ apply (smooth_call_channel_call Right) | ].
      apply Step; [ apply (smooth_call_channel_call Left) | exact H ]. }
    set (w1 := ControllerHandler.handleMovement now c w) in *.
    destruct (ControllerHandler.canProcessButton now w1) eqn:P.
    + destruct (handleCalibrationButtons_cases now c w1 P)
        as [[_ ->] | [_ [f [-> | ->]]]].
      * exact M.
      * exact (Step now (SetRightCalibration _) _ eq_refl M).
      * exact (Step now (SetLeftCalibration _) _ eq_refl M).
    + unfold ControllerHandler.handleCalibrationButtons. rewrite P. exact M.
  - exact H.
  - exact (Step now UpdateAcceleration _ eq_refl H).
Qed.

Lemma loop_run_smooth_calls (Inv : t -> Prop) (script : list (Z * LoopEvent)) :
  (forall now' c st, smooth_call c = true ->
     Inv (self st) -> Inv (self (call now' c st))) ->
  forall w : ControllerHandler.t,
  Inv (self (ControllerHandler.motors w)) ->
  Inv (self (ControllerHandler.motors (loop_run script w))).
Proof.
  intros Step.
  induction script as [ | [now e] script IH ]; intros w H; cbn [loop_run].
  - exact H.
  - apply IH, loop_step_smooth_calls; assumption.
Qed.

(** X24: the controller cannot cause an unsafe reversal.
    [ControllerHandler] drives the engine only through smooth calls and
    never switches smoothing off.  So on an engine that was constructed and
    set up by smooth calls only ([begin()], say), after every sequence of
    [processController] calls and ramp polls, whatever the joysticks and
    buttons do: at no moment, not even between the two [analogWrite] calls
    of one [applyPower], are both pins of a motor driven, and every
    actuation that drives a motor backward is separated by a stop from the
    last one that drove it forward. *)
Theorem X24_controller_reversals_are_safe (setup : list (Z * Call))
  (script : list (Z * LoopEvent))
  (leftA leftB rightA rightB : Z) (leftCal rightCal : F32.float)
  (p : Preferences.t) (ch : Channel) :
  smooth_script setup = true ->
  let w0 := ControllerHandler.begin
              (run setup (initial leftA leftB rightA rightB leftCal rightCal)) p in
  let m := motor ch (self (ControllerHandler.motors (loop_run script w0))) in
  forallb one_pin_driven (pin_levels (Motor.sink m)) = true
  /\ reversal_safe (Motor.sink m) = true.
Proof.
  intros Hs w0 m. subst m.
  assert (P0 : pins_invariant (self (ControllerHandler.motors w0))).
  { apply (pins_run setup _ Hs). split; [reflexivity | ].
    intros c. destruct c; cbn; (split; [discriminate | split; reflexivity]). }
  assert (S0 : smooth_invariant (self (ControllerHandler.motors w0)))
    by (apply (invariant_run setup _ Hs), invariant_initial).
  pose proof (loop_run_smooth_calls pins_invariant script pins_call w0 P0) as [_ PI].
  pose proof (loop_run_smooth_calls smooth_invariant script invariant_call w0 S0)
    as [_ SI].
  destruct (PI ch) as [_ [A _]]. destruct (SI ch) as [_ [B _]].
  split; assumption.
Qed.

Lemma X24_controller_reversals_are_safe_witness :
  let w0 := ControllerHandler.begin
              (run [ (0, Begin) ] (initial 25 26 32 33 F32.one F32.one)) [] in
  let script := [ (0, Process (Some (sticks 32767 0))); (20, Poll); (40, Poll);
                  (50, Process (Some (sticks (-32768) 0))); (70, Poll); (90, Poll) ] in
  let m := motor Left (self (ControllerHandler.motors (loop_run script w0))) in
  smooth_script [ (0, Begin) ] = true
  /\ (forallb one_pin_driven (pin_levels (Motor.sink m)) = true
      /\ reversal_safe (Motor.sink m) = true)
  /\ magnitudes m = [ (0, 0); (25, 0); (51, 0); (0, 0); (0, 25); (0, 51) ].
Proof.
  intros w0 script m.
  assert (Hs : smooth_script [ (0, Begin) ] = true) by reflexivity.
  split; [exact Hs | ].
  split; [ exact (X24_controller_reversals_are_safe [ (0, Begin) ] script
                    25 26 32 33 F32.one F32.one [] Left Hs) | ].
  vm_compute. reflexivity.
Defined.

(** ** A tap on a joystick *)

(** With smoothing enabled, the stop call [handleMovement] makes for a
    released joystick stops a motor whose power is 0 at once and leaves the
    ramp cycle alone. *)
Lemma self_released_at_zero (now : Z) (ch : Channel) (st : State) :
  Motor._power (motor ch (self st)) = 0 ->
  self (call now (channel_call ch 0) st)
  = set_motor ch (Motor.stop (motor ch (self st))) (self st).
Proof.
  intros Z0.
  destruct ch; cbn [channel_call motor set_motor] in *;
    change (left_call 0) with LeftStop; change (right_call 0) with RightStop;
    cbn [call].
  - rewrite self_leftStop, Z0, andb_false_r. reflexivity.
  - rewrite self_rightStop, Z0, andb_false_r. reflexivity.
Qed.

(** X25: a tap on a joystick still ramps the motor.  With smoothing enabled
    and both motors at rest with power 0, let [handleMovement] see the left
    joystick pushed (the right one released), and then, before any ramp
    step was due, both joysticks released.  The second call stops the left
    motor at once (its power is still 0) but does not cancel the ramp the
    first call opened: ten or more polls spaced by the step delay bring the
    left motor to the direction and power of the tap. *)
Theorem X25_tap_still_ramps (t0 t1 : Z) (c1 c2 : ControllerHandler.Controller)
  (times : list Z) (w : ControllerHandler.t) :
  let s0 := self (ControllerHandler.motors w) in
  _smoothEnabled s0 = true ->
  (forall ch, Motor._direction (motor ch s0) = MOTOR_STOPPED
              /\ Motor._power (motor ch s0) = 0) ->
  ControllerHandler.JOYSTICK_DEAD_ZONE <= Z.abs (s16 (ControllerHandler.axisY c1)) ->
  stick_released Right (Process (Some c1)) = true ->
  stick_released Left (Process (Some c2)) = true ->
  stick_released Right (Process (Some c2)) = true ->
  spaced t0 times = true -> (10 <= List.length times)%nat ->
  let w2 := ControllerHandler.handleMovement t1 c2
              (ControllerHandler.handleMovement t0 c1 w) in
  let st' := run (polls times) (ControllerHandler.motors w2) in
  Motor._direction (motor Left (self (ControllerHandler.motors w2))) = MOTOR_STOPPED
  /\ Motor._direction (motor Left (self st'))
     = stick_direction (s16 (ControllerHandler.axisY c1))
  /\ Motor._power (motor Left (self st'))
     = ControllerHandler.motorPower (s16 (ControllerHandler.axisY c1)).
Proof.
  intros s0 Sm Rest P1 R1 L2 R2 Sp Len w2 st'.
  cbn [stick_released axis] in R1, L2, R2.
  destruct (deadZone_pushed _ P1) as [D1 N1].
  pose proof (deadZone_released _ R1) as E1.
  pose proof (deadZone_released _ L2) as E2.
  pose proof (deadZone_released _ R2) as E3.
  set (yl := s16 (ControllerHandler.axisY c1)) in *.
  set (dir := stick_direction yl).
  set (pw := u8 (ControllerHandler.motorPower yl)).
  destruct (Rest Left) as [DL ZL]. destruct (Rest Right) as [DR ZR].
  cbn [motor] in DL, ZL, DR, ZR.
  set (st0 := ControllerHandler.motors w) in *.
  set (stA := call t0 (channel_call Left yl) st0).
  set (stB := call t0 (channel_call Right 0) stA).
  set (stC := call t1 (channel_call Left 0) stB).
  set (stD := call t1 (channel_call Right 0) stC).
  assert (E : ControllerHandler.motors w2 = stD).
  { subst w2. rewrite !handleMovement_calls.
    cbn [ControllerHandler.set_motors ControllerHandler.motors].
    fold yl. rewrite D1, E1, E2, E3. reflexivity. }
  pose proof (self_pushed_at_rest t0 Left yl st0 N1 Sm DL) as SA.
  fold stA dir pw in SA.
  assert (SB : self stB = set_motor Right (Motor.stop (motor Right (self stA))) (self stA)).
  { apply self_released_at_zero. rewrite SA. exact ZR. }
  assert (SC : self stC = set_motor Left (Motor.stop (motor Left (self stB))) (self stB)).
  { apply self_released_at_zero. rewrite SB, SA. exact ZL. }
  assert (SD : self stD = set_motor Right (Motor.stop (motor Right (self stC))) (self stC)).
  { apply self_released_at_zero. rewrite SC, SB. reflexivity. }
  assert (Cy : in_cycle Left dir pw 0 (self stD)
               /\ _lastAccelUpdateTime (self stD) = t0
               /\ Motor._direction (motor Left (self stD)) = MOTOR_STOPPED).
  { rewrite SD, SC, SB, SA. unfold in_cycle. simpl_mm.
    repeat split; try reflexivity. exact Sm. }
  destruct Cy as (Cy & La & Di0).
  subst st'. rewrite E. split; [exact Di0 | ].
  assert (Nd : dir <> MOTOR_STOPPED)
    by (unfold dir, stick_direction; destruct (0 <? yl); discriminate).
  destruct (cycle_polls Left dir pw Nd times 10%nat 0 stD)
    as (j & _ & _ & J & _ & Fin); try assumption; try lia; try reflexivity.
  rewrite La in J. specialize (J Sp). rewrite Nat.min_r in J by exact Len.
  destruct (Fin J) as (_ & Di & Po). split; [exact Di | ].
  rewrite Po. unfold pw, u8. apply Z.mod_small.
  pose proof (motorPower_range yl (s16_range _)). lia.
Qed.

Lemma X25_tap_still_ramps_witness :
  let w := ControllerHandler.begin (call 0 Begin example_state) [] in
  let times := [20; 40; 60; 80; 100; 120; 140; 160; 180; 200] in
  let w2 := ControllerHandler.handleMovement 10 idle_controller
              (ControllerHandler.handleMovement 0 (sticks 32767 0) w) in
  let st' := run (polls times) (ControllerHandler.motors w2) in
  (_smoothEnabled (self (ControllerHandler.motors w)) = true
   /\ ControllerHandler.JOYSTICK_DEAD_ZONE
      <= Z.abs (s16 (ControllerHandler.axisY (sticks 32767 0)))
   /\ spaced 0 times = true)
  /\ Motor._direction (motor Left (self st')) = MOTOR_FORWARD
  /\ Motor._power (motor Left (self st')) = 255
  /\ magnitudes (motor Left (self st'))
     = [ (0, 0); (0, 0); (25, 0); (51, 0); (76, 0); (102, 0); (127, 0);
         (153, 0); (178, 0); (204, 0); (229, 0); (255, 0) ].
Proof.
  intros w times w2 st'.
  assert (Sm : _smoothEnabled (self (ControllerHandler.motors w)) = true)
    by (vm_compute; reflexivity).
  assert (Rest : forall ch,
            Motor._direction (motor ch (self (ControllerHandler.motors w)))
            = MOTOR_STOPPED
            /\ Motor._power (motor ch (self (ControllerHandler.motors w))) = 0)
    by (intros ch; destruct ch; split; vm_compute; reflexivity).
  assert (P1 : ControllerHandler.JOYSTICK_DEAD_ZONE
               <= Z.abs (s16 (ControllerHandler.axisY (sticks 32767 0))))
    by (vm_compute; discriminate).
  assert (Sp : spaced 0 times = true) by (vm_compute; reflexivity).
  assert (Len : (10 <= List.length times)%nat) by (cbn; lia).
  destruct (X25_tap_still_ramps 0 10 (sticks 32767 0) idle_controller times w
              Sm Rest P1 eq_refl eq_refl eq_refl Sp Len) as (_ & Di & Po).
  split; [ split; [exact Sm | split; [exact P1 | exact Sp] ] | ].
  split; [exact Di | ]. split; [exact Po | ].
  vm_compute. reflexivity.
Defined.
